(** * Pause & Learn: the storage manager with local fallback

    A shallow embedding of [StorageManager] (utils/storage.ts) and of the
    pause handler of the video player (components/VideoPlayer.tsx).

    - JavaScript objects are finite maps from field names to values
      ([gmap string value]); reading a field that is not there gives
      [None] (JavaScript's [undefined]).
    - JavaScript numbers are rationals ([Q]); NaN and the infinities are
      outside the model.
    - The asynchronous methods are run one at a time: every method is a
      function from the world before the call to its outcome, which is
      either a value with the world after the call or a raised exception.
    - The remote backend decides by itself which of its calls fail: the
      parameter [up : nat -> bool] tells whether the n-th remote call of
      the run succeeds.
    - [localStorage.setItem] raises when the storage would go over its
      quota: the save methods of [Quota] take the quota of the browser as
      a parameter, and the methods of the same names outside [Quota] are
      those of a browser with room for every write. *)

From Stdlib Require Import ZArith QArith Qround Ascii String List Lia Sorted.
From stdpp Require Import base option list gmap strings pretty.

Local Open Scope string_scope.
Local Open Scope list_scope.

(** ** Values and objects *)

Record flashcard := Flashcard { question : string; answer : string }.

Record quiz_question :=
  QuizQuestion { quiz_text : string; options : list string; correct : Q }.

Inductive value :=
| VStr (s : string)
| VNum (n : Q)
| VFlashcards (l : list flashcard)
| VQuiz (l : list quiz_question).

Abbreviation obj := (gmap string value).

(** [v === s] for a field read [v] and a string [s]. *)
Definition strict_eq_str (v : option value) (s : string) : bool :=
  match v with
  | Some (VStr t) => bool_decide (t = s)
  | _ => false
  end.

(** The interfaces of storage.ts. *)
Module VideoSession.
Record t := mk {
  id : string;
  video_id : string;
  title : string;
  thumbnail : string;
  progress : Q;
  duration : Q;
  last_watched : string;
  user_id : string
}.
End VideoSession.

Module PauseInsight.
Record t := mk {
  id : string;
  session_id : string;
  timestamp : Q;
  summary : string;
  flashcards : list flashcard;
  quiz_questions : list quiz_question;
  user_id : string;
  created_at : string
}.
End PauseInsight.

(** A session as the object the caller holds: the field names of the
    [VideoSession] interface. *)
Definition obj_of_session (s : VideoSession.t) : obj :=
  list_to_map
    [ ("id", VStr (VideoSession.id s));
      ("video_id", VStr (VideoSession.video_id s));
      ("title", VStr (VideoSession.title s));
      ("thumbnail", VStr (VideoSession.thumbnail s));
      ("progress", VNum (VideoSession.progress s));
      ("duration", VNum (VideoSession.duration s));
      ("last_watched", VStr (VideoSession.last_watched s));
      ("user_id", VStr (VideoSession.user_id s)) ].

(** The object [saveVideoSession] hands to [videoSessions.create]. *)
Definition wire_of_session (s : VideoSession.t) : obj :=
  list_to_map
    [ ("id", VStr (VideoSession.id s));
      ("videoId", VStr (VideoSession.video_id s));
      ("title", VStr (VideoSession.title s));
      ("thumbnail", VStr (VideoSession.thumbnail s));
      ("progress", VNum (VideoSession.progress s));
      ("duration", VNum (VideoSession.duration s));
      ("lastWatched", VStr (VideoSession.last_watched s));
      ("userId", VStr (VideoSession.user_id s)) ].

(** The partial object [saveVideoSession] hands to [videoSessions.update]. *)
Definition update_of_session (s : VideoSession.t) : obj :=
  list_to_map
    [ ("title", VStr (VideoSession.title s));
      ("progress", VNum (VideoSession.progress s));
      ("duration", VNum (VideoSession.duration s));
      ("lastWatched", VStr (VideoSession.last_watched s)) ].

Definition obj_of_insight (i : PauseInsight.t) : obj :=
  list_to_map
    [ ("id", VStr (PauseInsight.id i));
      ("session_id", VStr (PauseInsight.session_id i));
      ("timestamp", VNum (PauseInsight.timestamp i));
      ("summary", VStr (PauseInsight.summary i));
      ("flashcards", VFlashcards (PauseInsight.flashcards i));
      ("quiz_questions", VQuiz (PauseInsight.quiz_questions i));
      ("user_id", VStr (PauseInsight.user_id i));
      ("created_at", VStr (PauseInsight.created_at i)) ].

(** The object [savePauseInsight] hands to [pauseInsights.create]. *)
Definition wire_of_insight (i : PauseInsight.t) : obj :=
  list_to_map
    [ ("id", VStr (PauseInsight.id i));
      ("sessionId", VStr (PauseInsight.session_id i));
      ("timestamp", VNum (PauseInsight.timestamp i));
      ("summary", VStr (PauseInsight.summary i));
      ("flashcards", VFlashcards (PauseInsight.flashcards i));
      ("quizQuestions", VQuiz (PauseInsight.quiz_questions i));
      ("userId", VStr (PauseInsight.user_id i));
      ("createdAt", VStr (PauseInsight.created_at i)) ].

(** The casing conventions side by side: the in-memory name of every
    persisted field and the name the save methods put on the wire. *)
Definition wire_name (field : string) : string :=
  if bool_decide (field = "video_id") then "videoId"
  else if bool_decide (field = "last_watched") then "lastWatched"
  else if bool_decide (field = "user_id") then "userId"
  else if bool_decide (field = "session_id") then "sessionId"
  else if bool_decide (field = "quiz_questions") then "quizQuestions"
  else if bool_decide (field = "created_at") then "createdAt"
  else field.

Definition session_fields : list string :=
  [ "id"; "video_id"; "title"; "thumbnail"; "progress"; "duration";
    "last_watched"; "user_id" ].

Definition insight_fields : list string :=
  [ "id"; "session_id"; "timestamp"; "summary"; "flashcards";
    "quiz_questions"; "user_id"; "created_at" ].

(** ** The remote record store *)

Module Remote.

Inductive direction := Asc | Desc.

Record query := Query {
  where_ : list (string * string);
  orderBy : option (string * direction);
  limit : option nat
}.

(** The order of the values of a column: an absent value first, then
    numbers by size, then strings by the dictionary, then the rest. *)
Definition key_leb (a b : option value) : bool :=
  match a, b with
  | None, _ => true
  | Some _, None => false
  | Some (VNum x), Some (VNum y) => Qle_bool x y
  | Some (VNum _), Some _ => true
  | Some _, Some (VNum _) => false
  | Some (VStr x), Some (VStr y) => String.leb x y
  | Some (VStr _), Some _ => true
  | Some _, Some (VStr _) => false
  | Some _, Some _ => true
  end.

Definition row_leb (field : string) (d : direction) (a b : obj) : bool :=
  match d with
  | Asc => key_leb (a !! field) (b !! field)
  | Desc => key_leb (b !! field) (a !! field)
  end.

Fixpoint insert_by (le : obj -> obj -> bool) (x : obj) (l : list obj)
  : list obj :=
  match l with
  | [] => [x]
  | y :: l' => if le x y then x :: l else y :: insert_by le x l'
  end.

Fixpoint sort_by (le : obj -> obj -> bool) (l : list obj) : list obj :=
  match l with
  | [] => []
  | x :: l' => insert_by le x (sort_by le l')
  end.

(** The relation of a boolean order. *)
Definition holds (le : obj -> obj -> bool) (a b : obj) : Prop :=
  le a b = true.

Definition matches (conds : list (string * string)) (row : obj) : bool :=
  forallb (fun c => strict_eq_str (row !! c.1) c.2) conds.

(** Modelled from the spec: the remote record store [blink.db], reached
    through [../blink/client], whose code is not among the sources.
    Section 6 gives its interface: per record kind,
    [list(filter, order, limit)], [create(record)] and
    [update(id, partial)], with the records under their wire (camelCase)
    field names.  A table is the list of its rows in the order of
    creation; [list_] keeps the rows that meet every condition, orders
    them (with [sort_by], by [key_leb] on the column) and cuts the result
    at the limit. *)
Definition list_ (table : list obj) (q : query) : list obj :=
  let rows := List.filter (matches (where_ q)) table in
  let rows :=
    match orderBy q with
    | Some (field, d) => sort_by (row_leb field d) rows
    | None => rows
    end in
  match limit q with
  | Some n => take n rows
  | None => rows
  end.

(** Modelled from the spec: [create(record)] of the remote record store
    adds the record as a new row. *)
Definition create (table : list obj) (record : obj) : list obj :=
  table ++ [record].

Definition has_id (idv : option value) (row : obj) : bool :=
  match idv with
  | Some (VStr i) => strict_eq_str (row !! "id") i
  | _ => false
  end.

(** Modelled from the spec: [update(id, partial)] of the remote record
    store overwrites the fields of [partial] in the row of that id and
    leaves every other field and every other row as they are. *)
Definition update (table : list obj) (idv : option value) (partial : obj)
  : list obj :=
  List.map (fun row => if has_id idv row then partial ∪ row else row) table.

End Remote.

(** ** Local storage *)

(** A stored string, seen through [JSON.parse]: [Json v] is the text
    [JSON.stringify] writes for the array [v], which [JSON.parse] reads
    back as [v]; [EmptyText] is the empty string; [Malformed] is any other
    text [JSON.parse] rejects. *)
Inductive text :=
| Json (v : list obj)
| EmptyText
| Malformed.

(** ** The world of the storage manager *)

Record world := World {
  dbAvailable : bool;              (* StorageManager.dbAvailable *)
  videoSessions : list obj;        (* blink.db.videoSessions *)
  pauseInsights : list obj;        (* blink.db.pauseInsights *)
  localStorage : gmap string text; (* window.localStorage *)
  calls : nat                      (* remote calls made so far *)
}.

Definition set_dbAvailable (b : bool) (w : world) : world :=
  World b (videoSessions w) (pauseInsights w) (localStorage w) (calls w).

Definition set_videoSessions (t : list obj) (w : world) : world :=
  World (dbAvailable w) t (pauseInsights w) (localStorage w) (calls w).

Definition set_pauseInsights (t : list obj) (w : world) : world :=
  World (dbAvailable w) (videoSessions w) t (localStorage w) (calls w).

(** The world after [localStorage.setItem(key, JSON.stringify(v))] went
    through; the call itself, which may raise, is [Quota.setItem]. *)
Definition setItem (key : string) (v : list obj) (w : world) : world :=
  World (dbAvailable w) (videoSessions w) (pauseInsights w)
        (<[key := Json v]> (localStorage w)) (calls w).

(** [new StorageManager()] in a browser with nothing stored, against an
    empty database. *)
Definition init : world := World true [] [] ∅ 0.

Inductive result (A : Type) :=
| Ok (a : A) (w : world)
| Throw (w : world).
Arguments Ok {A} a w.
Arguments Throw {A} w.

Definition bind {A B} (m : result A) (k : A -> world -> result B) : result B :=
  match m with
  | Ok a w => k a w
  | Throw w => Throw w
  end.

(** One call of the remote backend: whether it succeeds is the backend's
    answer for the call of this number. *)
Definition remote_call (up : nat -> bool) (w : world) : bool * world :=
  (up (calls w),
   World (dbAvailable w) (videoSessions w) (pauseInsights w)
         (localStorage w) (S (calls w))).

(** ** StorageManager *)

Definition checkDatabaseAvailability (up : nat -> bool) (w : world)
  : bool * world :=
  let '(ok, w1) := remote_call up w in
  (ok, set_dbAvailable ok w1).

(** [const x = localStorage.getItem(key); return x ? JSON.parse(x) : []] *)
Definition read_local (key : string) (w : world) : result (list obj) :=
  match localStorage w !! key with
  | None => Ok [] w
  | Some EmptyText => Ok [] w
  | Some (Json v) => Ok v w
  | Some Malformed => Throw w
  end.

Definition sessions_key (userId : string) : string :=
  "video_sessions_" +:+ userId.

Definition insights_key (sessionId : string) : string :=
  "pause_insights_" +:+ sessionId.

Definition sessions_query (userId : string) : Remote.query :=
  Remote.Query [("userId", userId)] (Some ("lastWatched", Remote.Desc))
               (Some 20).

Definition getVideoSessions (up : nat -> bool) (userId : string) (w : world)
  : result (list obj) :=
  let '(_, w1) := checkDatabaseAvailability up w in
  if dbAvailable w1 then
    let '(ok, w2) := remote_call up w1 in
    if ok then Ok (Remote.list_ (videoSessions w2) (sessions_query userId)) w2
    else read_local (sessions_key userId) (set_dbAvailable false w2)
  else read_local (sessions_key userId) w1.

(** [sessions.findIndex(s => s.video_id === video_id)], [None] for -1. *)
Fixpoint findIndex (p : obj -> bool) (l : list obj) : option nat :=
  match l with
  | [] => None
  | x :: l' => if p x then Some 0 else S <$> findIndex p l'
  end.

Definition same_video (video_id : string) (s : obj) : bool :=
  strict_eq_str (s !! "video_id") video_id.

(** The local branch of [saveVideoSession] after the list is loaded:
    replace the entry of the same video or put the session in front, and
    keep the first twenty. *)
Definition merge_session (session : VideoSession.t) (sessions : list obj)
  : list obj :=
  let sessions :=
    match findIndex (same_video (VideoSession.video_id session)) sessions with
    | Some existingIndex => <[existingIndex := obj_of_session session]> sessions
    | None => obj_of_session session :: sessions
    end in
  take 20 sessions.

Definition existing_query (session : VideoSession.t) : Remote.query :=
  Remote.Query [("videoId", VideoSession.video_id session);
                ("userId", VideoSession.user_id session)] None (Some 1).

Definition insights_query (sessionId : string) : Remote.query :=
  Remote.Query [("sessionId", sessionId)] (Some ("timestamp", Remote.Asc)) None.

Definition getPauseInsights (up : nat -> bool) (sessionId : string) (w : world)
  : result (list obj) :=
  let '(_, w1) := checkDatabaseAvailability up w in
  if dbAvailable w1 then
    let '(ok, w2) := remote_call up w1 in
    if ok then Ok (Remote.list_ (pauseInsights w2) (insights_query sessionId)) w2
    else read_local (insights_key sessionId) (set_dbAvailable false w2)
  else read_local (insights_key sessionId) w1.

(** The calls of the facade. *)
Inductive op :=
| ListSessions (userId : string)
| SaveSession (session : VideoSession.t)
| ListInsights (sessionId : string)
| SaveInsight (insight : PauseInsight.t).

(** The save methods, in a browser whose local storage has a quota. *)
Module Quota.

(** The contents of local storage that fit in the quota. *)
Definition t := gmap string text -> bool.

(** Room for every write. *)
Definition roomy : t := fun _ => true.

(** [localStorage.setItem(key, JSON.stringify(v))]: when the storage with
    the new text would not fit, the call raises (QuotaExceededError) and
    the storage stays as it was. *)
Definition setItem (room : t) (key : string) (v : list obj) (w : world)
  : result unit :=
  if room (<[key := Json v]> (localStorage w)) then Ok tt (setItem key v w)
  else Throw w.

Definition save_session_locally (room : t) (up : nat -> bool)
    (session : VideoSession.t) (w : world) : result unit :=
  bind (getVideoSessions up (VideoSession.user_id session) w)
       (fun sessions w' =>
          setItem room (sessions_key (VideoSession.user_id session))
                  (merge_session session sessions) w').

Definition saveVideoSession (room : t) (up : nat -> bool)
    (session : VideoSession.t) (w : world) : result unit :=
  let '(_, w1) := checkDatabaseAvailability up w in
  if dbAvailable w1 then
    let '(ok, w2) := remote_call up w1 in
    if ok then
      let existing := Remote.list_ (videoSessions w2) (existing_query session) in
      let '(ok', w3) := remote_call up w2 in
      if ok' then
        match existing with
        | found :: _ =>
            Ok tt (set_videoSessions
                     (Remote.update (videoSessions w3) (found !! "id")
                                    (update_of_session session)) w3)
        | [] =>
            Ok tt (set_videoSessions
                     (Remote.create (videoSessions w3)
                                    (wire_of_session session)) w3)
        end
      else save_session_locally room up session (set_dbAvailable false w3)
    else save_session_locally room up session (set_dbAvailable false w2)
  else save_session_locally room up session w1.

Definition save_insight_locally (room : t) (up : nat -> bool)
    (insight : PauseInsight.t) (w : world) : result unit :=
  bind (getPauseInsights up (PauseInsight.session_id insight) w)
       (fun insights w' =>
          setItem room (insights_key (PauseInsight.session_id insight))
                  (insights ++ [obj_of_insight insight]) w').

Definition savePauseInsight (room : t) (up : nat -> bool)
    (insight : PauseInsight.t) (w : world) : result unit :=
  let '(_, w1) := checkDatabaseAvailability up w in
  if dbAvailable w1 then
    let '(ok, w2) := remote_call up w1 in
    if ok then
      Ok tt (set_pauseInsights
               (Remote.create (pauseInsights w2) (wire_of_insight insight)) w2)
    else save_insight_locally room up insight (set_dbAvailable false w2)
  else save_insight_locally room up insight w1.

(** What a call hands back to its caller: the records of a list, nothing
    for a save. *)
Definition run_op (room : t) (up : nat -> bool) (o : op) (w : world)
  : result (list obj) :=
  match o with
  | ListSessions u => getVideoSessions up u w
  | SaveSession s => bind (saveVideoSession room up s w) (fun _ w' => Ok [] w')
  | ListInsights sid => getPauseInsights up sid w
  | SaveInsight i => bind (savePauseInsight room up i w) (fun _ w' => Ok [] w')
  end.

(** The calls of a run one after the other, with the answer of each. *)
Fixpoint run (room : t) (up : nat -> bool) (os : list op) (w : world)
  : result (list (list obj)) :=
  match os with
  | [] => Ok [] w
  | o :: os' =>
      bind (run_op room up o w)
           (fun r w' =>
              bind (run room up os' w') (fun rs w'' => Ok (r :: rs) w''))
  end.

Definition save_sessions (room : t) (up : nat -> bool)
    (ss : list VideoSession.t) (w : world) : result (list (list obj)) :=
  run room up (SaveSession <$> ss) w.

Definition save_insights (room : t) (up : nat -> bool)
    (ins : list PauseInsight.t) (w : world) : result (list (list obj)) :=
  run room up (SaveInsight <$> ins) w.

End Quota.

(** The save methods in a browser with room for every write, where
    [setItem] always goes through. *)
Definition save_session_locally (up : nat -> bool) (session : VideoSession.t)
    (w : world) : result unit :=
  Quota.save_session_locally Quota.roomy up session w.

Definition saveVideoSession (up : nat -> bool) (session : VideoSession.t)
    (w : world) : result unit :=
  Quota.saveVideoSession Quota.roomy up session w.

Definition save_insight_locally (up : nat -> bool) (insight : PauseInsight.t)
    (w : world) : result unit :=
  Quota.save_insight_locally Quota.roomy up insight w.

Definition savePauseInsight (up : nat -> bool) (insight : PauseInsight.t)
    (w : world) : result unit :=
  Quota.savePauseInsight Quota.roomy up insight w.

Definition isDatabaseAvailable (w : world) : bool := dbAvailable w.

(** ** The pause handler of the video player *)

(** What [JSON.parse(text)] gives for a reply of the text service. *)
Record parsed_insights := Parsed {
  parsed_summary : string;
  parsed_flashcards : list flashcard;
  parsed_quiz : list quiz_question
}.

(** One answer of [blink.ai.generateText]: the call fails, or it returns a
    text that [JSON.parse] decodes ([Some]) or rejects ([None]). *)
Inductive ai_reply :=
| AiFails
| AiText (parsed : option parsed_insights).

(** The props of the component and the clock of the browser: the n-th
    reading of [Date.now()] and of [new Date().toISOString()]. *)
Record player_env := PlayerEnv {
  videoId : string;
  userId : string;
  date_now : nat -> string;
  date_iso : nat -> string
}.

Record player := Player {
  store : world;
  generatingInsights : bool;
  showInsights : bool;
  insights : option PauseInsight.t;
  (* the requests made to the text service: video and floor(timestamp) *)
  generateText_requests : list (string * Z);
  clock_reads : nat
}.

Definition setGeneratingInsights (b : bool) (p : player) : player :=
  Player (store p) b (showInsights p) (insights p)
         (generateText_requests p) (clock_reads p).

Definition setShowInsights (b : bool) (p : player) : player :=
  Player (store p) (generatingInsights p) b (insights p)
         (generateText_requests p) (clock_reads p).

Definition setInsights (i : PauseInsight.t) (p : player) : player :=
  Player (store p) (generatingInsights p) (showInsights p) (Some i)
         (generateText_requests p) (clock_reads p).

Definition set_store (w : world) (p : player) : player :=
  Player w (generatingInsights p) (showInsights p) (insights p)
         (generateText_requests p) (clock_reads p).

Definition generateText (request : string * Z) (p : player) : player :=
  Player (store p) (generatingInsights p) (showInsights p) (insights p)
         (generateText_requests p ++ [request]) (clock_reads p).

Definition read_clock (p : player) : nat * player :=
  (clock_reads p,
   Player (store p) (generatingInsights p) (showInsights p) (insights p)
          (generateText_requests p) (S (clock_reads p))).

Definition Qltb (x y : Q) : bool := negb (Qle_bool y x).

Definition session_id_of (env : player_env) : string :=
  "session_" +:+ videoId env +:+ "_" +:+ userId env.

(** The insight built from a decoded reply. *)
Definition new_insight (env : player_env) (timestamp : Q)
    (parsed : parsed_insights) (p : player) : PauseInsight.t * player :=
  let '(n, p) := read_clock p in
  let '(m, p) := read_clock p in
  (PauseInsight.mk ("insight_" +:+ date_now env n) (session_id_of env)
     timestamp (parsed_summary parsed) (parsed_flashcards parsed)
     (parsed_quiz parsed) (userId env) (date_iso env m), p).

(** The insight of the inner [catch]. *)
Definition fallback_insight (env : player_env) (timestamp : Q) (p : player)
  : PauseInsight.t * player :=
  let '(n, p) := read_clock p in
  let '(m, p) := read_clock p in
  (PauseInsight.mk ("insight_" +:+ date_now env n) (session_id_of env)
     timestamp
     "AI-generated summary will appear here when you pause the video."
     [ Flashcard "What is the main topic?"
         "The main topic will be identified from the video content.";
       Flashcard "What are the key takeaways?"
         "Key takeaways will be summarized automatically." ]
     [ QuizQuestion "Sample quiz question"
         ["Option A"; "Option B"; "Option C"; "Option D"] 0 ]
     (userId env) (date_iso env m), p).

Definition set_fallback_insight (env : player_env) (timestamp : Q)
    (p : player) : player :=
  let '(i, p) := fallback_insight env timestamp p in setInsights i p.

Definition handlePause (up : nat -> bool) (env : player_env)
    (reply : ai_reply) (timestamp : Q) (p : player) : player :=
  if Qltb timestamp 30 then p
  else
    let p := setGeneratingInsights true p in
    let p := setShowInsights true p in
    let p := generateText (videoId env, Qfloor timestamp) p in
    let p :=
      match reply with
      | AiFails => p
      | AiText None => set_fallback_insight env timestamp p
      | AiText (Some parsed) =>
          let '(newInsight, p) := new_insight env timestamp parsed p in
          match savePauseInsight up newInsight (store p) with
          | Ok _ w => setInsights newInsight (set_store w p)
          | Throw w => set_fallback_insight env timestamp (set_store w p)
          end
      end in
    setGeneratingInsights false p.

(** ** Runs of the facade *)

(** The runs of a browser with room for every write.  What a call hands
    back to its caller: the records of a list, nothing for a save. *)
Definition run_op (up : nat -> bool) (o : op) (w : world)
  : result (list obj) :=
  match o with
  | ListSessions u => getVideoSessions up u w
  | SaveSession s => bind (saveVideoSession up s w) (fun _ w' => Ok [] w')
  | ListInsights sid => getPauseInsights up sid w
  | SaveInsight i => bind (savePauseInsight up i w) (fun _ w' => Ok [] w')
  end.

(** The calls of a run one after the other, with the answer of each. *)
Fixpoint run (up : nat -> bool) (os : list op) (w : world)
  : result (list (list obj)) :=
  match os with
  | [] => Ok [] w
  | o :: os' =>
      bind (run_op up o w)
           (fun r w' => bind (run up os' w') (fun rs w'' => Ok (r :: rs) w''))
  end.

Definition save_sessions (up : nat -> bool) (ss : list VideoSession.t)
    (w : world) : result (list (list obj)) :=
  run up (SaveSession <$> ss) w.

Definition save_insights (up : nat -> bool) (ins : list PauseInsight.t)
    (w : world) : result (list (list obj)) :=
  run up (SaveInsight <$> ins) w.

Definition world_of {A} (r : result A) : world :=
  match r with Ok _ w => w | Throw w => w end.

(** The two backends of the claims: one that answers every call and one
    that fails every call. *)
Definition always_up : nat -> bool := fun _ => true.
Definition always_down : nat -> bool := fun _ => false.

(** The condition of the lookup of [saveVideoSession]: the row of a user
    and a video. *)
Definition pair_row (u v : string) (row : obj) : bool :=
  Remote.matches [("videoId", v); ("userId", u)] row.

(** The session [s0] after the update path wrote [s] over it: title,
    progress, duration and last-watched of [s], the rest of [s0]. *)
Definition updated_by (s s0 : VideoSession.t) : VideoSession.t :=
  VideoSession.mk (VideoSession.id s0) (VideoSession.video_id s0)
    (VideoSession.title s) (VideoSession.thumbnail s0)
    (VideoSession.progress s) (VideoSession.duration s)
    (VideoSession.last_watched s) (VideoSession.user_id s0).

(** What the local branch reads under a key, when it can be read. *)
Definition stored_list (key : string) (w : world) : option (list obj) :=
  match localStorage w !! key with
  | None | Some EmptyText => Some []
  | Some (Json v) => Some v
  | Some Malformed => None
  end.

(** ** Sessions, insights and backends of the scenarios *)

Definition T1 : string := "2024-05-01T10:00:00.000Z".
Definition T2 : string := "2024-05-01T10:02:00.000Z".
Definition T3 : string := "2024-05-01T10:05:00.000Z".

(** The two saves of scenario 6 of the specification. *)
Definition first_save : VideoSession.t :=
  VideoSession.mk "s1" "v1" "Loading..." "v1.jpg" 0 600 T1 "u1".

Definition second_save : VideoSession.t :=
  VideoSession.mk "s1" "v1" "Loading..." "v1.jpg" 120 600 T2 "u1".

(** The same video started again from the dashboard, which makes a new
    session id for every start. *)
Definition started_again : VideoSession.t :=
  VideoSession.mk "s2" "v1" "Loading..." "v1-hq.jpg" 120 600 T2 "u1".

Definition other_video : VideoSession.t :=
  VideoSession.mk "s3" "v2" "Loading..." "v2.jpg" 0 300 T2 "u1".

Definition watched_again : VideoSession.t :=
  VideoSession.mk "s1" "v1" "Loading..." "v1.jpg" 240 600 T3 "u1".

Definition insight_at (n : string) (timestamp : Q) : PauseInsight.t :=
  PauseInsight.mk ("insight_" +:+ n) "sess1" timestamp "summary"
    [Flashcard "Q1?" "A1"] [QuizQuestion "Quiz?" ["A"; "B"; "C"; "D"] 0]
    "u1" T1.

(** A backend that fails its calls before the [n]-th and answers from
    then on, and one that fails the [n]-th call only. *)
Definition up_from (n : nat) : nat -> bool := fun k => Nat.leb n k.
Definition fails_only (n : nat) : nat -> bool := fun k => negb (Nat.eqb k n).

(** A world with a row in each remote table and a list under each local
    key. *)
Definition busy_world : world :=
  World true [wire_of_session other_video] [wire_of_insight (insight_at "1" 30)]
        (<[insights_key "sess1" := Json [obj_of_insight (insight_at "2" 90)]]>
           (<[sessions_key "u1" := Json [obj_of_session first_save]]> ∅)) 0.

(** The fields [saveVideoSession] names in its call of [update]. *)
Definition updated_fields : list string :=
  [ "title"; "progress"; "duration"; "lastWatched" ].

(** No value in local storage is malformed. *)
Definition readable (w : world) : Prop :=
  forall key, localStorage w !! key <> Some Malformed.

(** The saves of a run keep the id and the thumbnail of [s1]. *)
Definition same_record (s1 s : VideoSession.t) : Prop :=
  VideoSession.id s = VideoSession.id s1 /\
  VideoSession.thumbnail s = VideoSession.thumbnail s1.

(** The world after [n] more remote calls that left the flag at [b]. *)
Definition advance (n : nat) (b : bool) (w : world) : world :=
  World b (videoSessions w) (pauseInsights w) (localStorage w) (n + calls w).

(** A browser whose stored values are no JSON. *)
Definition malformed_store : world :=
  World true [] []
        (<[insights_key "sess1" := Malformed]>
           (<[sessions_key "u1" := Malformed]> ∅)) 0.

(** A player that has done nothing yet, and its props and clock. *)
Definition idle_player : player := Player init false false None [] 0.

Definition some_env : player_env :=
  PlayerEnv "v1" "u1" (fun _ => "1700000000000")
            (fun _ => "2023-11-14T22:13:20.000Z").

(** A session of the user [u] and the video [v]. *)
Definition of_pair (u v : string) (s : VideoSession.t) : Prop :=
  VideoSession.user_id s = u /\ VideoSession.video_id s = v.

(** A closed equation between two terms that evaluate to the same value. *)
Ltac by_evaluation :=
  match goal with
  | |- @eq ?T _ ?rhs => vm_cast_no_check (@eq_refl T rhs)
  end.

(** A hypothesis [b = true] whose left side evaluates to [false]. *)
Ltac by_evaluation_of_hypothesis :=
  match goal with
  | |- ?b = true -> _ =>
      let H := fresh in
      intros H;
      assert (b = false) by (vm_cast_no_check (@eq_refl bool false));
      congruence
  end.

(** ** The dashboard *)

(** Strings are the UTF-8 bytes of the JavaScript strings. *)

(** [!s.trim()]: the string has nothing but white space and line
    terminators, which are, in UTF-8: tab, LF, VT, FF, CR and space;
    U+00A0; U+1680; U+2000 to U+200A, U+2028, U+2029 and U+202F; U+205F;
    U+3000; U+FEFF. *)
Definition ascii_space (c : Ascii.ascii) : bool :=
  let n := Ascii.nat_of_ascii c in
  (Nat.leb 9 n && Nat.leb n 13) || Nat.eqb n 32.

Definition space_of_two (c1 c2 : Ascii.ascii) : bool :=
  Nat.eqb (Ascii.nat_of_ascii c1) 194 && Nat.eqb (Ascii.nat_of_ascii c2) 160.

Definition space_of_three (c1 c2 c3 : Ascii.ascii) : bool :=
  let a := Ascii.nat_of_ascii c1 in
  let b := Ascii.nat_of_ascii c2 in
  let c := Ascii.nat_of_ascii c3 in
  (Nat.eqb a 225 && Nat.eqb b 154 && Nat.eqb c 128)
  || (Nat.eqb a 226 && Nat.eqb b 128
      && ((Nat.leb 128 c && Nat.leb c 138) || Nat.eqb c 168 || Nat.eqb c 169
          || Nat.eqb c 175))
  || (Nat.eqb a 226 && Nat.eqb b 129 && Nat.eqb c 159)
  || (Nat.eqb a 227 && Nat.eqb b 128 && Nat.eqb c 128)
  || (Nat.eqb a 239 && Nat.eqb b 187 && Nat.eqb c 191).

Fixpoint blank (s : string) : bool :=
  match s with
  | EmptyString => true
  | String c1 s1 =>
      if ascii_space c1 then blank s1
      else
        match s1 with
        | EmptyString => false
        | String c2 s2 =>
            if space_of_two c1 c2 then blank s2
            else
              match s2 with
              | EmptyString => false
              | String c3 s3 =>
                  if space_of_three c1 c2 c3 then blank s3 else false
              end
        end
  end.

(** The class [[^&\n?#]] of the pattern of [extractVideoId], negated. *)
Definition stop_char (c : Ascii.ascii) : bool :=
  Ascii.eqb c "&"%char || Ascii.eqb c "010"%char || Ascii.eqb c "?"%char
  || Ascii.eqb c "#"%char.

(** The longest run of characters of the class at the front of [s]. *)
Fixpoint id_run (s : string) : string :=
  match s with
  | EmptyString => EmptyString
  | String c s' => if stop_char c then EmptyString else String c (id_run s')
  end.

Fixpoint strip_prefix (prefix s : string) : option string :=
  match prefix with
  | EmptyString => Some s
  | String a prefix' =>
      match s with
      | String b s' => if Ascii.eqb a b then strip_prefix prefix' s' else None
      | EmptyString => None
      end
  end.

(** The alternatives of the pattern, in its order. *)
Definition markers : list string :=
  [ "youtube.com/watch?v="; "youtu.be/"; "youtube.com/embed/" ].

(** One alternative at the front of [s], followed by the group
    [([^&\n?#]+)]. *)
Definition capture_after (marker s : string) : option string :=
  match strip_prefix marker s with
  | Some rest =>
      match id_run rest with
      | EmptyString => None
      | captured => Some captured
      end
  | None => None
  end.

Fixpoint first_capture (ms : list string) (s : string) : option string :=
  match ms with
  | [] => None
  | m :: ms' =>
      match capture_after m s with
      | Some captured => Some captured
      | None => first_capture ms' s
      end
  end.

(** [url.match(regex)], then the group of the match: the leftmost place
    where the pattern matches. *)
Fixpoint extractVideoId (url : string) : option string :=
  match first_capture markers url with
  | Some captured => Some captured
  | None =>
      match url with
      | EmptyString => None
      | String _ rest => extractVideoId rest
      end
  end.

(** No character of [s] is one of the four the group stops at. *)
Fixpoint no_stop_char (s : string) : bool :=
  match s with
  | EmptyString => true
  | String c s' => negb (stop_char c) && no_stop_char s'
  end.

(** The string is empty or starts with a character the group stops at. *)
Definition stops (s : string) : bool :=
  match s with
  | EmptyString => true
  | String c _ => stop_char c
  end.

(** No character of [s] is the letter y, with which every alternative of
    the pattern starts. *)
Fixpoint no_y (s : string) : bool :=
  match s with
  | EmptyString => true
  | String c s' => negb (Ascii.eqb c "y"%char) && no_y s'
  end.

Inductive db_status := Checking | Available | Unavailable.

(** The props of the dashboard, the clock and [Math.random]: the n-th
    reading of [Date.now()] as it prints, of
    [Math.random().toString(36).substr(2, 9)] and of
    [new Date().toISOString()]. *)
Record dashboard_env := DashboardEnv {
  user : string;
  now_printed : nat -> string;
  random_suffix : nat -> string;
  now_iso : nat -> string
}.

Record dashboard := Dashboard {
  videoUrl : string;
  recentSessions : list obj;
  loading : bool;
  dbStatus : db_status;
  alerts : nat;                 (* calls of [alert] *)
  selected : list string;       (* calls of [onVideoSelect] *)
  db : world;                   (* the stores behind [storage] *)
  readings : nat                (* readings of the clock taken so far *)
}.

Definition setRecentSessions (l : list obj) (d : dashboard) : dashboard :=
  Dashboard (videoUrl d) l (loading d) (dbStatus d) (alerts d) (selected d)
            (db d) (readings d).

Definition setLoading (b : bool) (d : dashboard) : dashboard :=
  Dashboard (videoUrl d) (recentSessions d) b (dbStatus d) (alerts d)
            (selected d) (db d) (readings d).

Definition setDbStatus (st : db_status) (d : dashboard) : dashboard :=
  Dashboard (videoUrl d) (recentSessions d) (loading d) st (alerts d)
            (selected d) (db d) (readings d).

Definition alert (d : dashboard) : dashboard :=
  Dashboard (videoUrl d) (recentSessions d) (loading d) (dbStatus d)
            (S (alerts d)) (selected d) (db d) (readings d).

Definition onVideoSelect (videoId : string) (d : dashboard) : dashboard :=
  Dashboard (videoUrl d) (recentSessions d) (loading d) (dbStatus d)
            (alerts d) (selected d ++ [videoId]) (db d) (readings d).

Definition set_db (w : world) (d : dashboard) : dashboard :=
  Dashboard (videoUrl d) (recentSessions d) (loading d) (dbStatus d)
            (alerts d) (selected d) w (readings d).

Definition take_reading (d : dashboard) : nat * dashboard :=
  (readings d,
   Dashboard (videoUrl d) (recentSessions d) (loading d) (dbStatus d)
             (alerts d) (selected d) (db d) (S (readings d))).

Definition loadRecentSessions (up : nat -> bool) (env : dashboard_env)
    (d : dashboard) : dashboard :=
  let '(isDbAvailable, w) := checkDatabaseAvailability up (db d) in
  let d := set_db w d in
  let d := setDbStatus (if isDbAvailable then Available else Unavailable) d in
  match getVideoSessions up (user env) (db d) with
  | Ok sessions w => setRecentSessions (take 6 sessions) (set_db w d)
  | Throw w => setRecentSessions [] (setDbStatus Unavailable (set_db w d))
  end.

(** The session [handleStartLearning] makes for a video. *)
Definition start_session (env : dashboard_env) (video : string)
    (d : dashboard) : VideoSession.t * dashboard :=
  let '(n, d) := take_reading d in
  let '(m, d) := take_reading d in
  (VideoSession.mk
     ("session_" +:+ now_printed env n +:+ "_" +:+ random_suffix env n)
     video "Loading..."
     ("https://img.youtube.com/vi/" +:+ video +:+ "/maxresdefault.jpg")
     0 0 (now_iso env m) (user env), d).

Definition handleStartLearning (up : nat -> bool) (env : dashboard_env)
    (d : dashboard) : dashboard :=
  if blank (videoUrl d) then d
  else
    match extractVideoId (videoUrl d) with
    | None => alert d
    | Some video =>
        let d := setLoading true d in
        let d :=
          match List.find (same_video video) (recentSessions d) with
          | Some existingSession => onVideoSelect video d
          | None =>
              let '(newSession, d) := start_session env video d in
              match saveVideoSession up newSession (db d) with
              | Ok _ w =>
                  onVideoSelect video
                    (setRecentSessions
                       (obj_of_session newSession :: take 5 (recentSessions d))
                       (set_db w d))
              | Throw w => set_db w d
              end
          end in
        setLoading false d
    end.

(** A dashboard just mounted, and its props and clock. *)
Definition fresh_dashboard (url : string) (w : world) : dashboard :=
  Dashboard url [] false Checking 0 [] w 0.

Definition some_dashboard_env : dashboard_env :=
  DashboardEnv "u1" (fun _ => "1700000000000") (fun _ => "k3j9x0q2a")
               (fun _ => T3).

(** ** The chat and the flashcards of the video player *)

Inductive chat_role := RoleUser | RoleAssistant.

Record ChatMessage := MkChatMessage {
  message_id : string;
  role : chat_role;
  content : string;
  sent_at : Z
}.

(** One answer of [blink.ai.generateText] to a question of the chat. *)
Inductive chat_reply :=
| ChatFails
| ChatText (text : string).

(** The state of the chat, with the requests made to the text service
    (video, floor of the current time, question) and the number of
    readings of [Date.now()] taken so far. *)
Record chat := Chat {
  chatInput : string;
  chatMessages : list ChatMessage;
  sendingMessage : bool;
  currentTime : Q;
  chat_requests : list (string * Z * string);
  chat_readings : nat
}.

Definition setChatInput (s : string) (c : chat) : chat :=
  Chat s (chatMessages c) (sendingMessage c) (currentTime c)
       (chat_requests c) (chat_readings c).

Definition setSendingMessage (b : bool) (c : chat) : chat :=
  Chat (chatInput c) (chatMessages c) b (currentTime c)
       (chat_requests c) (chat_readings c).

(** [setChatMessages(prev => [...prev, message])] *)
Definition add_message (m : ChatMessage) (c : chat) : chat :=
  Chat (chatInput c) (chatMessages c ++ [m]) (sendingMessage c)
       (currentTime c) (chat_requests c) (chat_readings c).

Definition ask_text_service (request : string * Z * string) (c : chat)
  : chat :=
  Chat (chatInput c) (chatMessages c) (sendingMessage c) (currentTime c)
       (chat_requests c ++ [request]) (chat_readings c).

Definition date_now_of (c : chat) : nat * chat :=
  (chat_readings c,
   Chat (chatInput c) (chatMessages c) (sendingMessage c) (currentTime c)
        (chat_requests c) (S (chat_readings c))).

(** A message made now: [{ id: `msg_${Date.now()}`, role, content,
    timestamp: Date.now() }], with [now n] the n-th reading of the
    clock. *)
Definition new_message (now : nat -> Z) (r : chat_role) (text : string)
    (c : chat) : ChatMessage * chat :=
  let '(n, c) := date_now_of c in
  let '(m, c) := date_now_of c in
  (MkChatMessage ("msg_" +:+ pretty (now n)) r text (now m), c).

Definition handleSendMessage (video : string) (now : nat -> Z)
    (reply : chat_reply) (c : chat) : chat :=
  if blank (chatInput c) then c
  else
    let '(userMessage, c) := new_message now RoleUser (chatInput c) c in
    let question := content userMessage in
    let asked_at := Qfloor (currentTime c) in
    let c := add_message userMessage c in
    let c := setChatInput "" c in
    let c := setSendingMessage true c in
    let c := ask_text_service (video, asked_at, question) c in
    let c :=
      match reply with
      | ChatText text =>
          let '(aiMessage, c) := new_message now RoleAssistant text c in
          add_message aiMessage c
      | ChatFails => c
      end in
    setSendingMessage false c.

(** The user types [text] and sends it. *)
Definition type_and_send (video : string) (now : nat -> Z)
    (turn : string * chat_reply) (c : chat) : chat :=
  handleSendMessage video now turn.2 (setChatInput turn.1 c).

(** A conversation made of questions of the user, each followed by the
    answer of the assistant or by nothing. *)
Inductive exchanges : list ChatMessage -> Prop :=
| exchanges_nil : exchanges []
| exchanges_unanswered l m :
    exchanges l -> role m = RoleUser -> exchanges (l ++ [m])
| exchanges_answered l m a :
    exchanges l -> role m = RoleUser -> role a = RoleAssistant ->
    exchanges (l ++ [m; a]).

Definition empty_chat : chat := Chat "" [] false 0 [] 0.

(** The two buttons under a flashcard, for a deck of [cards] cards:
    [setCurrentFlashcard(Math.max(0, currentFlashcard - 1))] and
    [setCurrentFlashcard(Math.min(cards - 1, currentFlashcard + 1))], each
    followed by [setShowFlashcardAnswer(false)]. *)
Record card_view := CardView {
  currentFlashcard : Z;
  showFlashcardAnswer : bool
}.

Inductive card_click := Previous | Next | Flip.

Definition click (cards : Z) (b : card_click) (v : card_view) : card_view :=
  match b with
  | Previous => CardView (Z.max 0 (currentFlashcard v - 1)) false
  | Next => CardView (Z.min (cards - 1) (currentFlashcard v + 1)) false
  | Flip => CardView (currentFlashcard v) (negb (showFlashcardAnswer v))
  end.

(** ** The clock of the player and the durations of the dashboard *)

(** [Math.trunc], and the remainder [x % y] of JavaScript, which has the
    sign of [x]. *)
Definition Qtrunc (q : Q) : Z :=
  if Qle_bool 0 q then Qfloor q else Qceiling q.

Definition js_rem (x y : Q) : Q := x - y * inject_Z (Qtrunc (x / y)).

(** [s.padStart(2, '0')] *)
Fixpoint zeros (k : nat) (s : string) : string :=
  match k with
  | O => s
  | S k' => String "0" (zeros k' s)
  end.

Definition padStart2 (s : string) : string := zeros (2 - String.length s) s.

(** The three numbers [formatTime] computes: hours, minutes, seconds.
    The times of the player are doubles that are not negative and far
    below 2^52, for which the floors of these quotients and the remainders
    are those of the rationals. *)
Definition time_fields (seconds : Q) : Z * Z * Z :=
  (Qfloor (seconds / 3600),
   Qfloor (js_rem seconds 3600 / 60),
   Qfloor (js_rem seconds 60)).

Definition formatTime (seconds : Q) : string :=
  let '(hours, minutes, secs) := time_fields seconds in
  if (0 <? hours)%Z
  then pretty hours +:+ ":" +:+ padStart2 (pretty minutes) +:+ ":"
       +:+ padStart2 (pretty secs)
  else pretty minutes +:+ ":" +:+ padStart2 (pretty secs).

Definition formatDuration (seconds : Q) : string :=
  let hours := Qfloor (seconds / 3600) in
  let minutes := Qfloor (js_rem seconds 3600 / 60) in
  if (0 <? hours)%Z
  then pretty hours +:+ "h " +:+ pretty minutes +:+ "m"
  else pretty minutes +:+ "m".

(** ** Vocabulary of the further properties *)

(** What a call left of the three stores. *)
Definition wrote_nothing (w w' : world) : Prop :=
  videoSessions w' = videoSessions w /\
  pauseInsights w' = pauseInsights w /\
  localStorage w' = localStorage w.

(** The call wrote one list under [key]: [merged old], where [old] is the
    list it had loaded, which is the list stored under [key] or the rows
    the backend listed. *)
Definition wrote_locally (key : string) (merged : list obj -> list obj)
    (listed : list obj) (w w' : world) : Prop :=
  videoSessions w' = videoSessions w /\
  pauseInsights w' = pauseInsights w /\
  exists old,
    (stored_list key w = Some old \/ old = listed) /\
    localStorage w' = <[key := Json (merged old)]> (localStorage w).

(** The three ways a save can end in a browser with room for every
    write: its remote branch wrote, its local branch wrote, or it raised
    on a malformed stored value. *)
Definition save_outcome (key : string) (merged : list obj -> list obj)
    (listed : list obj) (w : world) (r : result unit)
    (wrote_remotely : world -> Prop) : Prop :=
  match r with
  | Ok _ w' => wrote_remotely w' \/ wrote_locally key merged listed w w'
  | Throw w' => wrote_nothing w w' /\ localStorage w !! key = Some Malformed
  end.

(** The outcomes of the two saves. *)
Definition session_save_outcome (s : VideoSession.t) (w : world)
    (r : result unit) (wrote_remotely : world -> Prop) : Prop :=
  save_outcome (sessions_key (VideoSession.user_id s)) (merge_session s)
    (Remote.list_ (videoSessions w) (sessions_query (VideoSession.user_id s)))
    w r wrote_remotely.

(** What the local branch of [savePauseInsight] makes of the list. *)
Definition push_insight (i : PauseInsight.t) (insights : list obj)
  : list obj :=
  insights ++ [obj_of_insight i].

Definition insight_save_outcome (i : PauseInsight.t) (w : world)
    (r : result unit) (wrote_remotely : world -> Prop) : Prop :=
  save_outcome (insights_key (PauseInsight.session_id i)) (push_insight i)
    (Remote.list_ (pauseInsights w)
                  (insights_query (PauseInsight.session_id i)))
    w r wrote_remotely.

(** Every row of [t] is still in its place in [t'], with every field the
    update of a save does not name as it was. *)
Definition keeps_rows (t t' : list obj) : Prop :=
  forall n row,
    t !! n = Some row ->
    exists row',
      t' !! n = Some row' /\
      forall field, field ∉ updated_fields -> row' !! field = row !! field.

(** What the remote branch of [saveVideoSession] leaves. *)
Definition session_written_remotely (s : VideoSession.t) (w w' : world)
  : Prop :=
  let rows :=
    List.filter (pair_row (VideoSession.user_id s) (VideoSession.video_id s))
                (videoSessions w) in
  pauseInsights w' = pauseInsights w /\
  localStorage w' = localStorage w /\
  match rows with
  | [] =>
      videoSessions w' = Remote.create (videoSessions w) (wire_of_session s)
  | found :: _ =>
      videoSessions w'
      = Remote.update (videoSessions w) (found !! "id") (update_of_session s)
  end.

(** What the remote branch of [savePauseInsight] leaves. *)
Definition insight_written_remotely (i : PauseInsight.t) (w w' : world)
  : Prop :=
  videoSessions w' = videoSessions w /\
  localStorage w' = localStorage w /\
  pauseInsights w' = Remote.create (pauseInsights w) (wire_of_insight i).

(** No list of sessions in local storage is longer than twenty. *)
Definition capped (w : world) : Prop :=
  forall u l,
    localStorage w !! sessions_key u = Some (Json l) -> length l <= 20.

(** Both remote tables of [w'] still hold what they held in [w]. *)
Definition keeps_backend (w w' : world) : Prop :=
  keeps_rows (videoSessions w) (videoSessions w') /\
  pauseInsights w `prefix_of` pauseInsights w'.

(** At most one row of the table for a user and a video. *)
Definition one_row_per_pair (t : list obj) : Prop :=
  forall u v, length (List.filter (pair_row u v) t) <= 1.

(** At most one entry of the list reads as a given [video_id]. *)
Definition one_entry_per_video (l : list obj) : Prop :=
  forall v, length (List.filter (same_video v) l) <= 1.

(** No list of sessions in local storage has two entries of one video,
    and neither would a list loaded from the backend. *)
Definition locally_duplicate_free (w : world) : Prop :=
  one_entry_per_video (videoSessions w) /\
  forall u l,
    localStorage w !! sessions_key u = Some (Json l) ->
    one_entry_per_video l.

(** ** The listings of the two paths, side by side *)

(** The value of a field of a record, read under its name in the
    interface or, when the record has no field of that name, under the
    name the save methods put on the wire. *)
Definition field_of (record : obj) (field : string) : option value :=
  match record !! field with
  | Some v => Some v
  | None => record !! wire_name field
  end.

(** Two records with the same value in every field of [fields], and two
    listings with such records in the same order. *)
Definition same_values (fields : list string) (a b : obj) : Prop :=
  Forall (fun field => field_of a field = field_of b field) fields.

Definition same_listing (fields : list string) (l l' : list obj) : Prop :=
  Forall2 (same_values fields) l l'.

(** [s] was watched after [x]: the order the backend sorts by. *)
Definition later_than (s x : VideoSession.t) : bool :=
  negb (String.leb (VideoSession.last_watched s) (VideoSession.last_watched x)).

(** [s] goes on with the session [f]: the same video under the same id
    and thumbnail. *)
Definition resumes (s f : VideoSession.t) : bool :=
  bool_decide (VideoSession.video_id s = VideoSession.video_id f)
  && bool_decide (VideoSession.id s = VideoSession.id f)
  && bool_decide (VideoSession.thumbnail s = VideoSession.thumbnail f).

(** [s] has neither the video nor the id of [x]. *)
Definition unseen (s x : VideoSession.t) : bool :=
  negb (bool_decide (VideoSession.video_id s = VideoSession.video_id x))
  && negb (bool_decide (VideoSession.id s = VideoSession.id x)).

(** The sessions a user has after one more save, the newest first: the
    save takes the place of the newest session when it is of the same
    video, and goes in front otherwise. *)
Definition keep (kept : list VideoSession.t) (s : VideoSession.t)
  : list VideoSession.t :=
  match kept with
  | f :: older =>
      if bool_decide (VideoSession.video_id s = VideoSession.video_id f)
      then s :: older else s :: kept
  | [] => [s]
  end.

(** A save of the user [u] made after every session kept so far, which
    goes on with the newest of them or starts a video not seen before
    under an id not seen before. *)
Definition in_step (u : string) (kept : list VideoSession.t)
    (s : VideoSession.t) : bool :=
  bool_decide (VideoSession.user_id s = u)
  && forallb (later_than s) kept
  && (forallb (unseen s) kept
      || match kept with f :: _ => resumes s f | [] => false end).

(** What saves in step keep of the sessions kept: they are of the user
    [u], of different videos under different ids, the latest first. *)
Fixpoint tidy (u : string) (kept : list VideoSession.t) : Prop :=
  match kept with
  | [] => True
  | f :: older =>
      VideoSession.user_id f = u /\
      forallb (unseen f) older = true /\
      forallb (later_than f) older = true /\
      tidy u older
  end.

Definition in_session (sid : string) (i : PauseInsight.t) : bool :=
  bool_decide (PauseInsight.session_id i = sid).

(** Insights whose timestamps never go down from one to the next. *)
Fixpoint timestamps_ascend (ins : list PauseInsight.t) : bool :=
  match ins with
  | [] => true
  | a :: rest =>
      match rest with
      | [] => true
      | b :: _ =>
          Qle_bool (PauseInsight.timestamp a) (PauseInsight.timestamp b)
          && timestamps_ascend rest
      end
  end.

Definition of_user (u : string) (s : VideoSession.t) : bool :=
  bool_decide (VideoSession.user_id s = u).

(** The sessions the user [u] has after the saves [seen], the newest
    first. *)
Definition kept_of (u : string) (seen : list VideoSession.t)
  : list VideoSession.t :=
  fold_left keep (List.filter (of_user u) seen) [].

(** No session that another user saved so far has the id of [s]. *)
Definition own_id (seen : list VideoSession.t) (s : VideoSession.t) : bool :=
  forallb (fun x => of_user (VideoSession.user_id s) x
                    || negb (bool_decide (VideoSession.id x = VideoSession.id s)))
          seen.

(** No insight of the session of [i] saved so far has a later
    timestamp. *)
Definition after_noted (noted : list PauseInsight.t) (i : PauseInsight.t)
  : bool :=
  forallb (fun j => negb (in_session (PauseInsight.session_id i) j)
                    || Qle_bool (PauseInsight.timestamp j)
                                (PauseInsight.timestamp i))
          noted.

(** A run of calls made after the session saves [seen] and the insight
    saves [noted], in which every save of a session is in step with the
    sessions of its user and under an id of its own, and every save of an
    insight comes in the order of the timestamps of its session.  The list
    calls are free. *)
Fixpoint orderly (seen : list VideoSession.t) (noted : list PauseInsight.t)
    (os : list op) : bool :=
  match os with
  | [] => true
  | SaveSession s :: os' =>
      in_step (VideoSession.user_id s) (kept_of (VideoSession.user_id s) seen) s
      && own_id seen s
      && orderly (seen ++ [s]) noted os'
  | SaveInsight i :: os' =>
      after_noted noted i && orderly seen (noted ++ [i]) os'
  | ListSessions _ :: os' => orderly seen noted os'
  | ListInsights _ :: os' => orderly seen noted os'
  end.

(** Every field of the two interfaces. *)
Definition persisted_fields : list string := session_fields ++ insight_fields.

(** An earlier save had the user and the id of [x]. *)
Definition known (seen : list VideoSession.t) (x : VideoSession.t) : Prop :=
  Exists (fun y => VideoSession.user_id y = VideoSession.user_id x /\
                   VideoSession.id y = VideoSession.id x) seen.

(** The stores of the two paths after the same saves: local storage of
    the one holds, for every user and every session, what the tables of
    the other hold. *)
Definition paired (seen : list VideoSession.t) (noted : list PauseInsight.t)
    (wl wr : world) : Prop :=
  (forall u, stored_list (sessions_key u) wl
             = Some (obj_of_session <$> take 20 (kept_of u seen))) /\
  (forall sid, stored_list (insights_key sid) wl
               = Some (obj_of_insight <$> List.filter (in_session sid) noted)) /\
  (exists rows,
     videoSessions wr = wire_of_session <$> rows /\
     (forall u, List.filter (of_user u) rows = rev (kept_of u seen)) /\
     Forall (known seen) rows) /\
  pauseInsights wr = wire_of_insight <$> noted /\
  (forall u, tidy u (kept_of u seen)) /\
  (forall sid, timestamps_ascend (List.filter (in_session sid) noted) = true).

(** The update of a save, on a row read as a session. *)
Definition rewrite_by (s : VideoSession.t) (i : string) (x : VideoSession.t)
  : VideoSession.t :=
  if bool_decide (VideoSession.id x = i) then updated_by s x else x.

(** What a call answered, when it returned. *)
Definition answers {A} (r : result A) : option A :=
  match r with Ok a _ => Some a | Throw _ => None end.

(** Every content fits in the quota. *)
Definition has_room (room : Quota.t) : Prop := forall m, room m = true.

(** A third save of the scenarios: another video, started at T3. *)
Definition later_video : VideoSession.t :=
  VideoSession.mk "s3" "v2" "Loading..." "v2.jpg" 0 300 T3 "u1".

(** The same video started by another user. *)
Definition other_user_save : VideoSession.t :=
  VideoSession.mk "s4" "v1" "Loading..." "v1.jpg" 0 600 T2 "u2".

(** Two users watching: scenario 6, a second video, the insights of
    scenario 8, and the listings in between and at the end. *)
Definition watching_run : list op :=
  [ SaveSession first_save; ListSessions "u1"; SaveSession second_save;
    SaveInsight (insight_at "1" 30); SaveSession other_user_save;
    SaveInsight (insight_at "2" 90); SaveSession later_video;
    SaveInsight (insight_at "3" 150);
    ListSessions "u1"; ListSessions "u2"; ListInsights "sess1" ].

(** A quota that nothing fits in. *)
Definition full : Quota.t := fun _ => false.

(** The three ways a save can end in a browser with a quota: its remote
    branch wrote, its local branch wrote a list that fits, or it raised:
    the value stored under its key is malformed, or the list it would
    write does not fit. *)
Definition save_outcome_within (room : Quota.t) (key : string)
    (merged : list obj -> list obj) (listed : list obj) (w : world)
    (r : result unit) (wrote_remotely : world -> Prop) : Prop :=
  match r with
  | Ok _ w' =>
      wrote_remotely w' \/
      (wrote_locally key merged listed w w' /\ room (localStorage w') = true)
  | Throw w' =>
      wrote_nothing w w' /\
      (localStorage w !! key = Some Malformed \/
       exists old,
         (stored_list key w = Some old \/ old = listed) /\
         room (<[key := Json (merged old)]> (localStorage w)) = false)
  end.

(** A number of the clock in two digits. *)
Definition two_digits (n : Z) : string :=
  if (n <? 10)%Z then "0" +:+ pretty n else pretty n.

(** * Properties *)




(** ** How the list methods go, by the answers of the backend *)

Section ListSteps.
Variable up : nat -> bool.
Variable w : world.

Lemma getVideoSessions_probe_fails (u : string) :
  up (calls w) = false ->
  getVideoSessions up u w = read_local (sessions_key u) (advance 1 false w).
Proof.
  intros H. unfold getVideoSessions, checkDatabaseAvailability, remote_call.
  rewrite H. reflexivity.
Qed.

Lemma getVideoSessions_query_fails (u : string) :
  up (calls w) = true -> up (S (calls w)) = false ->
  getVideoSessions up u w = read_local (sessions_key u) (advance 2 false w).
Proof.
  intros H1 H2.
  unfold getVideoSessions, checkDatabaseAvailability, remote_call.
  rewrite H1. cbn. rewrite H2. reflexivity.
Qed.

Lemma getVideoSessions_remote (u : string) :
  up (calls w) = true -> up (S (calls w)) = true ->
  getVideoSessions up u w =
  Ok (Remote.list_ (videoSessions w) (sessions_query u)) (advance 2 true w).
Proof.
  intros H1 H2.
  unfold getVideoSessions, checkDatabaseAvailability, remote_call.
  rewrite H1. cbn. rewrite H2. reflexivity.
Qed.

Lemma getPauseInsights_probe_fails (sid : string) :
  up (calls w) = false ->
  getPauseInsights up sid w = read_local (insights_key sid) (advance 1 false w).
Proof.
  intros H. unfold getPauseInsights, checkDatabaseAvailability, remote_call.
  rewrite H. reflexivity.
Qed.

Lemma getPauseInsights_query_fails (sid : string) :
  up (calls w) = true -> up (S (calls w)) = false ->
  getPauseInsights up sid w = read_local (insights_key sid) (advance 2 false w).
Proof.
  intros H1 H2.
  unfold getPauseInsights, checkDatabaseAvailability, remote_call.
  rewrite H1. cbn. rewrite H2. reflexivity.
Qed.

Lemma getPauseInsights_remote (sid : string) :
  up (calls w) = true -> up (S (calls w)) = true ->
  getPauseInsights up sid w =
  Ok (Remote.list_ (pauseInsights w) (insights_query sid)) (advance 2 true w).
Proof.
  intros H1 H2.
  unfold getPauseInsights, checkDatabaseAvailability, remote_call.
  rewrite H1. cbn. rewrite H2. reflexivity.
Qed.

End ListSteps.

(** [read_local] raises on a malformed value and on nothing else. *)
Lemma read_local_raises (key : string) (w : world) :
  (exists w', read_local key w = Throw w') <->
  localStorage w !! key = Some Malformed.
Proof.
  unfold read_local.
  destruct (localStorage w !! key) as [[v | | ] | ]; split;
    try (intros [w' H]; discriminate); try discriminate; eauto.
Qed.

Lemma read_local_nothing (key : string) (w : world) :
  localStorage w !! key = None \/ localStorage w !! key = Some EmptyText ->
  read_local key w = Ok [] w.
Proof. unfold read_local. intros [-> | ->]; reflexivity. Qed.

(** ** Reading a malformed stored value *)


(** C4, as stated, fails: with the backend down and a stored value that
    is no JSON, both list methods raise where the claim has them return
    the empty list: [JSON.parse] is called outside every [try]. *)
Lemma list_of_malformed_store_raises :
  getVideoSessions always_down "u1" malformed_store
    = Throw (advance 1 false malformed_store) /\
  getPauseInsights always_down "sess1" malformed_store
    = Throw (advance 1 false malformed_store) /\
  ~ (exists w', getVideoSessions always_down "u1" malformed_store = Ok [] w') /\
  ~ (exists w', getPauseInsights always_down "sess1" malformed_store = Ok [] w').
Proof.
  assert (H1 : getVideoSessions always_down "u1" malformed_store
               = Throw (advance 1 false malformed_store)) by by_evaluation.
  assert (H2 : getPauseInsights always_down "sess1" malformed_store
               = Throw (advance 1 false malformed_store)) by by_evaluation.
  rewrite H1, H2. repeat split; try (intros [w' H]; discriminate).
Qed.

(** C4, amended: a list method raises exactly when it reaches the local
    branch (the probe or the remote query failed) and the value stored
    under its key is malformed; on the local branch an absent or empty
    stored value gives the empty list. *)
Theorem list_raises_exactly_on_malformed
    (up : nat -> bool) (u sid : string) (w : world) :
  ((exists w', getVideoSessions up u w = Throw w') <->
   (up (calls w) && up (S (calls w)) = false /\
    localStorage w !! sessions_key u = Some Malformed)) /\
  ((exists w', getPauseInsights up sid w = Throw w') <->
   (up (calls w) && up (S (calls w)) = false /\
    localStorage w !! insights_key sid = Some Malformed)) /\
  (up (calls w) && up (S (calls w)) = false ->
   localStorage w !! sessions_key u = None \/
   localStorage w !! sessions_key u = Some EmptyText ->
   exists w', getVideoSessions up u w = Ok [] w') /\
  (up (calls w) && up (S (calls w)) = false ->
   localStorage w !! insights_key sid = None \/
   localStorage w !! insights_key sid = Some EmptyText ->
   exists w', getPauseInsights up sid w = Ok [] w').
Proof.
  destruct (up (calls w)) eqn:H1; [destruct (up (S (calls w))) eqn:H2 | ];
    cbn [andb].
  - rewrite getVideoSessions_remote, getPauseInsights_remote by assumption.
    split; [ | split; [ | split]]; try discriminate;
      (split; [intros [w' Hw] | intros [Hf _]]; discriminate).
  - rewrite getVideoSessions_query_fails, getPauseInsights_query_fails
      by assumption.
    rewrite !read_local_raises. split; [ | split; [ | split]]; try tauto;
      intros _ Hv; rewrite read_local_nothing by exact Hv; eauto.
  - rewrite getVideoSessions_probe_fails, getPauseInsights_probe_fails
      by assumption.
    rewrite !read_local_raises. split; [ | split; [ | split]]; try tauto;
      intros _ Hv; rewrite read_local_nothing by exact Hv; eauto.
Qed.

(** C4, amended, at two stores: nothing stored gives the empty list from
    both list methods, and the malformed store makes both raise. *)
Lemma list_raises_exactly_on_malformed_witness :
  (exists w', getVideoSessions always_down "u1" init = Ok [] w') /\
  (exists w', getPauseInsights always_down "sess1" init = Ok [] w') /\
  (exists w', getVideoSessions always_down "u1" malformed_store = Throw w') /\
  (exists w', getPauseInsights always_down "sess1" malformed_store = Throw w').
Proof.
  destruct (list_raises_exactly_on_malformed always_down "u1" "sess1" init)
    as (_ & _ & Hs & Hi).
  destruct (list_raises_exactly_on_malformed always_down "u1" "sess1"
              malformed_store) as (Hs' & Hi' & _).
  repeat apply conj.
  - apply Hs; [reflexivity | left; reflexivity].
  - apply Hi; [reflexivity | left; reflexivity].
  - apply Hs'. split; reflexivity.
  - apply Hi'. split; reflexivity.
Defined.

(** ** The pause handler *)

Lemma Qltb_lt (x y : Q) : Qltb x y = true <-> (x < y)%Q.
Proof.
  unfold Qltb. rewrite negb_true_iff. split.
  - intros H. apply Qnot_le_lt. intros Hle.
    apply Qle_bool_iff in Hle. congruence.
  - intros H. destruct (Qle_bool y x) eqn:E; [ | reflexivity].
    apply Qle_bool_iff in E. exfalso. exact (Qlt_not_le _ _ H E).
Qed.

Lemma Qltb_ge (x y : Q) : Qltb x y = false <-> (y <= x)%Q.
Proof.
  unfold Qltb. rewrite negb_false_iff. apply Qle_bool_iff.
Qed.

(** C9: a pause before second 30 leaves everything as it was: no request
    to the text service, nothing saved, no state set; a pause at second 30
    or later makes one request to the text service. *)
Theorem handlePause_threshold
    (up : nat -> bool) (env : player_env) (reply : ai_reply)
    (timestamp : Q) (p : player) :
  ((timestamp < 30)%Q -> handlePause up env reply timestamp p = p) /\
  ((30 <= timestamp)%Q ->
   generateText_requests (handlePause up env reply timestamp p)
   = generateText_requests p ++ [(videoId env, Qfloor timestamp)]).
Proof.
  unfold handlePause. split; intros H.
  - apply Qltb_lt in H. rewrite H. reflexivity.
  - apply Qltb_ge in H. rewrite H.
    destruct reply as [ | [parsed | ]]; try reflexivity.
    cbn -[savePauseInsight].
    match goal with
    | |- context [savePauseInsight ?a ?b ?c] =>
        destruct (savePauseInsight a b c); reflexivity
    end.
Qed.



(** C9 at second 29.5 and at second 30. *)
Lemma handlePause_threshold_witness :
  handlePause always_up some_env (AiText None) (59 # 2) idle_player
    = idle_player /\
  generateText_requests
    (handlePause always_up some_env (AiText None) 30 idle_player)
    = [("v1", 30%Z)].
Proof.
  split.
  - apply (handlePause_threshold always_up some_env (AiText None) (59 # 2)).
    reflexivity.
  - apply (handlePause_threshold always_up some_env (AiText None) 30 idle_player).
    discriminate.
Defined.

(** ** How the save methods go, by the answers of the backend *)

Section QuotaSteps.
Variable room : Quota.t.
Variable up : nat -> bool.
Variable w : world.

Lemma saveVideoSession_probe_fails_within (s : VideoSession.t) :
  up (calls w) = false ->
  Quota.saveVideoSession room up s w
  = Quota.save_session_locally room up s (advance 1 false w).
Proof.
  intros H.
  unfold Quota.saveVideoSession, checkDatabaseAvailability, remote_call.
  rewrite H. reflexivity.
Qed.

Lemma saveVideoSession_lookup_fails_within (s : VideoSession.t) :
  up (calls w) = true -> up (S (calls w)) = false ->
  Quota.saveVideoSession room up s w
  = Quota.save_session_locally room up s (advance 2 false w).
Proof.
  intros H1 H2.
  unfold Quota.saveVideoSession, checkDatabaseAvailability, remote_call.
  rewrite H1. cbn -[Quota.save_session_locally]. rewrite H2. reflexivity.
Qed.

Lemma saveVideoSession_write_fails_within (s : VideoSession.t) :
  up (calls w) = true -> up (S (calls w)) = true ->
  up (S (S (calls w))) = false ->
  Quota.saveVideoSession room up s w
  = Quota.save_session_locally room up s (advance 3 false w).
Proof.
  intros H1 H2 H3.
  unfold Quota.saveVideoSession, checkDatabaseAvailability, remote_call.
  rewrite H1. cbn -[Quota.save_session_locally Remote.list_]. rewrite H2.
  cbn -[Quota.save_session_locally Remote.list_]. rewrite H3. reflexivity.
Qed.

Lemma saveVideoSession_remote_within (s : VideoSession.t) :
  up (calls w) = true -> up (S (calls w)) = true ->
  up (S (S (calls w))) = true ->
  Quota.saveVideoSession room up s w =
  Ok tt (set_videoSessions
           match Remote.list_ (videoSessions w) (existing_query s) with
           | found :: _ =>
               Remote.update (videoSessions w) (found !! "id")
                             (update_of_session s)
           | [] => Remote.create (videoSessions w) (wire_of_session s)
           end (advance 3 true w)).
Proof.
  intros H1 H2 H3.
  unfold Quota.saveVideoSession, checkDatabaseAvailability, remote_call.
  rewrite H1. cbn -[Remote.list_ Remote.update Remote.create].
  rewrite H2. cbn -[Remote.list_ Remote.update Remote.create]. rewrite H3.
  destruct (Remote.list_ (videoSessions w) (existing_query s)); reflexivity.
Qed.

Lemma save_session_locally_probe_fails_within (s : VideoSession.t) :
  up (calls w) = false ->
  Quota.save_session_locally room up s w =
  bind (read_local (sessions_key (VideoSession.user_id s)) (advance 1 false w))
       (fun sessions w' =>
          Quota.setItem room (sessions_key (VideoSession.user_id s))
                        (merge_session s sessions) w').
Proof.
  intros H. unfold Quota.save_session_locally.
  rewrite getVideoSessions_probe_fails by exact H. reflexivity.
Qed.

Lemma save_session_locally_remote_within (s : VideoSession.t) :
  up (calls w) = true -> up (S (calls w)) = true ->
  Quota.save_session_locally room up s w =
  Quota.setItem room (sessions_key (VideoSession.user_id s))
    (merge_session s
       (Remote.list_ (videoSessions w)
                     (sessions_query (VideoSession.user_id s))))
    (advance 2 true w).
Proof.
  intros H1 H2. unfold Quota.save_session_locally.
  rewrite getVideoSessions_remote by assumption. reflexivity.
Qed.

Lemma savePauseInsight_probe_fails_within (i : PauseInsight.t) :
  up (calls w) = false ->
  Quota.savePauseInsight room up i w
  = Quota.save_insight_locally room up i (advance 1 false w).
Proof.
  intros H.
  unfold Quota.savePauseInsight, checkDatabaseAvailability, remote_call.
  rewrite H. reflexivity.
Qed.

Lemma savePauseInsight_write_fails_within (i : PauseInsight.t) :
  up (calls w) = true -> up (S (calls w)) = false ->
  Quota.savePauseInsight room up i w
  = Quota.save_insight_locally room up i (advance 2 false w).
Proof.
  intros H1 H2.
  unfold Quota.savePauseInsight, checkDatabaseAvailability, remote_call.
  rewrite H1. cbn -[Quota.save_insight_locally]. rewrite H2. reflexivity.
Qed.

Lemma savePauseInsight_remote_within (i : PauseInsight.t) :
  up (calls w) = true -> up (S (calls w)) = true ->
  Quota.savePauseInsight room up i w =
  Ok tt (set_pauseInsights
           (Remote.create (pauseInsights w) (wire_of_insight i))
           (advance 2 true w)).
Proof.
  intros H1 H2.
  unfold Quota.savePauseInsight, checkDatabaseAvailability, remote_call.
  rewrite H1. cbn -[Remote.create wire_of_insight]. rewrite H2. reflexivity.
Qed.

Lemma save_insight_locally_probe_fails_within (i : PauseInsight.t) :
  up (calls w) = false ->
  Quota.save_insight_locally room up i w =
  bind (read_local (insights_key (PauseInsight.session_id i))
                   (advance 1 false w))
       (fun insights w' =>
          Quota.setItem room (insights_key (PauseInsight.session_id i))
                        (insights ++ [obj_of_insight i]) w').
Proof.
  intros H. unfold Quota.save_insight_locally.
  rewrite getPauseInsights_probe_fails by exact H. reflexivity.
Qed.

Lemma save_insight_locally_remote_within (i : PauseInsight.t) :
  up (calls w) = true -> up (S (calls w)) = true ->
  Quota.save_insight_locally room up i w =
  Quota.setItem room (insights_key (PauseInsight.session_id i))
    (Remote.list_ (pauseInsights w)
                  (insights_query (PauseInsight.session_id i))
     ++ [obj_of_insight i])
    (advance 2 true w).
Proof.
  intros H1 H2. unfold Quota.save_insight_locally.
  rewrite getPauseInsights_remote by assumption. reflexivity.
Qed.

End QuotaSteps.

(** The same steps in a browser with room for every write. *)
Section SaveSteps.
Variable up : nat -> bool.
Variable w : world.

Lemma saveVideoSession_probe_fails (s : VideoSession.t) :
  up (calls w) = false ->
  saveVideoSession up s w = save_session_locally up s (advance 1 false w).
Proof. exact (saveVideoSession_probe_fails_within Quota.roomy up w s). Qed.

Lemma saveVideoSession_lookup_fails (s : VideoSession.t) :
  up (calls w) = true -> up (S (calls w)) = false ->
  saveVideoSession up s w = save_session_locally up s (advance 2 false w).
Proof. exact (saveVideoSession_lookup_fails_within Quota.roomy up w s). Qed.

Lemma saveVideoSession_write_fails (s : VideoSession.t) :
  up (calls w) = true -> up (S (calls w)) = true ->
  up (S (S (calls w))) = false ->
  saveVideoSession up s w = save_session_locally up s (advance 3 false w).
Proof. exact (saveVideoSession_write_fails_within Quota.roomy up w s). Qed.

Lemma saveVideoSession_remote (s : VideoSession.t) :
  up (calls w) = true -> up (S (calls w)) = true ->
  up (S (S (calls w))) = true ->
  saveVideoSession up s w =
  Ok tt (set_videoSessions
           match Remote.list_ (videoSessions w) (existing_query s) with
           | found :: _ =>
               Remote.update (videoSessions w) (found !! "id")
                             (update_of_session s)
           | [] => Remote.create (videoSessions w) (wire_of_session s)
           end (advance 3 true w)).
Proof. exact (saveVideoSession_remote_within Quota.roomy up w s). Qed.

Lemma save_session_locally_probe_fails (s : VideoSession.t) :
  up (calls w) = false ->
  save_session_locally up s w =
  bind (read_local (sessions_key (VideoSession.user_id s)) (advance 1 false w))
       (fun sessions w' =>
          Ok tt (setItem (sessions_key (VideoSession.user_id s))
                         (merge_session s sessions) w')).
Proof. exact (save_session_locally_probe_fails_within Quota.roomy up w s). Qed.

Lemma save_session_locally_remote (s : VideoSession.t) :
  up (calls w) = true -> up (S (calls w)) = true ->
  save_session_locally up s w =
  Ok tt (setItem (sessions_key (VideoSession.user_id s))
           (merge_session s
              (Remote.list_ (videoSessions w)
                            (sessions_query (VideoSession.user_id s))))
           (advance 2 true w)).
Proof. exact (save_session_locally_remote_within Quota.roomy up w s). Qed.

Lemma savePauseInsight_probe_fails (i : PauseInsight.t) :
  up (calls w) = false ->
  savePauseInsight up i w = save_insight_locally up i (advance 1 false w).
Proof. exact (savePauseInsight_probe_fails_within Quota.roomy up w i). Qed.

Lemma savePauseInsight_write_fails (i : PauseInsight.t) :
  up (calls w) = true -> up (S (calls w)) = false ->
  savePauseInsight up i w = save_insight_locally up i (advance 2 false w).
Proof. exact (savePauseInsight_write_fails_within Quota.roomy up w i). Qed.

Lemma savePauseInsight_remote (i : PauseInsight.t) :
  up (calls w) = true -> up (S (calls w)) = true ->
  savePauseInsight up i w =
  Ok tt (set_pauseInsights
           (Remote.create (pauseInsights w) (wire_of_insight i))
           (advance 2 true w)).
Proof. exact (savePauseInsight_remote_within Quota.roomy up w i). Qed.

Lemma save_insight_locally_probe_fails (i : PauseInsight.t) :
  up (calls w) = false ->
  save_insight_locally up i w =
  bind (read_local (insights_key (PauseInsight.session_id i))
                   (advance 1 false w))
       (fun insights w' =>
          Ok tt (setItem (insights_key (PauseInsight.session_id i))
                         (insights ++ [obj_of_insight i]) w')).
Proof. exact (save_insight_locally_probe_fails_within Quota.roomy up w i). Qed.

Lemma save_insight_locally_remote (i : PauseInsight.t) :
  up (calls w) = true -> up (S (calls w)) = true ->
  save_insight_locally up i w =
  Ok tt (setItem (insights_key (PauseInsight.session_id i))
           (Remote.list_ (pauseInsights w)
                         (insights_query (PauseInsight.session_id i))
            ++ [obj_of_insight i])
           (advance 2 true w)).
Proof. exact (save_insight_locally_remote_within Quota.roomy up w i). Qed.

End SaveSteps.

(** ** The fallback of a save reads through the list method *)


(** ** Saves against a backend that answers every call *)

Lemma saveVideoSession_always_up (s : VideoSession.t) (w : world) :
  saveVideoSession always_up s w =
  Ok tt (set_videoSessions
           match Remote.list_ (videoSessions w) (existing_query s) with
           | found :: _ =>
               Remote.update (videoSessions w) (found !! "id")
                             (update_of_session s)
           | [] => Remote.create (videoSessions w) (wire_of_session s)
           end (advance 3 true w)).
Proof. apply saveVideoSession_remote; reflexivity. Qed.

Lemma strict_eq_str_refl (s : string) : strict_eq_str (Some (VStr s)) s = true.
Proof. apply bool_decide_eq_true_2. reflexivity. Qed.

Lemma pair_row_wire (s : VideoSession.t) :
  pair_row (VideoSession.user_id s) (VideoSession.video_id s)
           (wire_of_session s) = true.
Proof.
  unfold pair_row, Remote.matches. cbn [forallb fst snd].
  change (wire_of_session s !! "videoId")
    with (Some (VStr (VideoSession.video_id s))).
  change (wire_of_session s !! "userId")
    with (Some (VStr (VideoSession.user_id s))).
  rewrite !strict_eq_str_refl. reflexivity.
Qed.

(** The update of a save touches neither [videoId] nor [userId]. *)
Lemma pair_row_update (u v : string) (s : VideoSession.t) (row : obj) :
  pair_row u v (update_of_session s ∪ row) = pair_row u v row.
Proof.
  unfold pair_row, Remote.matches. cbn [forallb fst snd].
  rewrite !lookup_union_r by reflexivity. reflexivity.
Qed.

Lemma update_wire (s s0 : VideoSession.t) :
  update_of_session s ∪ wire_of_session s0 = wire_of_session (updated_by s s0).
Proof. reflexivity. Qed.

Lemma filter_map_invariant {A} (p : A -> bool) (f : A -> A) (l : list A) :
  (forall x, p (f x) = p x) ->
  List.filter p (List.map f l) = List.map f (List.filter p l).
Proof.
  intros H. induction l as [ | x l IH]; [reflexivity | ].
  cbn. rewrite H. destruct (p x); cbn; rewrite IH; reflexivity.
Qed.

Lemma existing_is_pair_row (s : VideoSession.t) (table : list obj) :
  Remote.list_ table (existing_query s) =
  take 1 (List.filter
            (pair_row (VideoSession.user_id s) (VideoSession.video_id s))
            table).
Proof. reflexivity. Qed.

(** The first save of a pair creates its row. *)
Lemma save_creates_pair_row (s : VideoSession.t) (w : world) :
  let u := VideoSession.user_id s in
  let v := VideoSession.video_id s in
  List.filter (pair_row u v) (videoSessions w) = [] ->
  exists w',
    saveVideoSession always_up s w = Ok tt w' /\
    videoSessions w' = videoSessions w ++ [wire_of_session s] /\
    List.filter (pair_row u v) (videoSessions w') = [wire_of_session s] /\
    localStorage w' = localStorage w.
Proof.
  intros u v H. rewrite saveVideoSession_always_up, existing_is_pair_row.
  fold u v. rewrite H. cbn [take]. eexists. split; [reflexivity | ].
  cbn [videoSessions set_videoSessions advance localStorage].
  unfold Remote.create. rewrite List.filter_app, H. cbn [List.filter].
  subst u v. rewrite pair_row_wire. auto.
Qed.

(** A later save of the pair updates that row and no row count changes. *)
Lemma save_updates_pair_row (s s0 : VideoSession.t) (w : world) :
  let u := VideoSession.user_id s in
  let v := VideoSession.video_id s in
  List.filter (pair_row u v) (videoSessions w) = [wire_of_session s0] ->
  exists w',
    saveVideoSession always_up s w = Ok tt w' /\
    videoSessions w' =
      Remote.update (videoSessions w) (Some (VStr (VideoSession.id s0)))
                    (update_of_session s) /\
    List.filter (pair_row u v) (videoSessions w')
      = [wire_of_session (updated_by s s0)] /\
    localStorage w' = localStorage w.
Proof.
  intros u v H. rewrite saveVideoSession_always_up, existing_is_pair_row.
  fold u v. rewrite H. cbn [take].
  change (wire_of_session s0 !! "id") with (Some (VStr (VideoSession.id s0))).
  eexists. split; [reflexivity | ].
  cbn [videoSessions set_videoSessions advance localStorage].
  split; [reflexivity | split; [ | reflexivity]].
  unfold Remote.update. rewrite filter_map_invariant.
  - rewrite H. cbn [List.map Remote.has_id].
    change (wire_of_session s0 !! "id") with (Some (VStr (VideoSession.id s0))).
    rewrite strict_eq_str_refl, update_wire. reflexivity.
  - intros row. destruct (Remote.has_id _ row); [ | reflexivity].
    apply pair_row_update.
Qed.

Lemma save_sessions_cons (up : nat -> bool) (s : VideoSession.t)
    (ss : list VideoSession.t) (w : world) :
  save_sessions up (s :: ss) w =
  bind (saveVideoSession up s w)
       (fun _ w' =>
          bind (save_sessions up ss w') (fun rs w'' => Ok ([] :: rs) w'')).
Proof.
  unfold save_sessions. cbn [fmap list_fmap run run_op].
  destruct (saveVideoSession up s w); reflexivity.
Qed.

Lemma updated_by_twice (s s' s0 : VideoSession.t) :
  updated_by s (updated_by s' s0) = updated_by s s0.
Proof. reflexivity. Qed.

Lemma updated_by_self (s : VideoSession.t) : updated_by s s = s.
Proof. destruct s; reflexivity. Qed.

Lemma last_cons_default {A} (y : A) (l : list A) (d d' : A) :
  List.last (y :: l) d = List.last (y :: l) d'.
Proof.
  revert y. induction l as [ | z l IH]; intros y; [reflexivity | ].
  change (List.last (z :: l) d = List.last (z :: l) d'). apply IH.
Qed.

Lemma Forall_last {A} (P : A -> Prop) (l : list A) (d : A) :
  Forall P l -> P d -> P (List.last l d).
Proof.
  intros H. revert d. induction H as [ | x l Hx Hl IH]; intros d Hd.
  - exact Hd.
  - destruct l as [ | y l]; [exact Hx | ].
    change (P (List.last (y :: l) d)). apply IH, Hd.
Qed.

Lemma fold_updated_by (rest : list VideoSession.t) (s s0 : VideoSession.t) :
  fold_left (fun acc x => updated_by x acc) rest (updated_by s s0)
  = updated_by (List.last rest s) s0.
Proof.
  revert s. induction rest as [ | x rest IH]; intros s; [reflexivity | ].
  cbn [fold_left]. rewrite updated_by_twice, IH.
  destruct rest as [ | y rest]; [reflexivity | ].
  rewrite (last_cons_default y rest x s). reflexivity.
Qed.

Section SamePair.
Variables u v : string.


(** Every further save of the pair updates the one row of the pair. *)
Lemma saves_update_pair_row (rest : list VideoSession.t) :
  forall (s0 : VideoSession.t) (w : world),
    Forall (of_pair u v) rest ->
    List.filter (pair_row u v) (videoSessions w) = [wire_of_session s0] ->
    exists rs w',
      save_sessions always_up rest w = Ok rs w' /\
      List.filter (pair_row u v) (videoSessions w')
        = [wire_of_session
             (fold_left (fun acc x => updated_by x acc) rest s0)] /\
      length (videoSessions w') = length (videoSessions w) /\
      localStorage w' = localStorage w.
Proof.
  induction rest as [ | s rest IH]; intros s0 w Hp H.
  - exists [], w. auto.
  - apply Forall_cons in Hp as [[Hu Hv] Hp'].
    pose proof (save_updates_pair_row s s0 w) as Hs. cbv zeta in Hs.
    rewrite Hu, Hv in Hs. destruct (Hs H) as (w1 & E1 & T1 & F1 & L1).
    destruct (IH (updated_by s s0) w1 Hp' F1) as (rs & w2 & E2 & F2 & N2 & L2).
    exists ([] :: rs), w2. rewrite save_sessions_cons, E1. cbn [bind].
    rewrite E2. cbn [bind fold_left]. repeat split; try assumption.
    + rewrite N2, T1. unfold Remote.update. apply length_map.
    + congruence.
Qed.

End SamePair.

(** ** Saves against a backend that fails every call *)

Lemma read_local_stored (key : string) (w : world) :
  read_local key w =
  match stored_list key w with Some l => Ok l w | None => Throw w end.
Proof.
  unfold read_local, stored_list.
  destruct (localStorage w !! key) as [[ | | ] | ]; reflexivity.
Qed.

Lemma stored_list_setItem (key : string) (v : list obj) (w : world) :
  stored_list key (setItem key v w) = Some v.
Proof.
  unfold stored_list, setItem. cbn [localStorage].
  rewrite lookup_insert_eq. reflexivity.
Qed.

Lemma stored_list_setItem_ne (key key' : string) (v : list obj) (w : world) :
  key <> key' -> stored_list key' (setItem key v w) = stored_list key' w.
Proof.
  intros H. unfold stored_list, setItem. cbn [localStorage].
  rewrite lookup_insert_ne by exact H. reflexivity.
Qed.

Lemma stored_list_advance (key : string) (n : nat) (b : bool) (w : world) :
  stored_list key (advance n b w) = stored_list key w.
Proof. reflexivity. Qed.

Lemma saveVideoSession_always_down (s : VideoSession.t) (w : world)
    (l : list obj) :
  stored_list (sessions_key (VideoSession.user_id s)) w = Some l ->
  saveVideoSession always_down s w =
  Ok tt (setItem (sessions_key (VideoSession.user_id s)) (merge_session s l)
                 (advance 2 false w)).
Proof.
  intros H. rewrite saveVideoSession_probe_fails by reflexivity.
  rewrite save_session_locally_probe_fails by reflexivity.
  rewrite read_local_stored, !stored_list_advance, H. reflexivity.
Qed.

Lemma savePauseInsight_always_down (i : PauseInsight.t) (w : world)
    (l : list obj) :
  stored_list (insights_key (PauseInsight.session_id i)) w = Some l ->
  savePauseInsight always_down i w =
  Ok tt (setItem (insights_key (PauseInsight.session_id i))
                 (l ++ [obj_of_insight i]) (advance 2 false w)).
Proof.
  intros H. rewrite savePauseInsight_probe_fails by reflexivity.
  rewrite save_insight_locally_probe_fails by reflexivity.
  rewrite read_local_stored, !stored_list_advance, H. reflexivity.
Qed.

Lemma getVideoSessions_always_down (u : string) (w : world) (l : list obj) :
  stored_list (sessions_key u) w = Some l ->
  getVideoSessions always_down u w = Ok l (advance 1 false w).
Proof.
  intros H. rewrite getVideoSessions_probe_fails by reflexivity.
  rewrite read_local_stored, !stored_list_advance, H. reflexivity.
Qed.

Lemma getPauseInsights_always_down (sid : string) (w : world) (l : list obj) :
  stored_list (insights_key sid) w = Some l ->
  getPauseInsights always_down sid w = Ok l (advance 1 false w).
Proof.
  intros H. rewrite getPauseInsights_probe_fails by reflexivity.
  rewrite read_local_stored, !stored_list_advance, H. reflexivity.
Qed.

Lemma findIndex_none (p : obj -> bool) (l : list obj) :
  findIndex p l = None <-> List.filter p l = [].
Proof.
  induction l as [ | x l IH]; cbn; [tauto | ].
  destruct (p x); [split; discriminate | ].
  rewrite <- IH. destruct (findIndex p l); cbn; split; congruence.
Qed.

Lemma filter_take_nil {A} (p : A -> bool) (n : nat) (l : list A) :
  List.filter p l = [] -> List.filter p (take n l) = [].
Proof.
  revert n. induction l as [ | x l IH]; intros [ | n] H; try reflexivity.
  cbn in *. destruct (p x); [discriminate | auto].
Qed.

Lemma same_video_obj (s : VideoSession.t) (v : string) :
  same_video v (obj_of_session s) = bool_decide (VideoSession.video_id s = v).
Proof. reflexivity. Qed.

(** A session of a video that is not in the list goes to the front. *)
Lemma merge_session_new (s : VideoSession.t) (l : list obj) :
  List.filter (same_video (VideoSession.video_id s)) l = [] ->
  merge_session s l = obj_of_session s :: take 19 l.
Proof.
  intros H. unfold merge_session.
  apply findIndex_none in H. rewrite H. reflexivity.
Qed.

(** A session of the video at the front takes that place, whole. *)
Lemma merge_session_front (s s0 : VideoSession.t) (l : list obj) :
  VideoSession.video_id s0 = VideoSession.video_id s ->
  merge_session s (obj_of_session s0 :: l) = obj_of_session s :: take 19 l.
Proof.
  intros H. unfold merge_session. cbn [findIndex].
  rewrite same_video_obj, bool_decide_eq_true_2 by exact H. reflexivity.
Qed.

Section SamePairLocally.
Variables u v : string.

(** Every further save of the pair replaces the entry at the front. *)
Lemma saves_replace_front (rest : list VideoSession.t) :
  forall (s0 : VideoSession.t) (w : world) (t : list obj),
    Forall (of_pair u v) rest ->
    of_pair u v s0 ->
    length t <= 19 ->
    stored_list (sessions_key u) w = Some (obj_of_session s0 :: t) ->
    exists rs w',
      save_sessions always_down rest w = Ok rs w' /\
      stored_list (sessions_key u) w'
        = Some (obj_of_session (List.last rest s0) :: t) /\
      videoSessions w' = videoSessions w.
Proof.
  induction rest as [ | s rest IH]; intros s0 w t Hp [Hu0 Hv0] Ht H.
  - exists [], w. auto.
  - apply Forall_cons in Hp as [[Hu Hv] Hp'].
    rewrite <- Hu in H.
    pose proof (saveVideoSession_always_down s w _ H) as E1.
    rewrite merge_session_front, take_ge in E1 by (congruence || lia).
    destruct (IH s (setItem (sessions_key (VideoSession.user_id s))
                            (obj_of_session s :: t) (advance 2 false w)) t)
      as (rs & w2 & E2 & S2 & T2); try assumption.
    + split; assumption.
    + rewrite Hu. apply stored_list_setItem.
    + exists ([] :: rs), w2. rewrite save_sessions_cons, E1. cbn [bind].
      rewrite E2. cbn [bind]. split; [reflexivity | ]. split.
      * rewrite S2. destruct rest as [ | y rest]; [reflexivity | ].
        change (List.last (s :: y :: rest) s0)
          with (List.last (y :: rest) s0).
        rewrite (last_cons_default y rest s0 s). reflexivity.
      * exact T2.
Qed.

End SamePairLocally.

(** ** One record per user and video *)

(** On each path taken alone, a run of saves of one (user, video) pair
    leaves exactly one record of the pair in the store of that path, with
    the fields as they were last written.  With the backend answering
    every call it is the row the first save created, with the title,
    progress, duration and last-watched of the last save (the update
    writes no other field).  With the backend failing every call it is
    the session of the last save. *)
Theorem one_record_per_pair
    (u v : string) (s1 : VideoSession.t) (rest : list VideoSession.t)
    (w : world) :
  Forall (of_pair u v) (s1 :: rest) ->
  let latest := List.last rest s1 in
  (List.filter (pair_row u v) (videoSessions w) = [] ->
   exists rs w',
     save_sessions always_up (s1 :: rest) w = Ok rs w' /\
     List.filter (pair_row u v) (videoSessions w')
       = [wire_of_session (updated_by latest s1)]) /\
  (forall l0 : list obj,
     stored_list (sessions_key u) w = Some l0 ->
     List.filter (same_video v) l0 = [] ->
     exists rs w' l,
       save_sessions always_down (s1 :: rest) w = Ok rs w' /\
       localStorage w' !! sessions_key u = Some (Json l) /\
       List.filter (same_video v) l = [obj_of_session latest]).
Proof.
  intros Hp latest. inversion Hp as [ | ? ? [Hu Hv] Hp']; subst. split.
  - intros H.
    destruct (save_creates_pair_row s1 w H) as (w1 & E1 & _ & F1 & _).
    destruct (saves_update_pair_row _ _ rest s1 w1 Hp' F1)
      as (rs & w2 & E2 & F2 & _).
    exists ([] :: rs), w2. rewrite save_sessions_cons, E1. cbn [bind].
    rewrite E2. cbn [bind]. split; [reflexivity | ].
    rewrite F2. rewrite <- (updated_by_self s1) at 1.
    rewrite fold_updated_by. reflexivity.
  - intros l0 H0 Hnew.
    pose proof (saveVideoSession_always_down s1 w l0 H0) as E1.
    rewrite merge_session_new in E1 by exact Hnew.
    destruct (saves_replace_front (VideoSession.user_id s1)
                (VideoSession.video_id s1) rest s1
                (setItem (sessions_key (VideoSession.user_id s1))
                         (obj_of_session s1 :: take 19 l0) (advance 2 false w))
                (take 19 l0))
      as (rs & w2 & E2 & S2 & _); try assumption.
    + split; reflexivity.
    + rewrite length_take. lia.
    + apply stored_list_setItem.
    + unfold stored_list in S2.
      destruct (localStorage w2 !! sessions_key (VideoSession.user_id s1))
        as [[l | | ] | ] eqn:El; try discriminate.
      exists ([] :: rs), w2, l. rewrite save_sessions_cons, E1. cbn [bind].
      rewrite E2. cbn [bind]. split; [reflexivity | ].
      split; [exact El | ].
      injection S2 as ->. cbn [List.filter].
      rewrite same_video_obj, filter_take_nil by exact Hnew.
      rewrite bool_decide_eq_true_2; [reflexivity | ].
      apply (Forall_last (of_pair (VideoSession.user_id s1)
                                  (VideoSession.video_id s1)) rest s1 Hp').
      split; reflexivity.
Qed.

(** C2 at its failing input: the two saves of scenario 6 against a
    backend that fails one call, the probe of the second save.  The first
    save creates the row of the pair.  The second save falls back to its
    local branch, which loads the list with [getVideoSessions]; that probes
    again, reaches the backend and returns the row under its wire names,
    in which [findIndex] finds no [video_id]: the session is put in front
    of it.  Afterwards local storage holds two records of the pair, the
    row of the backend still has the progress and the last-watched of the
    first save, and the listings of the two stores differ. *)
Theorem flapping_probe_leaves_two_records :
  let w := world_of (save_sessions (fails_only 3) [first_save; second_save]
                                   init) in
  save_sessions (fails_only 3) [first_save; second_save] init
  = Ok [[]; []]
       (World true [wire_of_session first_save] []
          {[sessions_key "u1" :=
              Json [obj_of_session second_save; wire_of_session first_save]]}
          6) /\
  getVideoSessions always_up "u1" w
  = Ok [wire_of_session first_save] (advance 2 true w) /\
  getVideoSessions always_down "u1" w
  = Ok [obj_of_session second_save; wire_of_session first_save]
       (advance 1 false w) /\
  field_of (wire_of_session first_save) "progress" = Some (VNum 0) /\
  field_of (wire_of_session first_save) "last_watched" = Some (VStr T1) /\
  field_of (obj_of_session second_save) "progress" = Some (VNum 120) /\
  field_of (obj_of_session second_save) "last_watched" = Some (VStr T2) /\
  field_of (wire_of_session first_save) "user_id"
  = field_of (obj_of_session second_save) "user_id" /\
  field_of (wire_of_session first_save) "video_id"
  = field_of (obj_of_session second_save) "video_id" /\
  findIndex (same_video "v1") [wire_of_session first_save] = None.
Proof. cbv zeta. repeat apply conj; by_evaluation. Qed.

(** ** The order and the size of what the backend lists *)

Module RemoteFacts.
Import Remote.

Lemma key_leb_total (a b : option value) :
  key_leb a b = true \/ key_leb b a = true.
Proof.
  destruct a as [[x | x | x | x] | ], b as [[y | y | y | y] | ]; cbn; auto.
  - apply String.leb_total.
  - destruct (Qlt_le_dec x y) as [H | H].
    + left. apply Qle_bool_iff, Qlt_le_weak, H.
    + right. apply Qle_bool_iff, H.
Qed.

Lemma row_leb_total (field : string) (d : direction) (a b : obj) :
  row_leb field d a b = true \/ row_leb field d b a = true.
Proof. destruct d; apply key_leb_total. Qed.

Section Sorting.
Variable le : obj -> obj -> bool.
Hypothesis le_total : forall a b, le a b = true \/ le b a = true.

Lemma insert_by_HdRel (x y : obj) (l : list obj) :
  holds le y x -> HdRel (holds le) y l -> HdRel (holds le) y (insert_by le x l).
Proof.
  intros Hyx Hl. destruct l as [ | z l]; cbn.
  - constructor. exact Hyx.
  - destruct (le x z); constructor; [exact Hyx | ].
    inversion Hl; assumption.
Qed.

Lemma insert_by_sorted (x : obj) (l : list obj) :
  Sorted (holds le) l -> Sorted (holds le) (insert_by le x l).
Proof.
  induction 1 as [ | y l Hs IH Hd]; cbn.
  - repeat constructor.
  - destruct (le x y) eqn:E.
    + constructor; [constructor; assumption | constructor; exact E].
    + constructor; [exact IH | ].
      apply insert_by_HdRel; [ | exact Hd].
      destruct (le_total x y) as [H | H]; [congruence | exact H].
Qed.

Lemma sort_by_sorted (l : list obj) : Sorted (holds le) (sort_by le l).
Proof.
  induction l as [ | x l IH]; cbn; [constructor | ].
  apply insert_by_sorted, IH.
Qed.

Lemma insert_by_length (x : obj) (l : list obj) :
  length (insert_by le x l) = S (length l).
Proof.
  induction l as [ | y l IH]; cbn; [reflexivity | ].
  destruct (le x y); cbn; rewrite ?IH; reflexivity.
Qed.

Lemma Sorted_take (n : nat) (l : list obj) :
  Sorted (holds le) l -> Sorted (holds le) (take n l).
Proof.
  intros H. revert n. induction H as [ | y l Hs IH Hd]; intros [ | n]; cbn;
    try constructor.
  - apply IH.
  - destruct Hd; destruct n; cbn; constructor; assumption.
Qed.

End Sorting.

(** The rows a query of [getVideoSessions] gets from the backend are at
    most twenty, the latest [lastWatched] first. *)
Lemma sessions_query_sorted (table : list obj) (u : string) :
  let rows := list_ table (sessions_query u) in
  length rows <= 20 /\
  Sorted (fun a b => key_leb (b !! "lastWatched") (a !! "lastWatched") = true)
         rows.
Proof.
  cbn. split.
  - rewrite length_take. lia.
  - apply (Sorted_take (row_leb "lastWatched" Desc)).
    apply sort_by_sorted. apply row_leb_total.
Qed.

(** The rows a query of [getPauseInsights] gets from the backend are in
    the order of their timestamps, the earliest first. *)
Lemma insights_query_sorted (table : list obj) (sid : string) :
  Sorted (fun a b => key_leb (a !! "timestamp") (b !! "timestamp") = true)
         (list_ table (insights_query sid)).
Proof.
  cbn. apply (sort_by_sorted (row_leb "timestamp" Asc)).
  apply row_leb_total.
Qed.

End RemoteFacts.

(** The two saves of scenario 6 on each path taken alone, from nothing
    stored. *)
Lemma one_record_per_pair_witness :
  (exists rs w',
     save_sessions always_up [first_save; second_save] init = Ok rs w' /\
     List.filter (pair_row "u1" "v1") (videoSessions w')
       = [wire_of_session second_save]) /\
  (exists rs w' l,
     save_sessions always_down [first_save; second_save] init = Ok rs w' /\
     localStorage w' !! sessions_key "u1" = Some (Json l) /\
     List.filter (same_video "v1") l = [obj_of_session second_save]).
Proof.
  assert (Hp : Forall (of_pair "u1" "v1") [first_save; second_save])
    by (repeat constructor).
  destruct (one_record_per_pair "u1" "v1" first_save [second_save] init Hp)
    as [Hremote Hlocal].
  split.
  - apply Hremote. reflexivity.
  - apply (Hlocal []); reflexivity.
Defined.


(** ** What a save changes in a record that is already there *)

(** C6, as stated, fails on the local branch: the second save of the same
    user and video replaces the stored entry, and the id and the thumbnail
    of the entry are those of the second save afterwards. *)
Lemma local_save_replaces_id_and_thumbnail :
  let w1 := world_of (saveVideoSession always_down first_save init) in
  let w2 := world_of (saveVideoSession always_down started_again w1) in
  stored_list (sessions_key "u1") w1 = Some [obj_of_session first_save] /\
  findIndex (same_video "v1") [obj_of_session first_save] = Some 0 /\
  stored_list (sessions_key "u1") w2 = Some [obj_of_session started_again] /\
  obj_of_session first_save !! "id" = Some (VStr "s1") /\
  obj_of_session started_again !! "id" = Some (VStr "s2") /\
  obj_of_session first_save !! "thumbnail" = Some (VStr "v1.jpg") /\
  obj_of_session started_again !! "thumbnail" = Some (VStr "v1-hq.jpg").
Proof. cbv zeta. repeat apply conj; by_evaluation. Qed.

Lemma lookup_map_list {A B} (f : A -> B) (l : list A) (n : nat) :
  List.map f l !! n = f <$> (l !! n).
Proof.
  revert n. induction l as [ | x l IH]; intros [ | n]; cbn; auto.
Qed.

Lemma update_of_session_lookup (s : VideoSession.t) (field : string) :
  field ∉ updated_fields -> update_of_session s !! field = None.
Proof. intros H. apply not_elem_of_list_to_map_1. exact H. Qed.

(** [update] keeps every field that the partial object does not name. *)
Lemma update_frame (table : list obj) (idv : option value) (partial : obj)
    (n : nat) (row : obj) :
  table !! n = Some row ->
  exists row',
    Remote.update table idv partial !! n = Some row' /\
    forall field, partial !! field = None -> row' !! field = row !! field.
Proof.
  intros H. unfold Remote.update. rewrite lookup_map_list, H. cbn.
  eexists. split; [reflexivity | ]. intros field Hf.
  destruct (Remote.has_id idv row); [ | reflexivity].
  apply lookup_union_r, Hf.
Qed.

Lemma findIndex_some (p : obj -> bool) (l : list obj) (n : nat) :
  findIndex p l = Some n -> exists x, l !! n = Some x /\ p x = true.
Proof.
  revert n. induction l as [ | y l IH]; intros n; cbn; [discriminate | ].
  destruct (p y) eqn:E.
  - intros [= <-]. eauto.
  - destruct (findIndex p l) as [m | ]; cbn; [ | discriminate].
    intros [= <-]. apply IH. reflexivity.
Qed.

Lemma same_video_field (v : string) (x : obj) :
  same_video v x = true -> x !! "video_id" = Some (VStr v).
Proof.
  unfold same_video, strict_eq_str.
  destruct (x !! "video_id") as [[t | | | ] | ]; try discriminate.
  intros H. apply bool_decide_eq_true_1 in H. congruence.
Qed.

(** C6, amended: when the save finds a record of the same user and video,
    the remote path changes title, progress, duration and last-watched and
    no other field of any row (so id, video id, thumbnail and user id stay);
    the local branch puts the saved session in the place of the entry of
    the same video id: the video id stays, every other field is the one of
    the saved session. *)
Theorem save_over_existing_record
    (up : nat -> bool) (s : VideoSession.t) (w : world) :
  let c := calls w in
  let key := sessions_key (VideoSession.user_id s) in
  (up c = true -> up (1 + c) = true -> up (2 + c) = true ->
   Remote.list_ (videoSessions w) (existing_query s) <> [] ->
   exists w',
     saveVideoSession up s w = Ok tt w' /\
     localStorage w' = localStorage w /\
     length (videoSessions w') = length (videoSessions w) /\
     forall n row,
       videoSessions w !! n = Some row ->
       exists row',
         videoSessions w' !! n = Some row' /\
         forall field, field ∉ updated_fields -> row' !! field = row !! field) /\
  (forall (l : list obj) (n : nat),
     up c = false -> up (1 + c) = false ->
     stored_list key w = Some l ->
     findIndex (same_video (VideoSession.video_id s)) l = Some n ->
     exists w' old,
       saveVideoSession up s w = Ok tt w' /\
       videoSessions w' = videoSessions w /\
       l !! n = Some old /\
       old !! "video_id" = obj_of_session s !! "video_id" /\
       localStorage w' !! key
         = Some (Json (take 20 (<[n := obj_of_session s]> l)))).
Proof.
  intros c key. subst c key. split.
  - intros H0 H1 H2 Hfound.
    rewrite saveVideoSession_remote by assumption.
    destruct (Remote.list_ (videoSessions w) (existing_query s))
      as [ | found others]; [congruence | ].
    eexists. split; [reflexivity | ].
    cbn [localStorage videoSessions set_videoSessions advance].
    split; [reflexivity | ]. split.
    + unfold Remote.update. apply length_map.
    + intros n row Hrow.
      destruct (update_frame (videoSessions w) (found !! "id")
                  (update_of_session s) n row Hrow) as (row' & Hrow' & Hframe).
      exists row'. split; [exact Hrow' | ].
      intros field Hfield. apply Hframe, update_of_session_lookup, Hfield.
  - intros l n H0 H1 Hl Hn.
    rewrite saveVideoSession_probe_fails by exact H0.
    rewrite save_session_locally_probe_fails by exact H1.
    rewrite read_local_stored, !stored_list_advance, Hl. cbn [bind].
    destruct (findIndex_some _ _ _ Hn) as (old & Hold & Hsame).
    exists (setItem (sessions_key (VideoSession.user_id s)) (merge_session s l)
                    (advance 1 false (advance 1 false w))), old.
    split; [reflexivity | ]. split; [reflexivity | ]. split; [exact Hold | ].
    split.
    + rewrite (same_video_field _ _ Hsame). reflexivity.
    + cbn [localStorage setItem]. rewrite lookup_insert_eq.
      unfold merge_session. rewrite Hn. reflexivity.
Qed.

(** C6, amended, on a second start of the same video. *)
Lemma save_over_existing_record_witness :
  (exists w',
     saveVideoSession always_up started_again
       (World true [wire_of_session first_save] [] ∅ 0) = Ok tt w' /\
     localStorage w' = ∅ /\
     length (videoSessions w') = 1 /\
     forall n row,
       [wire_of_session first_save] !! n = Some row ->
       exists row',
         videoSessions w' !! n = Some row' /\
         forall field, field ∉ updated_fields -> row' !! field = row !! field) /\
  (exists w' old,
     saveVideoSession always_down started_again
       (World true [] [] {[sessions_key "u1" := Json [obj_of_session first_save]]} 0)
       = Ok tt w' /\
     videoSessions w' = [] /\
     [obj_of_session first_save] !! 0 = Some old /\
     old !! "video_id" = obj_of_session started_again !! "video_id" /\
     localStorage w' !! sessions_key "u1"
       = Some (Json (take 20 (<[0 := obj_of_session started_again]>
                                [obj_of_session first_save])))).
Proof.
  pose proof (save_over_existing_record always_up started_again
                (World true [wire_of_session first_save] [] ∅ 0))
    as [Hremote _].
  pose proof (save_over_existing_record always_down started_again
                (World true [] []
                   {[sessions_key "u1" := Json [obj_of_session first_save]]} 0))
    as [_ Hlocal].
  split.
  - apply Hremote; try reflexivity.
    assert (E : Remote.list_ [wire_of_session first_save]
                  (existing_query started_again) = [wire_of_session first_save])
      by by_evaluation.
    cbn [videoSessions]. rewrite E. discriminate.
  - apply (Hlocal [obj_of_session first_save] 0);
      try reflexivity; by_evaluation.
Defined.

(** ** The local path against the remote path *)


Lemma readable_stored (key : string) (w : world) :
  readable w -> exists l, stored_list key w = Some l.
Proof.
  intros H. specialize (H key). unfold stored_list.
  destruct (localStorage w !! key) as [[ | | ] | ]; eauto. congruence.
Qed.

Lemma readable_setItem (key : string) (v : list obj) (n : nat) (b : bool)
    (w : world) :
  readable w -> readable (setItem key v (advance n b w)).
Proof.
  intros H key'. cbn [localStorage setItem advance].
  destruct (decide (key = key')) as [<- | Hne].
  - rewrite lookup_insert_eq. discriminate.
  - rewrite lookup_insert_ne by exact Hne. apply H.
Qed.

(** With the backend failing every call, a call of the facade returns
    from its local branch and leaves the remote tables alone. *)
Lemma run_op_always_down (o : op) (w : world) :
  readable w ->
  exists r w',
    run_op always_down o w = Ok r w' /\
    readable w' /\
    dbAvailable w' = false /\
    videoSessions w' = videoSessions w /\
    pauseInsights w' = pauseInsights w.
Proof.
  intros H. destruct o as [u | s | sid | i]; cbn [run_op].
  - destruct (readable_stored (sessions_key u) w H) as [l Hl].
    rewrite (getVideoSessions_always_down u w l Hl). eauto 10.
  - destruct (readable_stored (sessions_key (VideoSession.user_id s)) w H)
      as [l Hl].
    rewrite (saveVideoSession_always_down s w l Hl). cbn [bind].
    eexists _, _. split; [reflexivity | ].
    split; [apply readable_setItem, H | auto].
  - destruct (readable_stored (insights_key sid) w H) as [l Hl].
    rewrite (getPauseInsights_always_down sid w l Hl). eauto 10.
  - destruct (readable_stored (insights_key (PauseInsight.session_id i)) w H)
      as [l Hl].
    rewrite (savePauseInsight_always_down i w l Hl). cbn [bind].
    eexists _, _. split; [reflexivity | ].
    split; [apply readable_setItem, H | auto].
Qed.

Lemma run_always_down (os : list op) :
  forall w,
    readable w ->
    exists rs w',
      run always_down os w = Ok rs w' /\
      length rs = length os /\
      readable w' /\
      (os <> [] -> dbAvailable w' = false) /\
      videoSessions w' = videoSessions w /\
      pauseInsights w' = pauseInsights w.
Proof.
  induction os as [ | o os IH]; intros w H.
  - exists [], w. repeat split; auto. congruence.
  - destruct (run_op_always_down o w H) as (r & w1 & E1 & R1 & D1 & V1 & P1).
    destruct (IH w1 R1) as (rs & w2 & E2 & N2 & R2 & D2 & V2 & P2).
    exists (r :: rs), w2. cbn [run]. rewrite E1. cbn [bind]. rewrite E2.
    cbn [bind length]. repeat split; try congruence.
    intros _. destruct os as [ | o' os]; [ | apply D2; discriminate].
    cbn in E2. injection E2 as _ <-. exact D1.
Qed.

Lemma filter_singleton {A} (p : A -> bool) (l : list A) (x : A) :
  length l = 1 -> List.filter p l = [x] -> l = [x].
Proof.
  destruct l as [ | y [ | z l]]; try discriminate. cbn.
  destruct (p y); [congruence | discriminate].
Qed.

Lemma list_single_row (s : VideoSession.t) :
  Remote.list_ [wire_of_session s] (sessions_query (VideoSession.user_id s))
  = [wire_of_session s].
Proof.
  unfold Remote.list_, sessions_query. cbn [Remote.where_ List.filter].
  unfold Remote.matches. cbn [forallb fst snd].
  change (wire_of_session s !! "userId")
    with (Some (VStr (VideoSession.user_id s))).
  rewrite strict_eq_str_refl. reflexivity.
Qed.

Lemma wire_names_of_session (s : VideoSession.t) :
  Forall (fun field => wire_of_session s !! wire_name field
                       = obj_of_session s !! field) session_fields.
Proof. repeat constructor. Qed.

Lemma wire_names_of_insight (i : PauseInsight.t) :
  Forall (fun field => wire_of_insight i !! wire_name field
                       = obj_of_insight i !! field) insight_fields.
Proof. repeat constructor. Qed.

Lemma updated_by_same_record (s s1 : VideoSession.t) (u v : string) :
  of_pair u v s1 -> of_pair u v s -> same_record s1 s -> updated_by s s1 = s.
Proof.
  destruct s, s1. unfold of_pair, same_record. cbn.
  intros [-> ->] [-> ->] [-> ->]. reflexivity.
Qed.

(** ** The order of the local listings *)

(** What the local branch stores is never longer than twenty sessions. *)
Lemma merge_session_length (s : VideoSession.t) (l : list obj) :
  length (merge_session s l) <= 20.
Proof. unfold merge_session. rewrite length_take. lia. Qed.

(** C3 at its failing input: a first video, a second video, then the first
    video again, all saved with the backend down.  The entry of the first
    video is replaced where it stands, behind the second video, so the
    listing has the session watched last (T3) after the one watched at T2:
    it is not in the order of last-watched, latest first.  The same saves
    through the backend are listed latest first. *)
Theorem local_listing_not_latest_first :
  let saves := [first_save; other_video; watched_again] in
  let listed := [obj_of_session other_video; obj_of_session watched_again] in
  getVideoSessions always_down "u1"
    (world_of (save_sessions always_down saves init))
  = Ok listed (World false [] [] {[sessions_key "u1" := Json listed]} 7) /\
  ~ Sorted (fun a b => Remote.key_leb (b !! "last_watched")
                                      (a !! "last_watched") = true) listed /\
  getVideoSessions always_up "u1"
    (world_of (save_sessions always_up saves init))
  = Ok [wire_of_session watched_again; wire_of_session other_video]
       (World true [wire_of_session watched_again; wire_of_session other_video]
          [] ∅ 11).
Proof.
  cbv zeta. repeat apply conj; try by_evaluation.
  intros H. inversion H as [ | ? ? _ Hd]; subst.
  inversion Hd as [ | ? ? Hle]; subst.
  revert Hle. by_evaluation_of_hypothesis.
Qed.

(** C5 at its failing input: a pause at second 90 and then, after a seek
    back, one at second 30, both saved with the backend down.  The local
    listing is in the order of the calls, 90 before 30; the backend lists
    the same saves by timestamp. *)
Theorem local_insights_in_call_order :
  let saves := [insight_at "1" 90; insight_at "2" 30] in
  let listed :=
    [obj_of_insight (insight_at "1" 90); obj_of_insight (insight_at "2" 30)] in
  getPauseInsights always_down "sess1"
    (world_of (save_insights always_down saves init))
  = Ok listed (World false [] [] {[insights_key "sess1" := Json listed]} 5) /\
  ~ Sorted (fun a b => Remote.key_leb (a !! "timestamp")
                                      (b !! "timestamp") = true) listed /\
  getPauseInsights always_up "sess1"
    (world_of (save_insights always_up saves init))
  = Ok [wire_of_insight (insight_at "2" 30); wire_of_insight (insight_at "1" 90)]
       (World true []
          [wire_of_insight (insight_at "1" 90);
           wire_of_insight (insight_at "2" 30)] ∅ 6).
Proof.
  cbv zeta. repeat apply conj; try by_evaluation.
  intros H. inversion H as [ | ? ? _ Hd]; subst.
  inversion Hd as [ | ? ? Hle]; subst.
  revert Hle. by_evaluation_of_hypothesis.
Qed.

(** ** Appending insights *)

(** With the backend answering every call a save adds one row to the
    table; with the backend failing every call it adds one entry at the
    end of the stored list. *)
Lemma savePauseInsight_appends (i : PauseInsight.t) (w : world) :
  (exists w',
     savePauseInsight always_up i w = Ok tt w' /\
     pauseInsights w' = pauseInsights w ++ [wire_of_insight i] /\
     localStorage w' = localStorage w) /\
  (forall l,
     stored_list (insights_key (PauseInsight.session_id i)) w = Some l ->
     exists w',
       savePauseInsight always_down i w = Ok tt w' /\
       stored_list (insights_key (PauseInsight.session_id i)) w'
         = Some (l ++ [obj_of_insight i]) /\
       pauseInsights w' = pauseInsights w).
Proof.
  split.
  - rewrite savePauseInsight_remote by reflexivity. eauto.
  - intros l Hl. rewrite (savePauseInsight_always_down i w l Hl).
    eexists. split; [reflexivity | ]. split; [ | reflexivity].
    apply stored_list_setItem.
Qed.

(** C7 at its failing input: the backend fails its first three calls and
    answers from the fourth on.  The first save ends in local storage.
    The second save fails its probe, then loads the list to append to with
    [getPauseInsights], whose own probe and query succeed: the list is the
    (empty) list of the backend, and the save writes that list plus the new
    insight over the stored one.  The first insight is gone from local
    storage and was never in the backend; no later listing returns it. *)
Theorem save_insight_overwrites_local_list :
  let first := insight_at "1" 30 in
  let second := insight_at "2" 90 in
  let w1 := world_of (savePauseInsight (up_from 3) first init) in
  let w2 := world_of (savePauseInsight (up_from 3) second w1) in
  w1 = World false [] [] {[insights_key "sess1" := Json [obj_of_insight first]]}
             2 /\
  savePauseInsight (up_from 3) second w1
  = Ok tt (World true [] []
             {[insights_key "sess1" := Json [obj_of_insight second]]} 5) /\
  getPauseInsights (up_from 3) "sess1" w2 = Ok [] (advance 2 true w2) /\
  getPauseInsights always_down "sess1" w2
  = Ok [obj_of_insight second] (advance 1 false w2).
Proof. cbv zeta. repeat apply conj; by_evaluation. Qed.

(** ** Field names at the boundary of the backend *)

Lemma list_single_insight (i : PauseInsight.t) :
  Remote.list_ [wire_of_insight i] (insights_query (PauseInsight.session_id i))
  = [wire_of_insight i].
Proof.
  unfold Remote.list_, insights_query. cbn [Remote.where_ List.filter].
  unfold Remote.matches. cbn [forallb fst snd].
  change (wire_of_insight i !! "sessionId")
    with (Some (VStr (PauseInsight.session_id i))).
  rewrite strict_eq_str_refl. reflexivity.
Qed.

(** C8 at its failing input, which is every record: a record saved
    through the backend is listed as the backend returns it.  Every value
    is there unchanged under the wire name of its field (the translation of
    the save is exact), but the list methods translate nothing back: the
    listed record has no [video_id], [last_watched] or [user_id] (no
    [session_id], [quiz_questions], [user_id] or [created_at] for an
    insight), the names of the interface it is returned under. *)
Theorem remote_listing_keeps_wire_names
    (s : VideoSession.t) (i : PauseInsight.t) :
  (exists w1 w2,
     saveVideoSession always_up s init = Ok tt w1 /\
     getVideoSessions always_up (VideoSession.user_id s) w1
       = Ok [wire_of_session s] w2) /\
  Forall (fun field => wire_of_session s !! wire_name field
                       = obj_of_session s !! field) session_fields /\
  Forall (fun field => wire_of_session s !! field = None)
         ["video_id"; "last_watched"; "user_id"] /\
  (exists w1 w2,
     savePauseInsight always_up i init = Ok tt w1 /\
     getPauseInsights always_up (PauseInsight.session_id i) w1
       = Ok [wire_of_insight i] w2) /\
  Forall (fun field => wire_of_insight i !! wire_name field
                       = obj_of_insight i !! field) insight_fields /\
  Forall (fun field => wire_of_insight i !! field = None)
         ["session_id"; "quiz_questions"; "user_id"; "created_at"].
Proof.
  repeat apply conj.
  - destruct (save_creates_pair_row s init eq_refl) as (w1 & E1 & T1 & _).
    exists w1. eexists. split; [exact E1 | ].
    rewrite getVideoSessions_remote by reflexivity.
    rewrite T1. cbn [videoSessions init app].
    rewrite list_single_row. reflexivity.
  - apply wire_names_of_session.
  - repeat constructor.
  - eexists _, _. split.
    + apply savePauseInsight_remote; reflexivity.
    + rewrite getPauseInsights_remote by reflexivity.
      cbn [pauseInsights set_pauseInsights advance Remote.create app init].
      rewrite list_single_insight. reflexivity.
  - apply wire_names_of_insight.
  - repeat constructor.
Qed.

(** * Further properties of the storage manager *)

(** ** The flag is written before it is read *)

Lemma checkDatabaseAvailability_forgets_flag (up : nat -> bool) (b : bool)
    (w : world) :
  checkDatabaseAvailability up (set_dbAvailable b w)
  = checkDatabaseAvailability up w.
Proof. reflexivity. Qed.

(** X1: every method of the facade probes before it looks at the flag, so
    what a call returns and the world it leaves do not depend on the value
    the flag had before the call. *)
Theorem stale_flag_is_never_trusted
    (up : nat -> bool) (o : op) (b : bool) (w : world) :
  run_op up o (set_dbAvailable b w) = run_op up o w.
Proof. destruct o; reflexivity. Qed.

(** ** The list methods only read *)

Lemma read_local_world (key : string) (w : world) :
  world_of (read_local key w) = w.
Proof.
  unfold read_local.
  destruct (localStorage w !! key) as [[ | | ] | ]; reflexivity.
Qed.

(** The world a list method leaves, by the answers of the backend. *)
Lemma getVideoSessions_world (up : nat -> bool) (u : string) (w : world) :
  world_of (getVideoSessions up u w)
  = advance (if up (calls w) then 2 else 1)
            (up (calls w) && up (S (calls w))) w.
Proof.
  destruct (up (calls w)) eqn:H1; [destruct (up (S (calls w))) eqn:H2 | ].
  - rewrite getVideoSessions_remote by assumption. reflexivity.
  - rewrite getVideoSessions_query_fails by assumption. apply read_local_world.
  - rewrite getVideoSessions_probe_fails by assumption. apply read_local_world.
Qed.

Lemma getPauseInsights_world (up : nat -> bool) (sid : string) (w : world) :
  world_of (getPauseInsights up sid w)
  = advance (if up (calls w) then 2 else 1)
            (up (calls w) && up (S (calls w))) w.
Proof.
  destruct (up (calls w)) eqn:H1; [destruct (up (S (calls w))) eqn:H2 | ].
  - rewrite getPauseInsights_remote by assumption. reflexivity.
  - rewrite getPauseInsights_query_fails by assumption. apply read_local_world.
  - rewrite getPauseInsights_probe_fails by assumption. apply read_local_world.
Qed.

(** X2: whatever the backend answers and whether the call returns or
    raises, a list method writes nothing: both remote tables and local
    storage are as before the call, and the call made one or two remote
    calls. *)
Theorem list_methods_write_nothing
    (up : nat -> bool) (u sid : string) (w : world) :
  let ws := world_of (getVideoSessions up u w) in
  let wi := world_of (getPauseInsights up sid w) in
  (videoSessions ws = videoSessions w /\
   pauseInsights ws = pauseInsights w /\
   localStorage ws = localStorage w /\
   calls w < calls ws <= 2 + calls w) /\
  (videoSessions wi = videoSessions w /\
   pauseInsights wi = pauseInsights w /\
   localStorage wi = localStorage w /\
   calls w < calls wi <= 2 + calls w).
Proof.
  cbv zeta. rewrite getVideoSessions_world, getPauseInsights_world.
  cbn [videoSessions pauseInsights localStorage calls advance].
  destruct (up (calls w)); repeat split; lia.
Qed.

(** X3: after a list method the flag tells which store answered: it is
    true exactly when the probe and the query both succeeded, and then the
    result is the rows of the backend; otherwise the result is what the
    local branch read (or its error). *)
Theorem flag_after_list_names_the_store
    (up : nat -> bool) (u sid : string) (w : world) :
  let rs := getVideoSessions up u w in
  let ri := getPauseInsights up sid w in
  (isDatabaseAvailable (world_of rs) = up (calls w) && up (S (calls w))) /\
  (isDatabaseAvailable (world_of ri) = up (calls w) && up (S (calls w))) /\
  (if isDatabaseAvailable (world_of rs)
   then rs = Ok (Remote.list_ (videoSessions w) (sessions_query u))
                (world_of rs)
   else rs = read_local (sessions_key u) (world_of rs)) /\
  (if isDatabaseAvailable (world_of ri)
   then ri = Ok (Remote.list_ (pauseInsights w) (insights_query sid))
                (world_of ri)
   else ri = read_local (insights_key sid) (world_of ri)).
Proof.
  cbv zeta. rewrite getVideoSessions_world, getPauseInsights_world.
  unfold isDatabaseAvailable. cbn [dbAvailable advance].
  destruct (up (calls w)) eqn:H1; [destruct (up (S (calls w))) eqn:H2 | ];
    cbn [andb]; repeat split.
  - apply getVideoSessions_remote; assumption.
  - apply getPauseInsights_remote; assumption.
  - apply getVideoSessions_query_fails; assumption.
  - apply getPauseInsights_query_fails; assumption.
  - apply getVideoSessions_probe_fails; assumption.
  - apply getPauseInsights_probe_fails; assumption.
Qed.

(** ** A save writes one store *)

Lemma getVideoSessions_raises (up : nat -> bool) (u : string) (w w' : world) :
  getVideoSessions up u w = Throw w' ->
  localStorage w !! sessions_key u = Some Malformed.
Proof.
  destruct (up (calls w)) eqn:H1; [destruct (up (S (calls w))) eqn:H2 | ].
  - rewrite getVideoSessions_remote by assumption. discriminate.
  - rewrite getVideoSessions_query_fails by assumption. intros H.
    apply (read_local_raises (sessions_key u) (advance 2 false w)). eauto.
  - rewrite getVideoSessions_probe_fails by assumption. intros H.
    apply (read_local_raises (sessions_key u) (advance 1 false w)). eauto.
Qed.

Lemma getPauseInsights_raises (up : nat -> bool) (sid : string) (w w' : world) :
  getPauseInsights up sid w = Throw w' ->
  localStorage w !! insights_key sid = Some Malformed.
Proof.
  destruct (up (calls w)) eqn:H1; [destruct (up (S (calls w))) eqn:H2 | ].
  - rewrite getPauseInsights_remote by assumption. discriminate.
  - rewrite getPauseInsights_query_fails by assumption. intros H.
    apply (read_local_raises (insights_key sid) (advance 2 false w)). eauto.
  - rewrite getPauseInsights_probe_fails by assumption. intros H.
    apply (read_local_raises (insights_key sid) (advance 1 false w)). eauto.
Qed.

Lemma getVideoSessions_returns (up : nat -> bool) (u : string)
    (w w' : world) (l : list obj) :
  getVideoSessions up u w = Ok l w' ->
  stored_list (sessions_key u) w = Some l \/
  l = Remote.list_ (videoSessions w) (sessions_query u).
Proof.
  destruct (up (calls w)) eqn:H1; [destruct (up (S (calls w))) eqn:H2 | ].
  - rewrite getVideoSessions_remote by assumption. intros [= <- _]. auto.
  - rewrite getVideoSessions_query_fails, read_local_stored by assumption.
    rewrite stored_list_advance.
    destruct (stored_list (sessions_key u) w); [intros [= <- _]; auto | ].
    discriminate.
  - rewrite getVideoSessions_probe_fails, read_local_stored by assumption.
    rewrite stored_list_advance.
    destruct (stored_list (sessions_key u) w); [intros [= <- _]; auto | ].
    discriminate.
Qed.

Lemma getPauseInsights_returns (up : nat -> bool) (sid : string)
    (w w' : world) (l : list obj) :
  getPauseInsights up sid w = Ok l w' ->
  stored_list (insights_key sid) w = Some l \/
  l = Remote.list_ (pauseInsights w) (insights_query sid).
Proof.
  destruct (up (calls w)) eqn:H1; [destruct (up (S (calls w))) eqn:H2 | ].
  - rewrite getPauseInsights_remote by assumption. intros [= <- _]. auto.
  - rewrite getPauseInsights_query_fails, read_local_stored by assumption.
    rewrite stored_list_advance.
    destruct (stored_list (insights_key sid) w); [intros [= <- _]; auto | ].
    discriminate.
  - rewrite getPauseInsights_probe_fails, read_local_stored by assumption.
    rewrite stored_list_advance.
    destruct (stored_list (insights_key sid) w); [intros [= <- _]; auto | ].
    discriminate.
Qed.

Lemma save_session_locally_outcome (up : nat -> bool) (s : VideoSession.t)
    (w : world) (P : world -> Prop) :
  session_save_outcome s w (save_session_locally up s w) P.
Proof.
  unfold session_save_outcome, save_session_locally,
    Quota.save_session_locally.
  pose proof (getVideoSessions_world up (VideoSession.user_id s) w) as Hw.
  destruct (getVideoSessions up (VideoSession.user_id s) w) as [l w' | w']
    eqn:E; cbn [world_of bind save_outcome Quota.setItem Quota.roomy] in *;
    subst w'.
  - right. repeat split. exists l.
    split; [exact (getVideoSessions_returns _ _ _ _ _ E) | reflexivity].
  - split; [repeat split | ]. exact (getVideoSessions_raises _ _ _ _ E).
Qed.

Lemma save_insight_locally_outcome (up : nat -> bool) (i : PauseInsight.t)
    (w : world) (P : world -> Prop) :
  insight_save_outcome i w (save_insight_locally up i w) P.
Proof.
  unfold insight_save_outcome, save_insight_locally,
    Quota.save_insight_locally.
  pose proof (getPauseInsights_world up (PauseInsight.session_id i) w) as Hw.
  destruct (getPauseInsights up (PauseInsight.session_id i) w) as [l w' | w']
    eqn:E; cbn [world_of bind save_outcome Quota.setItem Quota.roomy] in *;
    subst w'.
  - right. repeat split. exists l.
    split; [exact (getPauseInsights_returns _ _ _ _ _ E) | reflexivity].
  - split; [repeat split | ]. exact (getPauseInsights_raises _ _ _ _ E).
Qed.

Lemma session_save_outcome_advance (s : VideoSession.t) (n : nat) (b : bool)
    (w : world) (r : result unit) (P : world -> Prop) :
  session_save_outcome s (advance n b w) r P -> session_save_outcome s w r P.
Proof. destruct r; exact (fun H => H). Qed.

Lemma insight_save_outcome_advance (i : PauseInsight.t) (n : nat) (b : bool)
    (w : world) (r : result unit) (P : world -> Prop) :
  insight_save_outcome i (advance n b w) r P -> insight_save_outcome i w r P.
Proof. destruct r; exact (fun H => H). Qed.

Lemma saveVideoSession_outcome (up : nat -> bool) (s : VideoSession.t)
    (w : world) :
  session_save_outcome s w (saveVideoSession up s w)
                       (session_written_remotely s w).
Proof.
  destruct (up (calls w)) eqn:H1; [destruct (up (S (calls w))) eqn:H2;
    [destruct (up (S (S (calls w)))) eqn:H3 | ] | ].
  - rewrite saveVideoSession_remote by assumption. left.
    split; [reflexivity | split; [reflexivity | ]].
    cbn [videoSessions set_videoSessions advance].
    rewrite existing_is_pair_row.
    destruct (List.filter _ (videoSessions w)); reflexivity.
  - rewrite saveVideoSession_write_fails by assumption.
    eapply session_save_outcome_advance, save_session_locally_outcome.
  - rewrite saveVideoSession_lookup_fails by assumption.
    eapply session_save_outcome_advance, save_session_locally_outcome.
  - rewrite saveVideoSession_probe_fails by assumption.
    eapply session_save_outcome_advance, save_session_locally_outcome.
Qed.

Lemma savePauseInsight_outcome (up : nat -> bool) (i : PauseInsight.t)
    (w : world) :
  insight_save_outcome i w (savePauseInsight up i w)
                       (insight_written_remotely i w).
Proof.
  destruct (up (calls w)) eqn:H1; [destruct (up (S (calls w))) eqn:H2 | ].
  - rewrite savePauseInsight_remote by assumption. left.
    repeat split; reflexivity.
  - rewrite savePauseInsight_write_fails by assumption.
    eapply insight_save_outcome_advance, save_insight_locally_outcome.
  - rewrite savePauseInsight_probe_fails by assumption.
    eapply insight_save_outcome_advance, save_insight_locally_outcome.
Qed.

(** The same, in a browser with a quota. *)
Lemma save_outcome_within_advance (room : Quota.t) (key : string)
    (merged : list obj -> list obj) (listed : list obj) (n : nat) (b : bool)
    (w : world) (r : result unit) (P : world -> Prop) :
  save_outcome_within room key merged listed (advance n b w) r P ->
  save_outcome_within room key merged listed w r P.
Proof. destruct r; exact (fun H => H). Qed.

Lemma save_session_locally_outcome_within (room : Quota.t) (up : nat -> bool)
    (s : VideoSession.t) (w : world) (P : world -> Prop) :
  save_outcome_within room (sessions_key (VideoSession.user_id s))
    (merge_session s)
    (Remote.list_ (videoSessions w) (sessions_query (VideoSession.user_id s)))
    w (Quota.save_session_locally room up s w) P.
Proof.
  unfold Quota.save_session_locally.
  pose proof (getVideoSessions_world up (VideoSession.user_id s) w) as Hw.
  destruct (getVideoSessions up (VideoSession.user_id s) w) as [l w' | w']
    eqn:E; cbn [world_of bind] in *; subst w'.
  - unfold Quota.setItem. cbn [localStorage advance].
    destruct (room _) eqn:Er; cbn [save_outcome_within].
    + right. split; [ | exact Er]. repeat split. exists l.
      split; [exact (getVideoSessions_returns _ _ _ _ _ E) | reflexivity].
    + split; [repeat split | ]. right. exists l.
      split; [exact (getVideoSessions_returns _ _ _ _ _ E) | exact Er].
  - split; [repeat split | ]. left. exact (getVideoSessions_raises _ _ _ _ E).
Qed.

Lemma save_insight_locally_outcome_within (room : Quota.t) (up : nat -> bool)
    (i : PauseInsight.t) (w : world) (P : world -> Prop) :
  save_outcome_within room (insights_key (PauseInsight.session_id i))
    (push_insight i)
    (Remote.list_ (pauseInsights w)
                  (insights_query (PauseInsight.session_id i)))
    w (Quota.save_insight_locally room up i w) P.
Proof.
  unfold Quota.save_insight_locally.
  pose proof (getPauseInsights_world up (PauseInsight.session_id i) w) as Hw.
  destruct (getPauseInsights up (PauseInsight.session_id i) w) as [l w' | w']
    eqn:E; cbn [world_of bind] in *; subst w'.
  - unfold Quota.setItem. cbn [localStorage advance].
    fold (push_insight i l).
    destruct (room _) eqn:Er; cbn [save_outcome_within].
    + right. split; [ | exact Er]. repeat split. exists l.
      split; [exact (getPauseInsights_returns _ _ _ _ _ E) | reflexivity].
    + split; [repeat split | ]. right. exists l.
      split; [exact (getPauseInsights_returns _ _ _ _ _ E) | exact Er].
  - split; [repeat split | ]. left. exact (getPauseInsights_raises _ _ _ _ E).
Qed.

Lemma saveVideoSession_outcome_within (room : Quota.t) (up : nat -> bool)
    (s : VideoSession.t) (w : world) :
  save_outcome_within room (sessions_key (VideoSession.user_id s))
    (merge_session s)
    (Remote.list_ (videoSessions w) (sessions_query (VideoSession.user_id s)))
    w (Quota.saveVideoSession room up s w) (session_written_remotely s w).
Proof.
  destruct (up (calls w)) eqn:H1; [destruct (up (S (calls w))) eqn:H2;
    [destruct (up (S (S (calls w)))) eqn:H3 | ] | ].
  - rewrite saveVideoSession_remote_within by assumption. left.
    split; [reflexivity | split; [reflexivity | ]].
    cbn [videoSessions set_videoSessions advance].
    rewrite existing_is_pair_row.
    destruct (List.filter _ (videoSessions w)); reflexivity.
  - rewrite saveVideoSession_write_fails_within by assumption.
    apply (save_outcome_within_advance _ _ _ _ 3 false).
    exact (save_session_locally_outcome_within room up s (advance 3 false w) _).
  - rewrite saveVideoSession_lookup_fails_within by assumption.
    apply (save_outcome_within_advance _ _ _ _ 2 false).
    exact (save_session_locally_outcome_within room up s (advance 2 false w) _).
  - rewrite saveVideoSession_probe_fails_within by assumption.
    apply (save_outcome_within_advance _ _ _ _ 1 false).
    exact (save_session_locally_outcome_within room up s (advance 1 false w) _).
Qed.

Lemma savePauseInsight_outcome_within (room : Quota.t) (up : nat -> bool)
    (i : PauseInsight.t) (w : world) :
  save_outcome_within room (insights_key (PauseInsight.session_id i))
    (push_insight i)
    (Remote.list_ (pauseInsights w)
                  (insights_query (PauseInsight.session_id i)))
    w (Quota.savePauseInsight room up i w) (insight_written_remotely i w).
Proof.
  destruct (up (calls w)) eqn:H1; [destruct (up (S (calls w))) eqn:H2 | ].
  - rewrite savePauseInsight_remote_within by assumption. left.
    repeat split; reflexivity.
  - rewrite savePauseInsight_write_fails_within by assumption.
    apply (save_outcome_within_advance _ _ _ _ 2 false).
    exact (save_insight_locally_outcome_within room up i (advance 2 false w) _).
  - rewrite savePauseInsight_probe_fails_within by assumption.
    apply (save_outcome_within_advance _ _ _ _ 1 false).
    exact (save_insight_locally_outcome_within room up i (advance 1 false w) _).
Qed.

(** X4: a save writes one store and only one, whatever the backend
    answers and whatever the quota of local storage.  When it returns,
    either the table of its record kind got its row (one row created when
    the pair had none, else the update applied by the id of its first row)
    and local storage is as before, or both tables are as before and one
    list was written under the key of the record, and fits: the list the
    local branch loaded (the stored list, or the rows the backend listed
    to the second probe) with the record merged in.  The table of the
    other kind is never touched.  When it raises, nothing was written
    anywhere, and either the value stored under its key is malformed or
    the list it had to write does not fit in the quota.  The stored values
    are those of [text]: a value that parses to something other than an
    array is not among them. *)
Theorem save_writes_one_store
    (room : Quota.t) (up : nat -> bool) (s : VideoSession.t)
    (i : PauseInsight.t) (w : world) :
  save_outcome_within room (sessions_key (VideoSession.user_id s))
    (merge_session s)
    (Remote.list_ (videoSessions w) (sessions_query (VideoSession.user_id s)))
    w (Quota.saveVideoSession room up s w) (session_written_remotely s w) /\
  save_outcome_within room (insights_key (PauseInsight.session_id i))
    (push_insight i)
    (Remote.list_ (pauseInsights w)
                  (insights_query (PauseInsight.session_id i)))
    w (Quota.savePauseInsight room up i w) (insight_written_remotely i w).
Proof.
  split; [apply saveVideoSession_outcome_within
         | apply savePauseInsight_outcome_within].
Qed.

(** ** What holds along every run *)

Lemma world_of_bind_ok {A B} (m : result A) (f : A -> B) :
  world_of (bind m (fun a w' => Ok (f a) w')) = world_of m.
Proof. destruct m; reflexivity. Qed.

Section RunInvariant.
Variable up : nat -> bool.
Variable R : world -> world -> Prop.
Hypothesis R_refl : forall w, R w w.
Hypothesis R_trans : forall w1 w2 w3, R w1 w2 -> R w2 w3 -> R w1 w3.
Hypothesis R_op : forall o w, R w (world_of (run_op up o w)).

Lemma run_invariant (os : list op) : forall w, R w (world_of (run up os w)).
Proof.
  induction os as [ | o os IH]; intros w; [apply R_refl | ].
  cbn [run]. specialize (R_op o w).
  destruct (run_op up o w) as [r w1 | w1]; cbn [bind world_of] in *.
  - rewrite (world_of_bind_ok (run up os w1) (cons r)).
    exact (R_trans _ _ _ R_op (IH w1)).
  - exact R_op.
Qed.

End RunInvariant.

Lemma world_of_run_op (up : nat -> bool) (o : op) (w : world) :
  world_of (run_op up o w) =
  match o with
  | ListSessions u => world_of (getVideoSessions up u w)
  | SaveSession s => world_of (saveVideoSession up s w)
  | ListInsights sid => world_of (getPauseInsights up sid w)
  | SaveInsight i => world_of (savePauseInsight up i w)
  end.
Proof.
  destruct o; cbn [run_op]; try reflexivity;
    apply (world_of_bind_ok _ (fun _ => [])).
Qed.

Lemma keeps_rows_refl (t : list obj) : keeps_rows t t.
Proof. intros n row H. eauto. Qed.

Lemma keeps_rows_trans (t1 t2 t3 : list obj) :
  keeps_rows t1 t2 -> keeps_rows t2 t3 -> keeps_rows t1 t3.
Proof.
  intros H12 H23 n row H.
  destruct (H12 n row H) as (row2 & H2 & F2).
  destruct (H23 n row2 H2) as (row3 & H3 & F3).
  exists row3. split; [exact H3 | ].
  intros field Hf. rewrite F3, F2 by exact Hf. reflexivity.
Qed.

Lemma keeps_rows_create (t : list obj) (record : obj) :
  keeps_rows t (Remote.create t record).
Proof.
  intros n row H. exists row. split; [ | reflexivity].
  unfold Remote.create. apply lookup_app_l_Some, H.
Qed.

Lemma keeps_rows_update (t : list obj) (idv : option value)
    (s : VideoSession.t) :
  keeps_rows t (Remote.update t idv (update_of_session s)).
Proof.
  intros n row H.
  destruct (update_frame t idv (update_of_session s) n row H)
    as (row' & H' & F).
  exists row'. split; [exact H' | ].
  intros field Hf. apply F, update_of_session_lookup, Hf.
Qed.

Lemma keeps_backend_op (up : nat -> bool) (o : op) (w : world) :
  keeps_backend w (world_of (run_op up o w)).
Proof.
  rewrite world_of_run_op. destruct o as [u | s | sid | i].
  - rewrite getVideoSessions_world. split; [apply keeps_rows_refl | reflexivity].
  - pose proof (saveVideoSession_outcome up s w) as H.
    destruct (saveVideoSession up s w) as [[] w' | w'];
      cbn [save_outcome world_of] in *.
    + destruct H as [(Hp & _ & Hw) | (Hv & Hp & _)];
        [destruct (List.filter _ (videoSessions w)) | ];
        split; rewrite ?Hp, ?Hv, ?Hw;
        auto using keeps_rows_refl, keeps_rows_create, keeps_rows_update.
    + destruct H as [(Hv & Hp & _) _]. split; rewrite ?Hp, ?Hv;
        auto using keeps_rows_refl.
  - rewrite getPauseInsights_world. split; [apply keeps_rows_refl | reflexivity].
  - pose proof (savePauseInsight_outcome up i w) as H.
    destruct (savePauseInsight up i w) as [[] w' | w'];
      cbn [save_outcome world_of] in *.
    + destruct H as [(Hv & _ & Hc) | (Hv & Hp & _)];
        split; rewrite ?Hp, ?Hv, ?Hc; auto using keeps_rows_refl.
      unfold Remote.create. apply prefix_app_r. reflexivity.
    + destruct H as [(Hv & Hp & _) _]. split; rewrite ?Hp, ?Hv;
        auto using keeps_rows_refl.
Qed.

(** X5: no run of calls of the facade, whatever the backend answers,
    loses a row of the backend: every row of the sessions table is still
    in its place with its id, video id, thumbnail and user id (every field
    but the four of the update), and the insights table only grows at its
    end. *)
Theorem backend_rows_are_never_lost
    (up : nat -> bool) (os : list op) (w : world) :
  keeps_backend w (world_of (run up os w)).
Proof.
  apply (run_invariant up keeps_backend).
  - intros w0. split; [apply keeps_rows_refl | reflexivity].
  - intros w1 w2 w3 [H12 P12] [H23 P23]. split.
    + exact (keeps_rows_trans _ _ _ H12 H23).
    + etransitivity; eassumption.
  - apply keeps_backend_op.
Qed.

(** ** The keys of local storage *)

Lemma sessions_key_inj (u u' : string) :
  sessions_key u = sessions_key u' -> u = u'.
Proof. unfold sessions_key. cbn. intros H. injection H as H. exact H. Qed.

Lemma insights_key_inj (sid sid' : string) :
  insights_key sid = insights_key sid' -> sid = sid'.
Proof. unfold insights_key. cbn. intros H. injection H as H. exact H. Qed.

Lemma sessions_key_not_insights_key (u sid : string) :
  sessions_key u <> insights_key sid.
Proof. unfold sessions_key, insights_key. cbn. discriminate. Qed.

(** The keys a save leaves alone, read off its outcome. *)
Lemma save_outcome_other_key (key key' : string)
    (merged : list obj -> list obj) (listed : list obj) (w : world)
    (r : result unit) (P : world -> Prop) :
  save_outcome key merged listed w r P ->
  (forall w', P w' -> localStorage w' = localStorage w) ->
  key <> key' ->
  localStorage (world_of r) !! key' = localStorage w !! key'.
Proof.
  intros H HP Hne. destruct r as [[] w' | w']; cbn [save_outcome world_of] in *.
  - destruct H as [H | (_ & _ & old & _ & ->)].
    + rewrite (HP w' H). reflexivity.
    + apply lookup_insert_ne, Hne.
  - destruct H as [(_ & _ & ->) _]. reflexivity.
Qed.

(** X6: a save touches one key of local storage at most, the key of its
    own user (or session).  The lists of every other user and of every
    other session are as before, and a save of a session never touches a
    list of insights nor a save of an insight a list of sessions: no two
    of these keys are the same string. *)
Theorem saves_touch_one_key
    (up : nat -> bool) (s : VideoSession.t) (i : PauseInsight.t) (w : world)
    (u sid : string) :
  let ws := world_of (saveVideoSession up s w) in
  let wi := world_of (savePauseInsight up i w) in
  (u <> VideoSession.user_id s ->
   localStorage ws !! sessions_key u = localStorage w !! sessions_key u) /\
  (localStorage ws !! insights_key sid = localStorage w !! insights_key sid) /\
  (sid <> PauseInsight.session_id i ->
   localStorage wi !! insights_key sid = localStorage w !! insights_key sid) /\
  (localStorage wi !! sessions_key u = localStorage w !! sessions_key u).
Proof.
  cbv zeta.
  pose proof (saveVideoSession_outcome up s w) as Hs.
  pose proof (savePauseInsight_outcome up i w) as Hi.
  assert (Ps : forall w', session_written_remotely s w w' ->
                          localStorage w' = localStorage w)
    by (intros w' (_ & H & _); exact H).
  assert (Pi : forall w', insight_written_remotely i w w' ->
                          localStorage w' = localStorage w)
    by (intros w' (_ & H & _); exact H).
  repeat apply conj.
  - intros Hu. apply (save_outcome_other_key _ _ _ _ _ _ _ Hs Ps).
    intros H. apply sessions_key_inj in H. congruence.
  - apply (save_outcome_other_key _ _ _ _ _ _ _ Hs Ps).
    apply sessions_key_not_insights_key.
  - intros Hsid. apply (save_outcome_other_key _ _ _ _ _ _ _ Hi Pi).
    intros H. apply insights_key_inj in H. congruence.
  - apply (save_outcome_other_key _ _ _ _ _ _ _ Hi Pi).
    intros H. symmetry in H. exact (sessions_key_not_insights_key _ _ H).
Qed.

(** X6 for a save of [first_save] (user u1) and of an insight of session
    sess1, seen from user u2 and session sess2, with the backend down. *)
Lemma saves_touch_one_key_witness :
  localStorage (world_of (saveVideoSession always_down first_save busy_world))
    !! sessions_key "u2" = localStorage busy_world !! sessions_key "u2" /\
  localStorage
    (world_of (savePauseInsight always_down (insight_at "3" 150) busy_world))
    !! insights_key "sess2" = localStorage busy_world !! insights_key "sess2".
Proof.
  pose proof (saves_touch_one_key always_down first_save (insight_at "3" 150)
                busy_world "u2" "sess2") as (Hs & _ & Hi & _).
  split; [apply Hs | apply Hi]; discriminate.
Defined.

Lemma capped_op (up : nat -> bool) (o : op) (w : world) :
  capped w -> capped (world_of (run_op up o w)).
Proof.
  intros Hc. rewrite world_of_run_op. destruct o as [u | s | sid | i].
  - rewrite getVideoSessions_world. exact Hc.
  - pose proof (saveVideoSession_outcome up s w) as H.
    destruct (saveVideoSession up s w) as [[] w' | w'];
      cbn [save_outcome world_of] in *.
    + destruct H as [(_ & Hl & _) | (_ & _ & old & _ & Hl)];
        intros u l; rewrite Hl; [apply Hc | ].
      destruct (decide (sessions_key (VideoSession.user_id s) = sessions_key u))
        as [<- | Hne].
      * rewrite lookup_insert_eq. intros [= <-]. apply merge_session_length.
      * rewrite lookup_insert_ne by exact Hne. apply Hc.
    + destruct H as [(_ & _ & Hl) _]. intros u l. rewrite Hl. apply Hc.
  - rewrite getPauseInsights_world. exact Hc.
  - pose proof (savePauseInsight_outcome up i w) as H.
    destruct (savePauseInsight up i w) as [[] w' | w'];
      cbn [save_outcome world_of] in *.
    + destruct H as [(_ & Hl & _) | (_ & _ & old & _ & Hl)];
        intros u l; rewrite Hl; [apply Hc | ].
      rewrite lookup_insert_ne; [apply Hc | ].
      intros E. symmetry in E. exact (sessions_key_not_insights_key _ _ E).
    + destruct H as [(_ & _ & Hl) _]. intros u l. rewrite Hl. apply Hc.
Qed.

(** X7: the cap of twenty is kept along every run: if no list of sessions
    in local storage is longer than twenty, then after any calls of the
    facade, whatever the backend answers, none is. *)
Theorem local_cap_is_kept (up : nat -> bool) (os : list op) (w : world) :
  capped w -> capped (world_of (run up os w)).
Proof.
  apply (run_invariant up (fun w w' => capped w -> capped w')).
  - auto.
  - auto.
  - intros o w0. apply capped_op.
Qed.

(** X7 from nothing stored, for any run. *)
Lemma local_cap_is_kept_witness :
  capped (world_of (run (up_from 3)
                        [SaveSession first_save; SaveSession other_video;
                         ListSessions "u1"] init)).
Proof.
  apply local_cap_is_kept. intros u l. unfold init. cbn [localStorage].
  rewrite lookup_empty. discriminate.
Defined.

(** ** Saving and then listing *)

Lemma merge_session_found (s : VideoSession.t) (l : list obj) (n : nat) :
  findIndex (same_video (VideoSession.video_id s)) l = Some n ->
  merge_session s l = take 20 (<[n := obj_of_session s]> l).
Proof. intros H. unfold merge_session. rewrite H. reflexivity. Qed.

Lemma merge_session_holds_session (s : VideoSession.t) (l : list obj) :
  length l <= 20 -> obj_of_session s ∈ merge_session s l.
Proof.
  intros Hlen. unfold merge_session.
  destruct (findIndex (same_video (VideoSession.video_id s)) l) as [n | ] eqn:E.
  - destruct (findIndex_some _ _ _ E) as (x & Hx & _).
    apply lookup_lt_Some in Hx.
    rewrite take_ge by (rewrite length_insert; lia).
    apply list_elem_of_lookup. exists n.
    apply list_lookup_insert_eq, Hx.
  - cbn. left.
Qed.

(** X8: the local branch, saving and then listing (backend down, the
    stored value readable).  The listing is the list the save stored: never
    longer than twenty; a session of a video that was not in the list is at
    the front, before the first nineteen of the old entries (the twentieth
    is dropped); a session of a video that was in the list stands where the
    old entry stood and every other entry is as it was; and when the old
    list had at most twenty entries the saved session is in the listing.
    For insights the listing is the old list followed by the saved one. *)
Theorem local_save_then_list
    (s : VideoSession.t) (i : PauseInsight.t) (w : world) :
  let u := VideoSession.user_id s in
  let v := VideoSession.video_id s in
  let sid := PauseInsight.session_id i in
  (forall old,
     stored_list (sessions_key u) w = Some old ->
     exists w1 w2 listed,
       saveVideoSession always_down s w = Ok tt w1 /\
       getVideoSessions always_down u w1 = Ok listed w2 /\
       length listed <= 20 /\
       (List.filter (same_video v) old = [] ->
        listed = obj_of_session s :: take 19 old) /\
       (forall n, findIndex (same_video v) old = Some n ->
                  listed = take 20 (<[n := obj_of_session s]> old)) /\
       (length old <= 20 -> obj_of_session s ∈ listed)) /\
  (forall old,
     stored_list (insights_key sid) w = Some old ->
     exists w1 w2,
       savePauseInsight always_down i w = Ok tt w1 /\
       getPauseInsights always_down sid w1
       = Ok (old ++ [obj_of_insight i]) w2).
Proof.
  cbv zeta. split; intros old Hold.
  - eexists _, _, (merge_session s old).
    split; [apply saveVideoSession_always_down, Hold | ].
    split; [apply getVideoSessions_always_down, stored_list_setItem | ].
    split; [apply merge_session_length | ].
    split; [apply merge_session_new | ].
    split; [intros n; apply merge_session_found | ].
    apply merge_session_holds_session.
  - eexists _, _.
    split; [apply savePauseInsight_always_down, Hold | ].
    apply getPauseInsights_always_down, stored_list_setItem.
Qed.

(** X8 on the store of [busy_world], which holds [first_save] for u1 and
    one insight for sess1. *)
Lemma local_save_then_list_witness :
  (exists w1 w2 listed,
     saveVideoSession always_down other_video busy_world = Ok tt w1 /\
     getVideoSessions always_down "u1" w1 = Ok listed w2 /\
     listed = [obj_of_session other_video; obj_of_session first_save] /\
     obj_of_session other_video ∈ listed) /\
  (exists w1 w2 listed,
     saveVideoSession always_down watched_again busy_world = Ok tt w1 /\
     getVideoSessions always_down "u1" w1 = Ok listed w2 /\
     listed = [obj_of_session watched_again]) /\
  (exists w1 w2,
     savePauseInsight always_down (insight_at "3" 150) busy_world = Ok tt w1 /\
     getPauseInsights always_down "sess1" w1
     = Ok [obj_of_insight (insight_at "2" 90);
           obj_of_insight (insight_at "3" 150)] w2).
Proof.
  assert (Hs : stored_list (sessions_key "u1") busy_world
               = Some [obj_of_session first_save]) by by_evaluation.
  assert (Hi : stored_list (insights_key "sess1") busy_world
               = Some [obj_of_insight (insight_at "2" 90)]) by by_evaluation.
  repeat apply conj.
  - destruct (local_save_then_list other_video (insight_at "3" 150) busy_world)
      as [H _].
    destruct (H _ Hs) as (w1 & w2 & listed & E1 & E2 & _ & Hnew & _ & Hin).
    exists w1, w2, listed. repeat split; try assumption.
    + apply Hnew. by_evaluation.
    + apply Hin. cbn. lia.
  - destruct (local_save_then_list watched_again (insight_at "3" 150)
                busy_world) as [H _].
    destruct (H _ Hs) as (w1 & w2 & listed & E1 & E2 & _ & _ & Hfound & _).
    exists w1, w2, listed. repeat split; try assumption.
    apply (Hfound 0). by_evaluation.
  - destruct (local_save_then_list other_video (insight_at "3" 150) busy_world)
      as [_ H].
    exact (H _ Hi).
Defined.

(** ** Saving and then listing insights through the backend *)

Lemma insert_by_Permutation (le : obj -> obj -> bool) (x : obj) (l : list obj) :
  Permutation (Remote.insert_by le x l) (x :: l).
Proof.
  induction l as [ | y l IH]; cbn; [reflexivity | ].
  destruct (le x y); [reflexivity | ].
  rewrite IH. apply perm_swap.
Qed.

Lemma sort_by_Permutation (le : obj -> obj -> bool) (l : list obj) :
  Permutation (Remote.sort_by le l) l.
Proof.
  induction l as [ | x l IH]; cbn; [reflexivity | ].
  rewrite insert_by_Permutation, IH. reflexivity.
Qed.

Lemma insights_of_session_wire (i : PauseInsight.t) (sid : string) :
  Remote.matches [("sessionId", sid)] (wire_of_insight i)
  = bool_decide (PauseInsight.session_id i = sid).
Proof.
  unfold Remote.matches. cbn [forallb fst snd].
  change (wire_of_insight i !! "sessionId")
    with (Some (VStr (PauseInsight.session_id i))).
  cbn [strict_eq_str]. apply andb_true_r.
Qed.

(** X9: with the backend answering, [savePauseInsight] followed by
    [getPauseInsights] of the same session returns the rows listed before
    and the saved insight, each once and none lost (the query has no
    limit), in the order of the timestamps; the listing of any other
    session is what it was before the save. *)
Theorem remote_insight_save_then_list
    (i : PauseInsight.t) (sid : string) (w : world) :
  exists before after w0 w1 w2,
    getPauseInsights always_up sid w = Ok before w0 /\
    savePauseInsight always_up i w = Ok tt w1 /\
    getPauseInsights always_up sid w1 = Ok after w2 /\
    Sorted (fun a b => Remote.key_leb (a !! "timestamp") (b !! "timestamp")
                       = true) after /\
    (sid = PauseInsight.session_id i ->
     Permutation after (wire_of_insight i :: before)) /\
    (sid <> PauseInsight.session_id i -> after = before).
Proof.
  eexists _, _, _, _, _.
  split; [apply getPauseInsights_remote; reflexivity | ].
  split; [apply savePauseInsight_remote; reflexivity | ].
  split; [apply getPauseInsights_remote; reflexivity | ].
  cbn [pauseInsights set_pauseInsights advance].
  split; [apply RemoteFacts.insights_query_sorted | ].
  unfold Remote.list_, insights_query, Remote.create.
  cbn [Remote.where_ Remote.orderBy Remote.limit].
  rewrite List.filter_app. cbn [List.filter].
  rewrite insights_of_session_wire. split.
  - intros ->. rewrite bool_decide_eq_true_2 by reflexivity.
    rewrite !sort_by_Permutation.
    symmetry. apply Permutation_cons_append.
  - intros Hne. rewrite bool_decide_eq_false_2 by congruence.
    rewrite app_nil_r. reflexivity.
Qed.

(** X9 on the table of [busy_world], which has one insight of sess1. *)
Lemma remote_insight_save_then_list_witness :
  exists before after w0 w1 w2,
    getPauseInsights always_up "sess1" busy_world = Ok before w0 /\
    savePauseInsight always_up (insight_at "3" 150) busy_world = Ok tt w1 /\
    getPauseInsights always_up "sess1" w1 = Ok after w2 /\
    Permutation after (wire_of_insight (insight_at "3" 150) :: before).
Proof.
  destruct (remote_insight_save_then_list (insight_at "3" 150) "sess1"
              busy_world)
    as (before & after & w0 & w1 & w2 & E0 & E1 & E2 & _ & Hsame & _).
  exists before, after, w0, w1, w2. repeat split; try assumption.
  apply Hsame. reflexivity.
Defined.

(** ** One record per user and video, along every run *)

Lemma pair_row_wire_of (u v : string) (s : VideoSession.t) :
  pair_row u v (wire_of_session s)
  = bool_decide (VideoSession.video_id s = v)
    && bool_decide (VideoSession.user_id s = u).
Proof.
  unfold pair_row, Remote.matches. cbn [forallb fst snd].
  change (wire_of_session s !! "videoId")
    with (Some (VStr (VideoSession.video_id s))).
  change (wire_of_session s !! "userId")
    with (Some (VStr (VideoSession.user_id s))).
  cbn [strict_eq_str]. rewrite andb_true_r. reflexivity.
Qed.

Lemma one_row_per_pair_create (t : list obj) (s : VideoSession.t) :
  one_row_per_pair t ->
  List.filter (pair_row (VideoSession.user_id s) (VideoSession.video_id s)) t
    = [] ->
  one_row_per_pair (Remote.create t (wire_of_session s)).
Proof.
  intros H Hnone u v. unfold Remote.create.
  rewrite List.filter_app, length_app. cbn [List.filter].
  rewrite pair_row_wire_of.
  destruct (bool_decide (VideoSession.video_id s = v)) eqn:Ev;
    [destruct (bool_decide (VideoSession.user_id s = u)) eqn:Eu | ];
    cbn [andb length]; try (specialize (H u v); lia).
  apply bool_decide_eq_true_1 in Ev, Eu. subst u v.
  rewrite Hnone. cbn. lia.
Qed.

Lemma one_row_per_pair_update (t : list obj) (idv : option value)
    (s : VideoSession.t) :
  one_row_per_pair t ->
  one_row_per_pair (Remote.update t idv (update_of_session s)).
Proof.
  intros H u v. unfold Remote.update. rewrite filter_map_invariant.
  - rewrite length_map. apply H.
  - intros row. destruct (Remote.has_id idv row); [ | reflexivity].
    apply pair_row_update.
Qed.

Lemma one_row_per_pair_op (up : nat -> bool) (o : op) (w : world) :
  one_row_per_pair (videoSessions w) ->
  one_row_per_pair (videoSessions (world_of (run_op up o w))).
Proof.
  intros H. rewrite world_of_run_op. destruct o as [u | s | sid | i].
  - rewrite getVideoSessions_world. exact H.
  - pose proof (saveVideoSession_outcome up s w) as Ho.
    destruct (saveVideoSession up s w) as [[] w' | w'];
      cbn [save_outcome session_save_outcome world_of] in *.
    + destruct Ho as [(_ & _ & Hw) | (-> & _)]; [ | exact H].
      destruct (List.filter _ (videoSessions w)) eqn:E; rewrite Hw.
      * apply one_row_per_pair_create; assumption.
      * apply one_row_per_pair_update, H.
    + destruct Ho as [(-> & _) _]. exact H.
  - rewrite getPauseInsights_world. exact H.
  - pose proof (savePauseInsight_outcome up i w) as Ho.
    destruct (savePauseInsight up i w) as [[] w' | w'];
      cbn [save_outcome insight_save_outcome world_of] in *.
    + destruct Ho as [(-> & _) | (-> & _)]; exact H.
    + destruct Ho as [(-> & _) _]. exact H.
Qed.

(** X10: the sessions table never gets a second row for a user and a
    video.  If it has at most one row per pair, it has at most one row per
    pair after any run of calls, whatever the backend answers: every write
    to the table follows a lookup of the pair in the same call. *)
Theorem backend_keeps_one_row_per_pair
    (up : nat -> bool) (os : list op) (w : world) :
  one_row_per_pair (videoSessions w) ->
  one_row_per_pair (videoSessions (world_of (run up os w))).
Proof.
  apply (run_invariant up
           (fun w w' => one_row_per_pair (videoSessions w) ->
                        one_row_per_pair (videoSessions w'))).
  - auto.
  - auto.
  - intros o w0. apply one_row_per_pair_op.
Qed.

(** X10 from the empty table, for a backend that fails now and then. *)
Lemma backend_keeps_one_row_per_pair_witness :
  one_row_per_pair
    (videoSessions
       (world_of (run (fails_only 4)
                      [SaveSession first_save; SaveSession started_again;
                       SaveSession watched_again] init))).
Proof.
  apply backend_keeps_one_row_per_pair. intros u v. cbn. lia.
Defined.

Section FilterCounts.
Variable p : obj -> bool.

Lemma filter_length_take (n : nat) (l : list obj) :
  length (List.filter p (take n l)) <= length (List.filter p l).
Proof.
  revert n. induction l as [ | x l IH]; intros [ | n]; cbn; try lia.
  specialize (IH n). destruct (p x); cbn; lia.
Qed.

Lemma filter_length_filter (q : obj -> bool) (l : list obj) :
  length (List.filter p (List.filter q l)) <= length (List.filter p l).
Proof.
  induction l as [ | x l IH]; cbn; [lia | ].
  destruct (q x); cbn; destruct (p x); cbn; lia.
Qed.

Lemma filter_length_insert_by (le : obj -> obj -> bool) (x : obj)
    (l : list obj) :
  length (List.filter p (Remote.insert_by le x l))
  = length (List.filter p (x :: l)).
Proof.
  induction l as [ | y l IH]; cbn; [reflexivity | ].
  destruct (le x y); cbn; [reflexivity | ].
  cbn in IH. destruct (p y), (p x); cbn in *; lia.
Qed.

Lemma filter_length_sort_by (le : obj -> obj -> bool) (l : list obj) :
  length (List.filter p (Remote.sort_by le l)) = length (List.filter p l).
Proof.
  induction l as [ | x l IH]; cbn; [reflexivity | ].
  rewrite filter_length_insert_by. cbn. destruct (p x); cbn; lia.
Qed.

Lemma filter_length_list (t : list obj) (q : Remote.query) :
  length (List.filter p (Remote.list_ t q)) <= length (List.filter p t).
Proof.
  unfold Remote.list_.
  pose proof (filter_length_filter (Remote.matches (Remote.where_ q)) t) as H.
  destruct (Remote.orderBy q) as [[field d] | ], (Remote.limit q) as [n | ];
    try (etransitivity; [apply filter_length_take | ]);
    rewrite ?filter_length_sort_by; exact H.
Qed.

Lemma filter_length_replace (l : list obj) (n : nat) (x y : obj) :
  l !! n = Some y -> p x = p y ->
  length (List.filter p (<[n := x]> l)) = length (List.filter p l).
Proof.
  revert n. induction l as [ | z l IH]; intros [ | n]; try discriminate.
  - cbn. intros [= ->] ->. destruct (p y); reflexivity.
  - intros Hn Hp. specialize (IH n Hn Hp).
    change (<[S n := x]> (z :: l)) with (z :: <[n := x]> l).
    cbn [List.filter]. destruct (p z); cbn [length]; rewrite IH; reflexivity.
Qed.

End FilterCounts.

Lemma same_video_of_field (v v0 : string) (x : obj) :
  x !! "video_id" = Some (VStr v0) -> same_video v x = bool_decide (v0 = v).
Proof. unfold same_video. intros ->. reflexivity. Qed.

(** The merge of the local branch adds no second entry of a video. *)
Lemma one_entry_per_video_merge (s : VideoSession.t) (old : list obj) :
  one_entry_per_video old -> one_entry_per_video (merge_session s old).
Proof.
  intros H v. unfold merge_session.
  etransitivity; [apply filter_length_take | ].
  destruct (findIndex (same_video (VideoSession.video_id s)) old)
    as [n | ] eqn:E.
  - destruct (findIndex_some _ _ _ E) as (y & Hy & Hsame).
    rewrite (filter_length_replace (same_video v) old n _ y Hy); [apply H | ].
    rewrite same_video_obj.
    symmetry. apply same_video_of_field, same_video_field, Hsame.
  - apply findIndex_none in E. cbn [List.filter]. rewrite same_video_obj.
    destruct (bool_decide (VideoSession.video_id s = v)) eqn:Ev; [ | apply H].
    apply bool_decide_eq_true_1 in Ev. subst v. rewrite E. cbn. lia.
Qed.

Lemma same_video_written_row (v : string) (s : VideoSession.t) (row : obj) :
  same_video v (wire_of_session s) = false /\
  same_video v (update_of_session s ∪ row) = same_video v row.
Proof.
  split; [reflexivity | ].
  unfold same_video. rewrite lookup_union_r by reflexivity. reflexivity.
Qed.

Lemma locally_duplicate_free_op (up : nat -> bool) (o : op) (w : world) :
  locally_duplicate_free w ->
  locally_duplicate_free (world_of (run_op up o w)).
Proof.
  intros [Ht Hl]. rewrite world_of_run_op. destruct o as [u | s | sid | i].
  - rewrite getVideoSessions_world. split; assumption.
  - pose proof (saveVideoSession_outcome up s w) as Ho.
    destruct (saveVideoSession up s w) as [[] w' | w'];
      cbn [save_outcome session_save_outcome world_of] in *.
    + destruct Ho as [(_ & Hloc & Hw) | (Hv & _ & old & Hold & Hloc)].
      * split; [ | intros u l; rewrite Hloc; apply Hl].
        intros v.
        destruct (List.filter _ (videoSessions w)); rewrite Hw.
        -- unfold Remote.create. rewrite List.filter_app, length_app.
           cbn [List.filter].
           rewrite (proj1 (same_video_written_row v s ∅)).
           cbn. specialize (Ht v). lia.
        -- unfold Remote.update. rewrite filter_map_invariant.
           ++ rewrite length_map. apply Ht.
           ++ intros row. destruct (Remote.has_id _ row); [ | reflexivity].
              apply same_video_written_row.
      * split; [rewrite Hv; exact Ht | ].
        assert (Hfree : one_entry_per_video old).
        { destruct Hold as [Hs | ->].
          - unfold stored_list in Hs.
            destruct (localStorage w !! sessions_key (VideoSession.user_id s))
              as [[l | | ] | ] eqn:El; try discriminate;
              injection Hs as <-; try (intros v; cbn; lia).
            exact (Hl _ _ El).
          - intros v. etransitivity; [apply filter_length_list | apply Ht]. }
        intros u l. rewrite Hloc.
        destruct (decide (sessions_key (VideoSession.user_id s)
                          = sessions_key u)) as [<- | Hne].
        -- rewrite lookup_insert_eq. intros [= <-].
           apply one_entry_per_video_merge, Hfree.
        -- rewrite lookup_insert_ne by exact Hne. apply Hl.
    + destruct Ho as [(Hv & _ & Hloc) _].
      split; [rewrite Hv; exact Ht | intros u l; rewrite Hloc; apply Hl].
  - rewrite getPauseInsights_world. split; assumption.
  - pose proof (savePauseInsight_outcome up i w) as Ho.
    destruct (savePauseInsight up i w) as [[] w' | w'];
      cbn [save_outcome insight_save_outcome world_of] in *.
    + destruct Ho as [(Hv & Hloc & _) | (Hv & _ & old & _ & Hloc)];
        (split; [rewrite Hv; exact Ht | ]); intros u l; rewrite Hloc;
        [apply Hl | ].
      rewrite lookup_insert_ne; [apply Hl | ].
      intros E. symmetry in E. exact (sessions_key_not_insights_key _ _ E).
    + destruct Ho as [(Hv & _ & Hloc) _].
      split; [rewrite Hv; exact Ht | intros u l; rewrite Hloc; apply Hl].
Qed.

(** X11: no list of sessions in local storage ever gets a second entry
    of one video.  If every stored list has at most one entry per
    [video_id] (and the rows of the backend, read the same way, have too:
    rows the facade wrote carry no [video_id] at all), this still holds
    after any run of calls, whatever the backend answers, also when the
    local branch of a save merges into a list it loaded from the backend. *)
Theorem local_lists_stay_duplicate_free
    (up : nat -> bool) (os : list op) (w : world) :
  locally_duplicate_free w ->
  locally_duplicate_free (world_of (run up os w)).
Proof.
  apply (run_invariant up
           (fun w w' => locally_duplicate_free w ->
                        locally_duplicate_free w')).
  - auto.
  - auto.
  - intros o w0. apply locally_duplicate_free_op.
Qed.

(** X11 from empty stores, for a backend that fails its first three
    calls. *)
Lemma local_lists_stay_duplicate_free_witness :
  locally_duplicate_free
    (world_of (run (up_from 3)
                   [SaveSession first_save; SaveSession started_again;
                    SaveSession watched_again] init)).
Proof.
  apply local_lists_stay_duplicate_free. split.
  - intros v. cbn. lia.
  - intros u l. unfold init. cbn [localStorage].
    rewrite lookup_empty. discriminate.
Defined.

(** * Further properties of the video player *)

(** ** What a pause leaves behind *)

(** X12: a pause at second 30 or later always ends with the spinner off
    and the panel open.  When the text service fails, nothing else
    changes: the insight shown and the stores are as before.  When its
    reply is no JSON, nothing is saved and the placeholder insight of this
    pause is shown.  When the reply is decoded, the insight built from it
    is handed to [savePauseInsight] once; it is shown if the save returns,
    and if the save raises the error is absorbed and the placeholder is
    shown.  The insight shown always carries the timestamp of the pause,
    the session id [session_<videoId>_<userId>] and the user id. *)
Theorem handlePause_outcome
    (up : nat -> bool) (env : player_env) (reply : ai_reply)
    (timestamp : Q) (p : player) :
  (30 <= timestamp)%Q ->
  let p' := handlePause up env reply timestamp p in
  let of_this_pause (i : PauseInsight.t) :=
    PauseInsight.timestamp i = timestamp /\
    PauseInsight.session_id i = "session_" +:+ videoId env +:+ "_" +:+ userId env /\
    PauseInsight.user_id i = userId env in
  generatingInsights p' = false /\
  showInsights p' = true /\
  match reply with
  | AiFails => insights p' = insights p /\ store p' = store p
  | AiText None =>
      store p' = store p /\
      insights p' = Some (fallback_insight env timestamp p).1
  | AiText (Some parsed) =>
      let newInsight := (new_insight env timestamp parsed p).1 in
      PauseInsight.summary newInsight = parsed_summary parsed /\
      PauseInsight.flashcards newInsight = parsed_flashcards parsed /\
      PauseInsight.quiz_questions newInsight = parsed_quiz parsed /\
      of_this_pause newInsight /\
      store p' = world_of (savePauseInsight up newInsight (store p)) /\
      exists shown,
        insights p' = Some shown /\
        of_this_pause shown /\
        match savePauseInsight up newInsight (store p) with
        | Ok _ _ => shown = newInsight
        | Throw _ =>
            PauseInsight.summary shown
            = "AI-generated summary will appear here when you pause the video."
        end
  end /\
  (forall shown,
     reply <> AiFails -> insights p' = Some shown -> of_this_pause shown).
Proof.
  intros H. apply Qltb_ge in H. cbv zeta. unfold handlePause. rewrite H.
  destruct reply as [ | [parsed | ]].
  - split; [reflexivity | split; [reflexivity | split; [split; reflexivity | ]]].
    congruence.
  - cbn -[savePauseInsight].
    match goal with
    | |- context [savePauseInsight ?a ?b ?c] =>
        destruct (savePauseInsight a b c) as [[] w' | w'] eqn:E
    end; cbn;
      (split; [reflexivity | split; [reflexivity | split]]);
      [ | intros i _ [= <-]; split; [ | split]; reflexivity
        | | intros i _ [= <-]; split; [ | split]; reflexivity ];
      (do 3 (split; [reflexivity | ]));
      (split; [split; [ | split]; reflexivity | ]);
      (split; [reflexivity | ]);
      eexists; (split; [reflexivity | ]);
      (split; [split; [ | split]; reflexivity | reflexivity]).
  - cbn. split; [reflexivity | split; [reflexivity | split]].
    + split; reflexivity.
    + intros i _ [= <-]. split; [ | split]; reflexivity.
Qed.

(** X12 on a reply that is decoded, with the backend answering. *)
Lemma handlePause_outcome_witness :
  let p' := handlePause always_up some_env
              (AiText (Some (Parsed "Summary" [] []))) 42 idle_player in
  generatingInsights p' = false /\
  showInsights p' = true /\
  pauseInsights (store p')
  = [wire_of_insight
       (PauseInsight.mk "insight_1700000000000" "session_v1_u1" 42 "Summary"
                        [] [] "u1" "2023-11-14T22:13:20.000Z")].
Proof.
  destruct (handlePause_outcome always_up some_env
              (AiText (Some (Parsed "Summary" [] []))) 42 idle_player)
    as (Hg & Hs & (_ & _ & _ & _ & Hstore & _) & _).
  - discriminate.
  - cbv zeta. split; [exact Hg | split; [exact Hs | ]].
    rewrite Hstore. by_evaluation.
Defined.

(** * Properties of the dashboard *)

(** ** The video id of a URL *)

Lemma strip_prefix_app (prefix rest : string) :
  strip_prefix prefix (prefix +:+ rest) = Some rest.
Proof.
  induction prefix as [ | a prefix IH]; [reflexivity | ].
  simpl. rewrite Ascii.eqb_refl. exact IH.
Qed.

Lemma strip_prefix_Some (prefix s rest : string) :
  strip_prefix prefix s = Some rest -> s = prefix +:+ rest.
Proof.
  revert s. induction prefix as [ | a prefix IH]; intros s; simpl.
  - intros [= ->]. reflexivity.
  - destruct s as [ | b s]; [discriminate | ].
    destruct (Ascii.eqb a b) eqn:E; [ | discriminate].
    apply Ascii.eqb_eq in E. subst b. intros H. rewrite (IH s H). reflexivity.
Qed.

Lemma id_run_app (id post : string) :
  no_stop_char id = true -> stops post = true -> id_run (id +:+ post) = id.
Proof.
  intros Hid Hpost. induction id as [ | c id IH].
  - change ("" +:+ post) with post.
    destruct post as [ | c post]; [reflexivity | ].
    change (stop_char c = true) in Hpost.
    change (id_run (String c post))
      with (if stop_char c then "" else String c (id_run post)).
    rewrite Hpost. reflexivity.
  - change (negb (stop_char c) && no_stop_char id = true) in Hid.
    apply andb_true_iff in Hid as [Hc Hid]. apply negb_true_iff in Hc.
    change (id_run (String c id +:+ post))
      with (if stop_char c then "" else String c (id_run (id +:+ post))).
    rewrite Hc, IH by exact Hid. reflexivity.
Qed.

Lemma id_run_spec (s : string) :
  no_stop_char (id_run s) = true /\
  exists post, s = id_run s +:+ post /\ stops post = true.
Proof.
  induction s as [ | c s (Hrun & post & Hs & Hpost)].
  - split; [reflexivity | ]. exists "". split; reflexivity.
  - change (id_run (String c s))
      with (if stop_char c then "" else String c (id_run s)).
    destruct (stop_char c) eqn:E.
    + split; [reflexivity | ]. exists (String c s). split; [reflexivity | ].
      exact E.
    + change (no_stop_char (String c (id_run s)))
        with (negb (stop_char c) && no_stop_char (id_run s)).
      rewrite E, Hrun. split; [reflexivity | ].
      exists post.
      change (String c (id_run s) +:+ post)
        with (String c (id_run s +:+ post)).
      rewrite <- Hs. split; [reflexivity | exact Hpost].
Qed.

Lemma capture_after_Some (marker s captured : string) :
  capture_after marker s = Some captured ->
  captured <> "" /\ no_stop_char captured = true /\
  exists post, s = marker +:+ captured +:+ post /\ stops post = true.
Proof.
  unfold capture_after.
  destruct (strip_prefix marker s) as [rest | ] eqn:E; [ | discriminate].
  apply strip_prefix_Some in E. subst s.
  destruct (id_run_spec rest) as (Hrun & post & Hrest & Hpost).
  destruct (id_run rest) as [ | c run] eqn:Er; [discriminate | ].
  intros [= <-]. split; [discriminate | ]. split; [exact Hrun | ].
  exists post. rewrite <- Hrest. split; [reflexivity | exact Hpost].
Qed.

Lemma first_capture_Some (ms : list string) (s captured : string) :
  first_capture ms s = Some captured ->
  exists marker, marker ∈ ms /\ capture_after marker s = Some captured.
Proof.
  induction ms as [ | m ms IH]; cbn; [discriminate | ].
  destruct (capture_after m s) as [c | ] eqn:E.
  - intros [= <-]. exists m. split; [left | exact E].
  - intros H. destruct (IH H) as (marker & Hin & Hc).
    exists marker. split; [right; exact Hin | exact Hc].
Qed.

Lemma extractVideoId_step (c : Ascii.ascii) (s : string) :
  extractVideoId (String c s) =
  match first_capture markers (String c s) with
  | Some captured => Some captured
  | None => extractVideoId s
  end.
Proof. reflexivity. Qed.

Lemma extractVideoId_here (s captured : string) :
  first_capture markers s = Some captured -> extractVideoId s = Some captured.
Proof.
  destruct s as [ | c s]; intros H.
  - change (extractVideoId "")
      with (match first_capture markers "" with
            | Some captured => Some captured
            | None => None
            end).
    rewrite H. reflexivity.
  - rewrite extractVideoId_step, H. reflexivity.
Qed.

(** X13: what [extractVideoId] returns is never empty and has none of
    the characters [&], line feed, [?] and [#]; it stands in the URL right
    after one of [youtube.com/watch?v=], [youtu.be/] and
    [youtube.com/embed/], and runs to the end of the URL or to the first
    of those four characters. *)
Theorem extractVideoId_sound (url video : string) :
  extractVideoId url = Some video ->
  video <> "" /\
  no_stop_char video = true /\
  exists before marker after,
    marker ∈ markers /\
    url = before +:+ marker +:+ video +:+ after /\
    stops after = true.
Proof.
  induction url as [ | c url IH].
  - change (extractVideoId "")
      with (match first_capture markers "" with
            | Some captured => Some captured
            | None => None
            end).
    destruct (first_capture markers "") as [captured | ] eqn:E;
      [ | discriminate].
    intros [= <-]. destruct (first_capture_Some _ _ _ E) as (m & Hm & Hc).
    destruct (capture_after_Some _ _ _ Hc) as (Hne & Hrun & post & Hs & Hp).
    split; [exact Hne | split; [exact Hrun | ]].
    exists "", m, post. auto.
  - rewrite extractVideoId_step.
    destruct (first_capture markers (String c url)) as [captured | ] eqn:E.
    + intros [= <-]. destruct (first_capture_Some _ _ _ E) as (m & Hm & Hc).
      destruct (capture_after_Some _ _ _ Hc) as (Hne & Hrun & post & Hs & Hp).
      split; [exact Hne | split; [exact Hrun | ]].
      exists "", m, post. auto.
    + intros H. destruct (IH H) as (Hne & Hrun & before & m & post & Hm & -> & Hp).
      split; [exact Hne | split; [exact Hrun | ]].
      exists (String c before), m, post. auto.
Qed.

(** X13 on a watch URL with a time parameter. *)
Lemma extractVideoId_sound_witness :
  "dQw4w9WgXcQ" <> "" /\
  no_stop_char "dQw4w9WgXcQ" = true /\
  exists before marker after,
    marker ∈ markers /\
    "https://www.youtube.com/watch?v=dQw4w9WgXcQ&t=30s"
    = before +:+ marker +:+ "dQw4w9WgXcQ" +:+ after /\
    stops after = true.
Proof.
  apply (extractVideoId_sound
           "https://www.youtube.com/watch?v=dQw4w9WgXcQ&t=30s").
  by_evaluation.
Defined.

Lemma first_capture_no_y (c : Ascii.ascii) (s : string) :
  Ascii.eqb c "y" = false -> first_capture markers (String c s) = None.
Proof.
  intros H. unfold markers, first_capture, capture_after.
  cbn [strip_prefix]. rewrite (Ascii.eqb_sym "y" c), H. reflexivity.
Qed.

Lemma capture_after_app (marker video after : string) :
  video <> "" -> no_stop_char video = true -> stops after = true ->
  capture_after marker (marker +:+ video +:+ after) = Some video.
Proof.
  intros Hne Hrun Hstop. unfold capture_after.
  rewrite strip_prefix_app, id_run_app by assumption.
  destruct video; [congruence | reflexivity].
Qed.

Lemma first_capture_marker (marker video after : string) :
  marker ∈ markers ->
  video <> "" -> no_stop_char video = true -> stops after = true ->
  first_capture markers (marker +:+ video +:+ after) = Some video.
Proof.
  intros Hin Hne Hrun Hstop.
  pose proof (capture_after_app marker video after Hne Hrun Hstop) as Hc.
  unfold markers in *. repeat (apply elem_of_cons in Hin as [-> | Hin]).
  - cbn [first_capture]. rewrite Hc. reflexivity.
  - cbn [first_capture].
    change (capture_after "youtube.com/watch?v="
              ("youtu.be/" +:+ video +:+ after)) with (@None string).
    rewrite Hc. reflexivity.
  - cbn [first_capture].
    change (capture_after "youtube.com/watch?v="
              ("youtube.com/embed/" +:+ video +:+ after)) with (@None string).
    change (capture_after "youtu.be/"
              ("youtube.com/embed/" +:+ video +:+ after)) with (@None string).
    rewrite Hc. reflexivity.
  - apply elem_of_nil in Hin. contradiction.
Qed.

(** X14: the three forms of a video URL give back their video id.  For
    any text without the letter y in front (as [https://www.] or
    [https://]), then one of [youtube.com/watch?v=], [youtu.be/] and
    [youtube.com/embed/], then a non-empty id without [&], line feed, [?]
    and [#], then nothing or a rest that starts with one of these four,
    [extractVideoId] returns the id. *)
Theorem extractVideoId_of_video_url
    (before marker video after : string) :
  no_y before = true ->
  marker ∈ markers ->
  video <> "" -> no_stop_char video = true -> stops after = true ->
  extractVideoId (before +:+ marker +:+ video +:+ after) = Some video.
Proof.
  intros Hy Hin Hne Hrun Hstop.
  pose proof (first_capture_marker marker video after Hin Hne Hrun Hstop) as Hm.
  induction before as [ | c before IH].
  - change ("" +:+ marker +:+ video +:+ after)
      with (marker +:+ video +:+ after).
    apply extractVideoId_here, Hm.
  - change (negb (Ascii.eqb c "y") && no_y before = true) in Hy.
    apply andb_true_iff in Hy as [Hc Hy]. apply negb_true_iff in Hc.
    change (String c before +:+ marker +:+ video +:+ after)
      with (String c (before +:+ marker +:+ video +:+ after)).
    rewrite extractVideoId_step, first_capture_no_y by exact Hc.
    apply IH, Hy.
Qed.

(** X14 on the three forms. *)
Lemma extractVideoId_of_video_url_witness :
  extractVideoId "https://www.youtube.com/watch?v=dQw4w9WgXcQ&t=30s"
    = Some "dQw4w9WgXcQ" /\
  extractVideoId "https://youtu.be/dQw4w9WgXcQ?si=abc" = Some "dQw4w9WgXcQ" /\
  extractVideoId "https://www.youtube.com/embed/dQw4w9WgXcQ"
    = Some "dQw4w9WgXcQ".
Proof.
  repeat apply conj.
  - apply (extractVideoId_of_video_url "https://www." "youtube.com/watch?v="
             "dQw4w9WgXcQ" "&t=30s"); try reflexivity; try discriminate.
    left.
  - apply (extractVideoId_of_video_url "https://" "youtu.be/"
             "dQw4w9WgXcQ" "?si=abc"); try reflexivity; try discriminate.
    right. left.
  - apply (extractVideoId_of_video_url "https://www." "youtube.com/embed/"
             "dQw4w9WgXcQ" ""); try reflexivity; try discriminate.
    right. right. left.
Defined.

(** ** Loading the recent sessions *)

(** X15: [loadRecentSessions] never raises and never writes: it shows at
    most six sessions, the first six of what [getVideoSessions] returns,
    and leaves both tables and local storage as they were.  The status it
    shows is the answer of its own probe, while the sessions come from the
    call that [getVideoSessions] makes after probing again; only when that
    call raises (a malformed stored list) are the status set to
    unavailable and the list to empty. *)
Theorem loadRecentSessions_outcome
    (up : nat -> bool) (env : dashboard_env) (d : dashboard) :
  let d' := loadRecentSessions up env d in
  let probed := advance 1 (up (calls (db d))) (db d) in
  length (recentSessions d') <= 6 /\
  wrote_nothing (db d) (db d') /\
  calls (db d) + 2 <= calls (db d') <= calls (db d) + 3 /\
  (videoUrl d', loading d', alerts d', selected d')
  = (videoUrl d, loading d, alerts d, selected d) /\
  match getVideoSessions up (user env) probed with
  | Ok sessions _ =>
      recentSessions d' = take 6 sessions /\
      dbStatus d' = (if up (calls (db d)) then Available else Unavailable)
  | Throw _ =>
      recentSessions d' = [] /\ dbStatus d' = Unavailable /\
      localStorage (db d) !! sessions_key (user env) = Some Malformed
  end.
Proof.
  cbv zeta. unfold loadRecentSessions, checkDatabaseAvailability, remote_call.
  cbn [db set_db setDbStatus].
  change (set_dbAvailable (up (calls (db d)))
            (World (dbAvailable (db d)) (videoSessions (db d))
                   (pauseInsights (db d)) (localStorage (db d))
                   (S (calls (db d)))))
    with (advance 1 (up (calls (db d))) (db d)).
  pose proof (getVideoSessions_world up (user env)
                (advance 1 (up (calls (db d))) (db d))) as Hw.
  destruct (getVideoSessions up (user env)
              (advance 1 (up (calls (db d))) (db d)))
    as [sessions w | w] eqn:E; cbn [world_of] in Hw; subst w;
    cbn [recentSessions setRecentSessions set_db setDbStatus db videoUrl
         loading alerts selected dbStatus videoSessions pauseInsights
         localStorage calls advance].
  - split; [rewrite length_take; lia | ].
    split; [repeat split | ].
    split; [match goal with
            | |- context [if ?b then 2 else 1] => destruct b
            end; cbn; lia | ].
    split; [reflexivity | split; reflexivity].
  - split; [cbn; lia | ].
    split; [repeat split | ].
    split; [match goal with
            | |- context [if ?b then 2 else 1] => destruct b
            end; cbn; lia | ].
    split; [reflexivity | ].
    split; [reflexivity | split; [reflexivity | ]].
    exact (getVideoSessions_raises _ _ _ _ E).
Qed.

(** ** Starting a video *)

Lemma find_same_video_none (video : string) (l : list obj) :
  List.find (same_video video) l = None <->
  List.filter (same_video video) l = [].
Proof.
  induction l as [ | x l IH]; cbn; [tauto | ].
  destruct (same_video video x); [split; discriminate | exact IH].
Qed.

(** X16: what a click on the start button does, for a URL that is not
    blank and has the video id [video].  The button is released at the end
    in every case.  When a session of the video is among the recent ones
    (read by its [video_id]), the video is opened and nothing is saved or
    read from storage.  Otherwise one new session is made for the video and
    the user (title Loading..., progress 0, duration 0) and handed to
    [saveVideoSession] once: if the save returns, the session is put in
    front of the first five recent ones and the video is opened; if the
    save raises, the error is absorbed, the list is unchanged and the
    video is not opened.  At most six sessions are ever put on the list. *)
Theorem handleStartLearning_outcome
    (up : nat -> bool) (env : dashboard_env) (d : dashboard) (video : string) :
  blank (videoUrl d) = false ->
  extractVideoId (videoUrl d) = Some video ->
  let d' := handleStartLearning up env d in
  let newSession := (start_session env video d).1 in
  loading d' = false /\
  alerts d' = alerts d /\
  VideoSession.video_id newSession = video /\
  VideoSession.user_id newSession = user env /\
  VideoSession.progress newSession = 0%Q /\
  VideoSession.duration newSession = 0%Q /\
  match List.find (same_video video) (recentSessions d) with
  | Some _ =>
      db d' = db d /\
      recentSessions d' = recentSessions d /\
      selected d' = selected d ++ [video]
  | None =>
      db d' = world_of (saveVideoSession up newSession (db d)) /\
      match saveVideoSession up newSession (db d) with
      | Ok _ _ =>
          recentSessions d'
          = obj_of_session newSession :: take 5 (recentSessions d) /\
          length (recentSessions d') <= 6 /\
          selected d' = selected d ++ [video]
      | Throw _ =>
          recentSessions d' = recentSessions d /\ selected d' = selected d
      end
  end.
Proof.
  intros Hb Hv. cbv zeta. unfold handleStartLearning. rewrite Hb, Hv.
  cbn [recentSessions setLoading].
  destruct (List.find (same_video video) (recentSessions d)) as [x | ].
  - repeat split; reflexivity.
  - cbn -[saveVideoSession take].
    match goal with
    | |- context [saveVideoSession ?a ?b ?c] =>
        destruct (saveVideoSession a b c) as [[] w | w]
    end; cbn -[take]; repeat split; try reflexivity.
    rewrite length_take. lia.
Qed.

(** X16 on a first start from an empty dashboard, with the backend
    down. *)
Lemma handleStartLearning_outcome_witness :
  let d' := handleStartLearning always_down some_dashboard_env
              (fresh_dashboard "https://youtu.be/v1" init) in
  loading d' = false /\
  selected d' = ["v1"] /\
  length (recentSessions d') <= 6 /\
  stored_list (sessions_key "u1") (db d')
  = Some [obj_of_session
            (VideoSession.mk "session_1700000000000_k3j9x0q2a" "v1"
               "Loading..." "https://img.youtube.com/vi/v1/maxresdefault.jpg"
               0 0 T3 "u1")].
Proof.
  destruct (handleStartLearning_outcome always_down some_dashboard_env
              (fresh_dashboard "https://youtu.be/v1" init) "v1")
    as (Hl & _ & _ & _ & _ & _ & Hrest).
  - reflexivity.
  - by_evaluation.
  - cbn [recentSessions fresh_dashboard List.find] in Hrest.
    destruct Hrest as [Hdb Hsave].
    assert (E : exists w,
               saveVideoSession always_down
                 (start_session some_dashboard_env "v1"
                    (fresh_dashboard "https://youtu.be/v1" init)).1 init
               = Ok tt w).
    { eexists. apply (saveVideoSession_always_down _ init []). reflexivity. }
    destruct E as [w E]. cbn [db fresh_dashboard] in Hsave, Hdb.
    rewrite E in Hsave. destruct Hsave as (_ & Hlen & Hsel).
    cbv zeta. split; [exact Hl | split; [exact Hsel | split; [exact Hlen | ]]].
    rewrite Hdb. by_evaluation.
Defined.

(** X17: starting a video again resets what the backend stored for it.
    When the backend answers, has the row of a session [s0] for the user
    and the video, and no recent session reads as this video, the click
    saves a new session with progress 0, and the update of the save writes
    its title, progress, duration and last-watched over the row: the row
    keeps the id and thumbnail of [s0] and has progress 0, duration 0 and
    the title Loading... afterwards. *)
Theorem restart_resets_stored_progress
    (env : dashboard_env) (d : dashboard) (video : string)
    (s0 : VideoSession.t) :
  blank (videoUrl d) = false ->
  extractVideoId (videoUrl d) = Some video ->
  List.find (same_video video) (recentSessions d) = None ->
  List.filter (pair_row (user env) video) (videoSessions (db d))
    = [wire_of_session s0] ->
  let d' := handleStartLearning always_up env d in
  exists row,
    List.filter (pair_row (user env) video) (videoSessions (db d')) = [row] /\
    row !! "id" = Some (VStr (VideoSession.id s0)) /\
    row !! "thumbnail" = Some (VStr (VideoSession.thumbnail s0)) /\
    row !! "title" = Some (VStr "Loading...") /\
    row !! "progress" = Some (VNum 0) /\
    row !! "duration" = Some (VNum 0) /\
    selected d' = selected d ++ [video].
Proof.
  intros Hb Hv Hfind Hrow. cbv zeta.
  pose proof (save_updates_pair_row (start_session env video d).1 s0 (db d)
                Hrow) as (w' & E & _ & Hrow' & _).
  exists (wire_of_session (updated_by (start_session env video d).1 s0)).
  unfold handleStartLearning. rewrite Hb, Hv.
  cbn [recentSessions setLoading]. rewrite Hfind.
  cbn -[saveVideoSession take] in E |- *. rewrite E.
  cbn -[take]. split; [exact Hrow' | ]. repeat split; reflexivity.
Qed.

(** X17 on a dashboard that has just loaded the one session the backend
    holds, at second 120 of 600: the session is listed under the names of
    the wire, is not found by its [video_id], and the click resets it. *)
Lemma restart_resets_stored_progress_witness :
  let w := World true [wire_of_session second_save] [] ∅ 0 in
  let d := loadRecentSessions always_up some_dashboard_env
             (fresh_dashboard "https://youtu.be/v1" w) in
  recentSessions d = [wire_of_session second_save] /\
  wire_of_session second_save !! "progress" = Some (VNum 120) /\
  exists row,
    List.filter (pair_row "u1" "v1")
      (videoSessions (db (handleStartLearning always_up some_dashboard_env d)))
    = [row] /\
    row !! "progress" = Some (VNum 0).
Proof.
  cbv zeta.
  split; [by_evaluation | split; [reflexivity | ]].
  destruct (restart_resets_stored_progress some_dashboard_env
              (loadRecentSessions always_up some_dashboard_env
                 (fresh_dashboard "https://youtu.be/v1"
                    (World true [wire_of_session second_save] [] ∅ 0)))
              "v1" second_save)
    as (row & Hrow & _ & _ & _ & Hp & _); try by_evaluation.
  exists row. split; assumption.
Defined.

(** ** What the player never saves *)

(** X18: a pause never saves the viewing session.  Whatever the
    timestamp, the reply of the text service and the answers of the
    backend, [handlePause] leaves the sessions table and every list of
    sessions in local storage as they were: progress and last-watched of
    a session are written by no code of the player. *)
Theorem handlePause_never_saves_the_session
    (up : nat -> bool) (env : player_env) (reply : ai_reply)
    (timestamp : Q) (p : player) (u : string) :
  let p' := handlePause up env reply timestamp p in
  videoSessions (store p') = videoSessions (store p) /\
  localStorage (store p') !! sessions_key u
  = localStorage (store p) !! sessions_key u.
Proof.
  cbv zeta. unfold handlePause.
  destruct (Qltb timestamp 30); [split; reflexivity | ].
  destruct reply as [ | [parsed | ]]; try (split; reflexivity).
  cbn -[savePauseInsight].
  match goal with
  | |- context [savePauseInsight ?a ?b ?c] =>
      pose proof (savePauseInsight_outcome a b c) as Ho;
      destruct (savePauseInsight a b c) as [[] w | w]
  end; cbn [save_outcome insight_save_outcome] in Ho; cbn.
  - destruct Ho as [(Hv & Hl & _) | (Hv & _ & old & _ & Hl)];
      rewrite Hv, Hl; split; try reflexivity.
    apply lookup_insert_ne. intros E. symmetry in E.
    exact (sessions_key_not_insights_key _ _ E).
  - destruct Ho as [(Hv & _ & Hl) _]. rewrite Hv, Hl. split; reflexivity.
Qed.

(** * Further properties of the video player: chat and flashcards *)

Lemma handleSendMessage_messages (video : string) (now : nat -> Z)
    (reply : chat_reply) (c : chat) :
  blank (chatInput c) = false ->
  exists m,
    role m = RoleUser /\ content m = chatInput c /\
    chatInput (handleSendMessage video now reply c) = "" /\
    sendingMessage (handleSendMessage video now reply c) = false /\
    chat_requests (handleSendMessage video now reply c)
    = chat_requests c ++ [(video, Qfloor (currentTime c), chatInput c)] /\
    match reply with
    | ChatFails =>
        chatMessages (handleSendMessage video now reply c)
        = chatMessages c ++ [m]
    | ChatText text =>
        exists a,
          role a = RoleAssistant /\ content a = text /\
          chatMessages (handleSendMessage video now reply c)
          = chatMessages c ++ [m; a]
    end.
Proof.
  intros Hb. unfold handleSendMessage. rewrite Hb.
  eexists. destruct reply as [ | text]; cbn.
  - repeat split; reflexivity.
  - repeat split; try reflexivity.
    eexists. rewrite <- app_assoc. repeat split; reflexivity.
Qed.

(** X19: sending a chat message.  A blank input changes nothing.
    Otherwise the message of the user, with the input as typed, is added
    at the end of the conversation, the input is cleared, the text service
    is asked once, and its answer, if it comes, is added right after the
    question; the button is released at the end in both cases.  So, from
    an empty chat, whatever is typed and whatever the service answers, the
    conversation is a run of questions of the user, each followed by its
    answer or by nothing: no answer stands without its question, and the
    service was asked once per question. *)
Theorem chat_is_a_run_of_exchanges
    (video : string) (now : nat -> Z) (turns : list (string * chat_reply)) :
  let c := foldl (fun c turn => type_and_send video now turn c)
                 empty_chat turns in
  exchanges (chatMessages c) /\
  sendingMessage c = false /\
  length (chat_requests c)
  = length (List.filter (fun m => match role m with
                                  | RoleUser => true
                                  | RoleAssistant => false
                                  end) (chatMessages c)) /\
  length (chat_requests c)
  = length (List.filter (fun turn => negb (blank turn.1)) turns).
Proof.
  cbv zeta. induction turns as [ | turn turns IH] using rev_ind.
  - repeat split; constructor.
  - rewrite foldl_app. cbn [foldl].
    set (c := foldl _ empty_chat turns) in *.
    destruct IH as (He & Hs & Hn & Ht).
    rewrite List.filter_app, length_app. cbn [List.filter].
    unfold type_and_send.
    destruct (blank turn.1) eqn:Hb.
    + unfold handleSendMessage. cbn [chatInput setChatInput]. rewrite Hb.
      cbn [negb length chatMessages sendingMessage chat_requests setChatInput].
      repeat split; try assumption. lia.
    + destruct (handleSendMessage_messages video now turn.2
                  (setChatInput turn.1 c) Hb)
        as (m & Hm & _ & _ & Hsend & Hreq & Hmsg).
      rewrite Hsend, Hreq.
      cbn [chat_requests chatMessages setChatInput negb length] in *.
      rewrite length_app. cbn [length].
      destruct turn.2 as [ | text].
      * rewrite Hmsg, List.filter_app, length_app. cbn [List.filter].
        rewrite Hm. cbn [length].
        repeat split; try lia. apply exchanges_unanswered; assumption.
      * destruct Hmsg as (a & Ha & _ & Hmsg).
        rewrite Hmsg, List.filter_app, length_app. cbn [List.filter].
        rewrite Hm, Ha. cbn [length].
        repeat split; try lia. apply exchanges_answered; assumption.
Qed.

(** X20: the card shown is always a card of the deck.  From the first
    card of a deck that is not empty, any clicks on Previous, Next and
    the flip button leave the index at a card of the deck; Previous at the
    first card and Next at the last one stay there; and every move hides
    the answer. *)
Theorem flashcard_index_stays_in_the_deck
    (cards : Z) (clicks : list card_click) :
  (0 < cards)%Z ->
  let v := foldl (fun v b => click cards b v) (CardView 0 false) clicks in
  (0 <= currentFlashcard v < cards)%Z /\
  currentFlashcard (click cards Previous (CardView 0 true)) = 0%Z /\
  currentFlashcard (click cards Next (CardView (cards - 1) true))
  = (cards - 1)%Z /\
  (forall w, showFlashcardAnswer (click cards Previous w) = false /\
             showFlashcardAnswer (click cards Next w) = false).
Proof.
  intros Hc. cbv zeta. split; [ | cbn; repeat split; lia].
  induction clicks as [ | b clicks IH] using rev_ind; [cbn; lia | ].
  rewrite foldl_app. cbn [foldl].
  destruct b; cbn [click currentFlashcard]; lia.
Qed.

(** X20 on a deck of two cards, as the placeholder insight has. *)
Lemma flashcard_index_stays_in_the_deck_witness :
  (0 <= currentFlashcard
          (foldl (fun v b => click 2 b v) (CardView 0 false)
                 [Next; Next; Flip; Next; Previous]) < 2)%Z.
Proof.
  apply (flashcard_index_stays_in_the_deck 2 [Next; Next; Flip; Next; Previous]).
  lia.
Defined.

(** * Properties of the displays of time *)

Lemma Qfloor_div_pos (q : Q) (k : positive) :
  Qfloor (q / inject_Z (Zpos k)) = (Qfloor q / Zpos k)%Z.
Proof.
  destruct q as [n d]. unfold Qdiv, Qinv, Qmult, Qfloor, inject_Z.
  cbn [Qnum Qden]. rewrite Z.mul_1_r, Pos2Z.inj_mul.
  symmetry. apply Z.div_div; lia.
Qed.

Lemma Qfloor_sub_mul (q : Q) (k z : Z) :
  Qfloor (q - inject_Z k * inject_Z z) = (Qfloor q - k * z)%Z.
Proof.
  destruct q as [n d].
  unfold Qminus, Qplus, Qopp, Qmult, Qfloor, inject_Z. cbn [Qnum Qden].
  change (1 * 1)%positive with 1%positive.
  rewrite Pos.mul_1_r, Z.mul_1_r.
  rewrite (Z.div_add n (- (k * z)) (Zpos d)) by lia. lia.
Qed.

Lemma Qtrunc_nonneg (q : Q) (k : positive) :
  (0 <= q)%Q -> Qtrunc (q / inject_Z (Zpos k)) = (Qfloor q / Zpos k)%Z.
Proof.
  intros H. unfold Qtrunc.
  assert (Hk : (0 <= q / inject_Z (Zpos k))%Q).
  { destruct q as [n d]. unfold Qle, Qdiv, Qinv, Qmult, inject_Z in *.
    cbn [Qnum Qden] in *. lia. }
  apply Qle_bool_iff in Hk. rewrite Hk. apply Qfloor_div_pos.
Qed.

(** The three numbers of the clock, from the whole seconds. *)
Lemma time_fields_whole (seconds : Q) :
  (0 <= seconds)%Q ->
  time_fields seconds
  = ((Qfloor seconds / 3600)%Z,
     ((Qfloor seconds mod 3600) / 60)%Z,
     (Qfloor seconds mod 60)%Z).
Proof.
  intros H. unfold time_fields, js_rem.
  change (3600%Q) with (inject_Z 3600). change (60%Q) with (inject_Z 60).
  rewrite !Qtrunc_nonneg by exact H.
  rewrite !Qfloor_div_pos, !Qfloor_sub_mul.
  repeat f_equal.
  - rewrite (Z.mod_eq (Qfloor seconds) 3600) by lia. reflexivity.
  - rewrite (Z.mod_eq (Qfloor seconds) 60) by lia. reflexivity.
Qed.

(** A number below 60 padded to two characters is the number in two
    digits. *)
Lemma padStart2_two_digits_of (n : Z) :
  (0 <= n < 60)%Z ->
  padStart2 (pretty n) = two_digits n /\ String.length (two_digits n) = 2.
Proof.
  intros H.
  assert (Hall : forallb (fun k =>
                    String.eqb (padStart2 (pretty (Z.of_nat k)))
                               (two_digits (Z.of_nat k))
                    && Nat.eqb (String.length (two_digits (Z.of_nat k))) 2)
                         (seq 0 60) = true) by by_evaluation.
  rewrite forallb_forall in Hall.
  specialize (Hall (Z.to_nat n)).
  rewrite Z2Nat.id in Hall by lia.
  assert (Hin : In (Z.to_nat n) (seq 0 60)) by (apply in_seq; lia).
  apply Hall, andb_true_iff in Hin as [H1 H2].
  split; [apply String.eqb_eq, H1 | apply Nat.eqb_eq, H2].
Qed.

(** X21: the clock of the player shows the whole seconds of a time that
    is not negative and below 2^52: [formatTime] of a time is
    [formatTime] of its whole seconds (and [formatDuration] likewise).
    Its three numbers are the hours, the minutes below 60 and the seconds
    below 60 that add up to the whole seconds.  With hours to show, the
    clock reads hours, minutes in two digits and seconds in two digits;
    without, it reads the minutes as they are (0:59) and the seconds in
    two digits. *)
Theorem formatTime_shows_whole_seconds (seconds : Q) :
  (0 <= seconds)%Q -> (seconds < 4503599627370496)%Q ->
  let '(hours, minutes, secs) := time_fields seconds in
  formatTime seconds = formatTime (inject_Z (Qfloor seconds)) /\
  formatDuration seconds = formatDuration (inject_Z (Qfloor seconds)) /\
  (hours * 3600 + minutes * 60 + secs = Qfloor seconds)%Z /\
  (0 <= hours)%Z /\ (0 <= minutes < 60)%Z /\ (0 <= secs < 60)%Z /\
  formatTime seconds
  = (if (0 <? hours)%Z
     then pretty hours +:+ ":" +:+ two_digits minutes +:+ ":"
          +:+ two_digits secs
     else pretty minutes +:+ ":" +:+ two_digits secs) /\
  String.length (two_digits minutes) = 2 /\
  String.length (two_digits secs) = 2.
Proof.
  intros H _.
  assert (Hn : (0 <= Qfloor seconds)%Z).
  { rewrite <- (Qfloor_Z 0). apply Qfloor_resp_le, H. }
  assert (Hw : (0 <= inject_Z (Qfloor seconds))%Q)
    by (rewrite (Zle_Qle 0) in Hn; exact Hn).
  pose proof (time_fields_whole seconds H) as E.
  pose proof (time_fields_whole _ Hw) as E'. rewrite Qfloor_Z, <- E in E'.
  assert (Ef : formatTime seconds = formatTime (inject_Z (Qfloor seconds)))
    by (unfold formatTime; rewrite E'; reflexivity).
  assert (Ed : formatDuration seconds
               = formatDuration (inject_Z (Qfloor seconds))).
  { pose proof (f_equal (fun t => t.1.1) E') as Eh.
    pose proof (f_equal (fun t => t.1.2) E') as Em.
    change (Qfloor (inject_Z (Qfloor seconds) / 3600)
            = Qfloor (seconds / 3600)) in Eh.
    change (Qfloor (js_rem (inject_Z (Qfloor seconds)) 3600 / 60)
            = Qfloor (js_rem seconds 3600 / 60)) in Em.
    unfold formatDuration. rewrite <- Eh, <- Em. reflexivity. }
  pose proof (Z.div_mod (Qfloor seconds) 3600 ltac:(lia)).
  pose proof (Z.mod_pos_bound (Qfloor seconds) 3600 ltac:(lia)).
  pose proof (Z.div_mod (Qfloor seconds mod 3600) 60 ltac:(lia)).
  pose proof (Z.mod_pos_bound (Qfloor seconds mod 3600) 60 ltac:(lia)).
  pose proof (Z.mod_pos_bound (Qfloor seconds) 60 ltac:(lia)).
  assert ((Qfloor seconds mod 3600) mod 60 = Qfloor seconds mod 60)%Z.
  { change 3600%Z with (60 * 60)%Z.
    rewrite Z.rem_mul_r by lia. rewrite Z.mul_comm, Z.mod_add by lia.
    apply Z.mod_mod. lia. }
  assert (0 <= Qfloor seconds / 3600)%Z by (apply Z.div_pos; lia).
  assert (Hm : (0 <= (Qfloor seconds mod 3600) / 60 < 60)%Z).
  { split; [apply Z.div_pos; lia | ].
    apply Z.div_lt_upper_bound; lia. }
  assert (Hs : (0 <= Qfloor seconds mod 60 < 60)%Z) by lia.
  destruct (padStart2_two_digits_of _ Hm) as [Pm Lm].
  destruct (padStart2_two_digits_of _ Hs) as [Ps Ls].
  assert (Eo : formatTime seconds
               = (if (0 <? Qfloor seconds / 3600)%Z
                  then pretty (Qfloor seconds / 3600)%Z +:+ ":"
                       +:+ two_digits ((Qfloor seconds mod 3600) / 60)%Z
                       +:+ ":" +:+ two_digits (Qfloor seconds mod 60)%Z
                  else pretty ((Qfloor seconds mod 3600) / 60)%Z +:+ ":"
                       +:+ two_digits (Qfloor seconds mod 60)%Z)).
  { unfold formatTime. rewrite E, Pm, Ps. reflexivity. }
  rewrite E.
  split; [exact Ef | split; [exact Ed | ]].
  repeat split; try lia; assumption.
Qed.

(** X21 at one hour, one minute and one and a half seconds, and at 59
    seconds. *)
Lemma formatTime_shows_whole_seconds_witness :
  formatTime (7323 # 2) = formatTime 3661 /\
  formatTime 3661 = "1:01:01" /\
  formatTime 59 = "0:59".
Proof.
  pose proof (formatTime_shows_whole_seconds (7323 # 2)) as H.
  destruct (time_fields (7323 # 2)) as [[h m] s'].
  destruct H as (Hf & _); [discriminate | reflexivity | ].
  split; [exact Hf | split; by_evaluation].
Defined.

(** * The size of every listing *)

Lemma capped_run (up : nat -> bool) (os : list op) (w : world) :
  capped w -> capped (world_of (run up os w)).
Proof.
  apply (run_invariant up (fun w w' => capped w -> capped w')).
  - auto.
  - auto.
  - intros o w0. apply capped_op.
Qed.

(** X22: [getVideoSessions] never returns more than twenty sessions, on
    either branch, after any run of calls and whatever the backend
    answers, provided no stored list was longer than twenty to begin with
    (as when nothing is stored): the query of the backend is limited to
    twenty and every list the local branch stores is cut at twenty. *)
Theorem listing_never_exceeds_twenty
    (up : nat -> bool) (os : list op) (u : string) (w w' : world)
    (listed : list obj) :
  capped w ->
  getVideoSessions up u (world_of (run up os w)) = Ok listed w' ->
  length listed <= 20.
Proof.
  intros Hc E. apply (capped_run up os) in Hc.
  destruct (getVideoSessions_returns _ _ _ _ _ E) as [Hs | ->].
  - unfold stored_list in Hs.
    destruct (localStorage (world_of (run up os w)) !! sessions_key u)
      as [[l | | ] | ] eqn:El; try discriminate;
      injection Hs as <-; try (cbn; lia).
    exact (Hc _ _ El).
  - apply RemoteFacts.sessions_query_sorted.
Qed.

(** X22 after two saves with the backend down. *)
Lemma listing_never_exceeds_twenty_witness :
  length [obj_of_session other_video; obj_of_session first_save] <= 20.
Proof.
  apply (listing_never_exceeds_twenty always_down
           [SaveSession first_save; SaveSession other_video] "u1" init
           (World false [] []
              {[sessions_key "u1" :=
                  Json [obj_of_session other_video;
                        obj_of_session first_save]]} 5)).
  - intros u l. unfold init. cbn [localStorage].
    rewrite lookup_empty. discriminate.
  - by_evaluation.
Defined.

(** * The local path against the remote path, run by run *)

(** ** A browser with room for every write *)

Lemma setItem_fits (room : Quota.t) (key : string) (v : list obj) (w : world) :
  has_room room -> Quota.setItem room key v w = Ok tt (setItem key v w).
Proof. intros H. unfold Quota.setItem. rewrite H. reflexivity. Qed.

Lemma save_session_locally_has_room (room : Quota.t) (up : nat -> bool)
    (s : VideoSession.t) (w : world) :
  has_room room ->
  Quota.save_session_locally room up s w = save_session_locally up s w.
Proof.
  intros H. unfold save_session_locally, Quota.save_session_locally.
  destruct (getVideoSessions up (VideoSession.user_id s) w); cbn [bind];
    [ | reflexivity].
  rewrite !setItem_fits by (exact H || exact (fun _ => eq_refl)). reflexivity.
Qed.

Lemma save_insight_locally_has_room (room : Quota.t) (up : nat -> bool)
    (i : PauseInsight.t) (w : world) :
  has_room room ->
  Quota.save_insight_locally room up i w = save_insight_locally up i w.
Proof.
  intros H. unfold save_insight_locally, Quota.save_insight_locally.
  destruct (getPauseInsights up (PauseInsight.session_id i) w); cbn [bind];
    [ | reflexivity].
  rewrite !setItem_fits by (exact H || exact (fun _ => eq_refl)). reflexivity.
Qed.

Lemma saveVideoSession_has_room (room : Quota.t) (up : nat -> bool)
    (s : VideoSession.t) (w : world) :
  has_room room -> Quota.saveVideoSession room up s w = saveVideoSession up s w.
Proof.
  intros H.
  destruct (up (calls w)) eqn:H1; [destruct (up (S (calls w))) eqn:H2;
    [destruct (up (S (S (calls w)))) eqn:H3 | ] | ].
  - rewrite saveVideoSession_remote_within, saveVideoSession_remote
      by assumption. reflexivity.
  - rewrite saveVideoSession_write_fails_within, saveVideoSession_write_fails
      by assumption. apply save_session_locally_has_room, H.
  - rewrite saveVideoSession_lookup_fails_within, saveVideoSession_lookup_fails
      by assumption. apply save_session_locally_has_room, H.
  - rewrite saveVideoSession_probe_fails_within, saveVideoSession_probe_fails
      by assumption. apply save_session_locally_has_room, H.
Qed.

Lemma savePauseInsight_has_room (room : Quota.t) (up : nat -> bool)
    (i : PauseInsight.t) (w : world) :
  has_room room -> Quota.savePauseInsight room up i w = savePauseInsight up i w.
Proof.
  intros H.
  destruct (up (calls w)) eqn:H1; [destruct (up (S (calls w))) eqn:H2 | ].
  - rewrite savePauseInsight_remote_within, savePauseInsight_remote
      by assumption. reflexivity.
  - rewrite savePauseInsight_write_fails_within, savePauseInsight_write_fails
      by assumption. apply save_insight_locally_has_room, H.
  - rewrite savePauseInsight_probe_fails_within, savePauseInsight_probe_fails
      by assumption. apply save_insight_locally_has_room, H.
Qed.

Lemma run_has_room (room : Quota.t) (up : nat -> bool) (os : list op) :
  has_room room -> forall w, Quota.run room up os w = run up os w.
Proof.
  intros H. induction os as [ | o os IH]; intros w; [reflexivity | ].
  cbn [Quota.run run].
  assert (E : Quota.run_op room up o w = run_op up o w).
  { destruct o; cbn [Quota.run_op run_op]; try reflexivity.
    - rewrite saveVideoSession_has_room by exact H. reflexivity.
    - rewrite savePauseInsight_has_room by exact H. reflexivity. }
  rewrite E. destruct (run_op up o w); cbn [bind]; [ | reflexivity].
  rewrite IH. reflexivity.
Qed.


(** ** Saves with the backend down, whatever the quota *)

(** With the backend failing every call, a save ends as its write to
    local storage ends. *)
Lemma saveVideoSession_always_down_within (room : Quota.t)
    (s : VideoSession.t) (w : world) :
  let key := sessions_key (VideoSession.user_id s) in
  Quota.saveVideoSession room always_down s w =
  match stored_list key w with
  | Some old => Quota.setItem room key (merge_session s old) (advance 2 false w)
  | None => Throw (advance 2 false w)
  end.
Proof.
  intros key. rewrite saveVideoSession_probe_fails_within by reflexivity.
  rewrite save_session_locally_probe_fails_within by reflexivity.
  rewrite read_local_stored, !stored_list_advance. fold key.
  destruct (stored_list key w); reflexivity.
Qed.

Lemma savePauseInsight_always_down_within (room : Quota.t)
    (i : PauseInsight.t) (w : world) :
  let key := insights_key (PauseInsight.session_id i) in
  Quota.savePauseInsight room always_down i w =
  match stored_list key w with
  | Some old =>
      Quota.setItem room key (old ++ [obj_of_insight i]) (advance 2 false w)
  | None => Throw (advance 2 false w)
  end.
Proof.
  intros key. rewrite savePauseInsight_probe_fails_within by reflexivity.
  rewrite save_insight_locally_probe_fails_within by reflexivity.
  rewrite read_local_stored, !stored_list_advance. fold key.
  destruct (stored_list key w); reflexivity.
Qed.


(** ** Records with the same values *)

Lemma same_values_session_all (s : VideoSession.t) :
  same_values persisted_fields (obj_of_session s) (wire_of_session s).
Proof. repeat constructor. Qed.

Lemma same_values_insight_all (i : PauseInsight.t) :
  same_values persisted_fields (obj_of_insight i) (wire_of_insight i).
Proof. repeat constructor. Qed.

Lemma same_listing_sessions_all (l : list VideoSession.t) :
  same_listing persisted_fields (obj_of_session <$> l) (wire_of_session <$> l).
Proof.
  induction l as [ | s l IH]; constructor;
    [apply same_values_session_all | exact IH].
Qed.

Lemma same_listing_insights_all (l : list PauseInsight.t) :
  same_listing persisted_fields (obj_of_insight <$> l) (wire_of_insight <$> l).
Proof.
  induction l as [ | i l IH]; constructor;
    [apply same_values_insight_all | exact IH].
Qed.


(** ** Sessions in step *)

(** An element that comes before every other goes to the front. *)
Lemma sort_by_snoc_first (le : obj -> obj -> bool) (x : obj) (l : list obj) :
  Forall (fun a => le a x = false) l ->
  Remote.sort_by le (l ++ [x]) = x :: Remote.sort_by le l.
Proof.
  induction 1 as [ | a l Ha Hl IH]; [reflexivity | ].
  cbn [app Remote.sort_by]. rewrite IH. cbn [Remote.insert_by].
  rewrite Ha. reflexivity.
Qed.

Lemma unseen_video (s x : VideoSession.t) :
  unseen s x = true -> VideoSession.video_id x <> VideoSession.video_id s.
Proof.
  unfold unseen. intros H. apply andb_true_iff in H as [H _].
  apply negb_true_iff, bool_decide_eq_false_1 in H. congruence.
Qed.

Lemma unseen_id (s x : VideoSession.t) :
  unseen s x = true -> VideoSession.id x <> VideoSession.id s.
Proof.
  unfold unseen. intros H. apply andb_true_iff in H as [_ H].
  apply negb_true_iff, bool_decide_eq_false_1 in H. congruence.
Qed.

Lemma unseen_resumes (s f : VideoSession.t) (l : list VideoSession.t) :
  resumes s f = true -> forallb (unseen f) l = true ->
  forallb (unseen s) l = true.
Proof.
  unfold resumes. intros H.
  apply andb_true_iff in H as [H _]. apply andb_true_iff in H as [Hv Hi].
  apply bool_decide_eq_true_1 in Hv, Hi.
  unfold unseen. rewrite Hv, Hi. exact (fun H => H).
Qed.

(** The local branch: no entry of the list reads as the video of [s]. *)
Lemma unseen_locally (s : VideoSession.t) (l : list VideoSession.t) :
  forallb (unseen s) l = true ->
  List.filter (same_video (VideoSession.video_id s)) (obj_of_session <$> l) = [].
Proof.
  induction l as [ | x l IH]; [reflexivity | ].
  cbn [forallb]. intros H. apply andb_true_iff in H as [Hx Hl].
  cbn [fmap list_fmap List.filter]. rewrite same_video_obj.
  rewrite bool_decide_eq_false_2 by (apply unseen_video, Hx).
  apply IH, Hl.
Qed.

Lemma has_id_wire (i : string) (x : VideoSession.t) :
  Remote.has_id (Some (VStr i)) (wire_of_session x)
  = bool_decide (VideoSession.id x = i).
Proof. reflexivity. Qed.

Lemma tidy_keep (u : string) (kept : list VideoSession.t)
    (s : VideoSession.t) :
  tidy u kept -> in_step u kept s = true -> tidy u (keep kept s).
Proof.
  unfold in_step. intros Ht H.
  apply andb_true_iff in H as [H Hnew]. apply andb_true_iff in H as [Hu Hlater].
  apply bool_decide_eq_true_1 in Hu.
  destruct kept as [ | f older]; [cbn; auto | ].
  destruct Ht as (Hf & Hunseen & Hdesc & Ht).
  pose proof Hlater as Hall. cbn [forallb] in Hlater.
  apply andb_true_iff in Hlater as [_ Hlater'].
  cbn [keep].
  destruct (bool_decide (VideoSession.video_id s = VideoSession.video_id f))
    eqn:Ev.
  - assert (Hr : resumes s f = true).
    { apply orb_true_iff in Hnew as [Hnew | Hr]; [ | exact Hr].
      cbn [forallb] in Hnew.
      apply andb_true_iff in Hnew as [Hnew _]. unfold unseen in Hnew.
      rewrite Ev in Hnew. discriminate. }
    cbn [tidy]. repeat split; try assumption.
    exact (unseen_resumes s f older Hr Hunseen).
  - assert (Hnew' : forallb (unseen s) (f :: older) = true).
    { apply orb_true_iff in Hnew as [Hnew | Hr]; [exact Hnew | ].
      unfold resumes in Hr. rewrite Ev in Hr. discriminate. }
    change (tidy u (s :: f :: older)). cbn [tidy]. repeat split; assumption.
Qed.

(** The local branch keeps the sessions kept, cut at twenty. *)
Lemma merge_session_keep (u : string) (kept : list VideoSession.t)
    (s : VideoSession.t) :
  in_step u kept s = true ->
  merge_session s (obj_of_session <$> take 20 kept)
  = obj_of_session <$> take 20 (keep kept s).
Proof.
  unfold in_step. intros H.
  apply andb_true_iff in H as [_ Hnew].
  destruct kept as [ | f older]; [reflexivity | ].
  cbn [keep].
  destruct (bool_decide (VideoSession.video_id s = VideoSession.video_id f))
    eqn:Ev.
  - apply bool_decide_eq_true_1 in Ev.
    change (take 20 (f :: older)) with (f :: take 19 older).
    change (take 20 (s :: older)) with (s :: take 19 older).
    cbn [fmap list_fmap]. rewrite merge_session_front by congruence.
    rewrite take_ge; [reflexivity | ].
    rewrite length_fmap, length_take. lia.
  - assert (Hnew' : forallb (unseen s) (f :: older) = true).
    { apply orb_true_iff in Hnew as [Hnew | Hr]; [exact Hnew | ].
      unfold resumes in Hr. rewrite Ev in Hr. discriminate. }
    rewrite merge_session_new.
    + change (take 20 (s :: f :: older)) with (s :: take 19 (f :: older)).
      cbn [fmap list_fmap]. f_equal.
      rewrite <- fmap_take, take_take. reflexivity.
    + rewrite fmap_take. apply filter_take_nil, unseen_locally, Hnew'.
Qed.

Lemma updated_by_resumes (u : string) (s f : VideoSession.t) :
  VideoSession.user_id s = u -> VideoSession.user_id f = u ->
  resumes s f = true -> updated_by s f = s.
Proof.
  unfold resumes. intros Hs Hf H.
  apply andb_true_iff in H as [H Ht]. apply andb_true_iff in H as [Hv Hi].
  apply bool_decide_eq_true_1 in Hv, Hi, Ht.
  destruct s, f. cbn in *. subst. reflexivity.
Qed.


(** The backend lists the sessions kept, the latest first. *)
Lemma sort_kept (u : string) (kept : list VideoSession.t) :
  tidy u kept ->
  Remote.sort_by (Remote.row_leb "lastWatched" Remote.Desc)
                 (wire_of_session <$> rev kept)
  = wire_of_session <$> kept.
Proof.
  induction kept as [ | f older IH]; [reflexivity | ].
  intros (_ & _ & Hlater & Ht).
  cbn [rev]. rewrite fmap_app. cbn [fmap list_fmap].
  rewrite sort_by_snoc_first; [rewrite IH by exact Ht; reflexivity | ].
  apply Forall_fmap, Forall_forall. intros x Hx.
  rewrite forallb_forall in Hlater.
  apply list_elem_of_In, in_rev, Hlater in Hx.
  unfold later_than in Hx. apply negb_true_iff in Hx. exact Hx.
Qed.


Lemma kept_of_snoc (u : string) (seen : list VideoSession.t)
    (s : VideoSession.t) :
  kept_of u (seen ++ [s])
  = if of_user u s then keep (kept_of u seen) s else kept_of u seen.
Proof.
  unfold kept_of. rewrite List.filter_app. cbn [List.filter].
  destruct (of_user u s); [ | rewrite app_nil_r; reflexivity].
  rewrite fold_left_app. reflexivity.
Qed.

Lemma in_step_cases (u : string) (kept : list VideoSession.t)
    (s : VideoSession.t) :
  in_step u kept s = true ->
  (forallb (unseen s) kept = true /\ keep kept s = s :: kept) \/
  (exists f older,
     kept = f :: older /\ resumes s f = true /\ keep kept s = s :: older).
Proof.
  unfold in_step. intros H. apply andb_true_iff in H as [_ Hnew].
  destruct kept as [ | f older]; [left; auto | ].
  cbn [keep].
  destruct (bool_decide (VideoSession.video_id s = VideoSession.video_id f))
    eqn:Ev.
  - right. exists f, older. repeat split.
    apply orb_true_iff in Hnew as [Hnew | Hr]; [ | exact Hr].
    cbn [forallb] in Hnew.
    apply andb_true_iff in Hnew as [Hnew _]. unfold unseen in Hnew.
    rewrite Ev in Hnew. discriminate.
  - left. split; [ | reflexivity].
    apply orb_true_iff in Hnew as [Hnew | Hr]; [exact Hnew | ].
    unfold resumes in Hr. rewrite Ev in Hr. discriminate.
Qed.

Lemma filter_and {A} (p q : A -> bool) (l : list A) :
  List.filter (fun x => p x && q x) l = List.filter p (List.filter q l).
Proof.
  induction l as [ | x l IH]; [reflexivity | ].
  cbn [List.filter]. destruct (q x); cbn [List.filter].
  - rewrite andb_true_r. destruct (p x); rewrite IH; reflexivity.
  - rewrite andb_false_r. exact IH.
Qed.

Lemma filter_fmap {A B} (p : B -> bool) (f : A -> B) (l : list A) :
  List.filter p (f <$> l) = f <$> List.filter (fun x => p (f x)) l.
Proof.
  induction l as [ | x l IH]; [reflexivity | ].
  cbn [fmap list_fmap List.filter].
  destruct (p (f x)); cbn [fmap list_fmap]; rewrite IH; reflexivity.
Qed.

Lemma filter_ext_eq {A} (p q : A -> bool) (l : list A) :
  (forall x, p x = q x) -> List.filter p l = List.filter q l.
Proof.
  intros H. induction l as [ | x l IH]; [reflexivity | ].
  cbn [List.filter]. rewrite H, IH. reflexivity.
Qed.

Lemma matches_user_wire (u : string) (x : VideoSession.t) :
  Remote.matches [("userId", u)] (wire_of_session x) = of_user u x.
Proof.
  unfold Remote.matches. cbn [forallb fst snd].
  change (wire_of_session x !! "userId")
    with (Some (VStr (VideoSession.user_id x))).
  cbn [strict_eq_str]. apply andb_true_r.
Qed.

(** The rows the backend lists for a user. *)
Lemma list_rows (u : string) (rows kept : list VideoSession.t) :
  List.filter (of_user u) rows = rev kept -> tidy u kept ->
  Remote.list_ (wire_of_session <$> rows) (sessions_query u)
  = wire_of_session <$> take 20 kept.
Proof.
  intros Hrows Ht. unfold Remote.list_, sessions_query.
  cbn [Remote.where_ Remote.orderBy Remote.limit].
  rewrite filter_fmap.
  rewrite (filter_ext_eq _ (of_user u)) by (intros x; apply matches_user_wire).
  rewrite Hrows, (sort_kept u) by exact Ht. symmetry. apply fmap_take.
Qed.

(** The rows of the pair of [s] in the table. *)
Lemma pair_rows (s : VideoSession.t) (rows kept : list VideoSession.t) :
  List.filter (of_user (VideoSession.user_id s)) rows = rev kept ->
  List.filter (pair_row (VideoSession.user_id s) (VideoSession.video_id s))
              (wire_of_session <$> rows)
  = wire_of_session
      <$> List.filter (fun x => bool_decide (VideoSession.video_id x
                                             = VideoSession.video_id s))
                      (rev kept).
Proof.
  intros Hrows. rewrite filter_fmap, <- Hrows, <- filter_and.
  f_equal. apply filter_ext_eq. intros x. apply pair_row_wire_of.
Qed.

Lemma unseen_filter (s : VideoSession.t) (l : list VideoSession.t) :
  forallb (unseen s) l = true ->
  List.filter (fun x => bool_decide (VideoSession.video_id x
                                     = VideoSession.video_id s)) l = [].
Proof.
  induction l as [ | x l IH]; [reflexivity | ].
  cbn [forallb]. intros H. apply andb_true_iff in H as [Hx Hl].
  cbn [List.filter].
  rewrite bool_decide_eq_false_2 by (apply unseen_video, Hx).
  apply IH, Hl.
Qed.

Lemma forallb_rev {A} (p : A -> bool) (l : list A) :
  forallb p l = true -> forallb p (rev l) = true.
Proof.
  rewrite !forallb_forall. intros H x Hx. apply H, in_rev, Hx.
Qed.

Lemma update_rows (s : VideoSession.t) (i : string)
    (rows : list VideoSession.t) :
  Remote.update (wire_of_session <$> rows) (Some (VStr i)) (update_of_session s)
  = wire_of_session <$> (rewrite_by s i <$> rows).
Proof.
  unfold Remote.update. induction rows as [ | x rows IH]; [reflexivity | ].
  cbn [fmap list_fmap List.map]. rewrite has_id_wire. unfold rewrite_by at 1.
  destruct (bool_decide (VideoSession.id x = i)).
  - rewrite update_wire. f_equal. exact IH.
  - f_equal. exact IH.
Qed.

Lemma rewrite_by_user (s : VideoSession.t) (i u : string)
    (x : VideoSession.t) :
  of_user u (rewrite_by s i x) = of_user u x.
Proof. unfold rewrite_by. destruct (bool_decide _); reflexivity. Qed.

Lemma rewrite_by_other (s : VideoSession.t) (i : string)
    (l : list VideoSession.t) :
  Forall (fun x => VideoSession.id x <> i) l -> rewrite_by s i <$> l = l.
Proof.
  induction 1 as [ | x l Hx Hl IH]; [reflexivity | ].
  cbn [fmap list_fmap]. unfold rewrite_by at 1.
  rewrite bool_decide_eq_false_2 by exact Hx. f_equal. exact IH.
Qed.

Lemma known_snoc (seen : list VideoSession.t) (s x : VideoSession.t) :
  known seen x -> known (seen ++ [s]) x.
Proof. unfold known. intros H. apply Exists_app. left. exact H. Qed.

Lemma known_rewrite_by (seen : list VideoSession.t) (s : VideoSession.t)
    (i : string) (x : VideoSession.t) :
  known seen x -> known seen (rewrite_by s i x).
Proof.
  unfold rewrite_by. destruct (bool_decide _); [ | exact (fun H => H)].
  exact (fun H => H).
Qed.


Lemma of_user_eq (u : string) (s : VideoSession.t) :
  of_user u s = true -> VideoSession.user_id s = u.
Proof. apply bool_decide_eq_true_1. Qed.

Lemma resumes_video (s f : VideoSession.t) :
  resumes s f = true -> VideoSession.video_id s = VideoSession.video_id f.
Proof.
  unfold resumes. intros H. apply andb_true_iff in H as [H _].
  apply andb_true_iff in H as [H _]. apply bool_decide_eq_true_1 in H. exact H.
Qed.

Lemma resumes_id (s f : VideoSession.t) :
  resumes s f = true -> VideoSession.id s = VideoSession.id f.
Proof.
  unfold resumes. intros H. apply andb_true_iff in H as [H _].
  apply andb_true_iff in H as [_ H]. apply bool_decide_eq_true_1 in H. exact H.
Qed.

Lemma own_id_known (seen : list VideoSession.t) (s x : VideoSession.t) :
  own_id seen s = true -> known seen x ->
  VideoSession.user_id x <> VideoSession.user_id s ->
  VideoSession.id x <> VideoSession.id s.
Proof.
  unfold own_id, known. rewrite forallb_forall, Exists_exists.
  intros Hown (y & Hy & Hu & Hi) Hx.
  apply list_elem_of_In, Hown, orb_true_iff in Hy as [Hy | Hy].
  - apply of_user_eq in Hy. congruence.
  - apply negb_true_iff, bool_decide_eq_false_1 in Hy. congruence.
Qed.

(** The remote branch of a save in step, on the rows as sessions. *)
Lemma save_paired_remotely (seen rows : list VideoSession.t)
    (s : VideoSession.t) (wr : world) :
  (forall u, tidy u (kept_of u seen)) ->
  in_step (VideoSession.user_id s) (kept_of (VideoSession.user_id s) seen) s
  = true ->
  own_id seen s = true ->
  videoSessions wr = wire_of_session <$> rows ->
  (forall u, List.filter (of_user u) rows = rev (kept_of u seen)) ->
  Forall (known seen) rows ->
  exists wr' rows',
    saveVideoSession always_up s wr = Ok tt wr' /\
    videoSessions wr' = wire_of_session <$> rows' /\
    pauseInsights wr' = pauseInsights wr /\
    (forall u, List.filter (of_user u) rows' = rev (kept_of u (seen ++ [s]))) /\
    Forall (known (seen ++ [s])) rows'.
Proof.
  intros Ht Hstep Hown Hw Hrows Hknown.
  rewrite saveVideoSession_always_up, existing_is_pair_row, Hw.
  rewrite (pair_rows s rows _ (Hrows _)).
  destruct (in_step_cases _ _ _ Hstep)
    as [[Hunseen Hkeep] | (f & older & Hk & Hr & Hkeep)].
  - rewrite unseen_filter by (apply forallb_rev, Hunseen).
    cbn [fmap list_fmap take]. eexists. exists (rows ++ [s]).
    split; [reflexivity | ].
    cbn [videoSessions pauseInsights set_videoSessions advance].
    split; [unfold Remote.create; rewrite fmap_app; reflexivity | ].
    split; [reflexivity | ]. split.
    + intros u. rewrite List.filter_app, Hrows, kept_of_snoc.
      cbn [List.filter]. destruct (of_user u s) eqn:E.
      * apply of_user_eq in E. subst u. rewrite Hkeep. reflexivity.
      * apply app_nil_r.
    + apply Forall_app. split.
      * eapply Forall_impl; [exact Hknown | ]. intros x. apply known_snoc.
      * constructor; [ | constructor]. apply Exists_app. right.
        constructor. auto.
  - pose proof (Ht (VideoSession.user_id s)) as Htu. rewrite Hk in Htu.
    destruct Htu as (Hfu & Hfunseen & _ & _).
    rewrite Hk. cbn [rev]. rewrite List.filter_app.
    rewrite unseen_filter
      by (apply forallb_rev, (unseen_resumes s f); assumption).
    cbn [List.filter app].
    rewrite bool_decide_eq_true_2 by (symmetry; apply resumes_video, Hr).
    cbn [fmap list_fmap take].
    change (wire_of_session f !! "id") with (Some (VStr (VideoSession.id f))).
    rewrite update_rows.
    eexists. exists (rewrite_by s (VideoSession.id f) <$> rows).
    split; [reflexivity | ].
    cbn [videoSessions pauseInsights set_videoSessions advance].
    split; [reflexivity | ]. split; [reflexivity | ]. split.
    + intros u. rewrite filter_fmap.
      rewrite (filter_ext_eq _ (of_user u))
        by (intros x; apply rewrite_by_user).
      rewrite kept_of_snoc. destruct (of_user u s) eqn:E.
      * apply of_user_eq in E. subst u. rewrite Hrows, Hkeep, Hk.
        cbn [rev]. rewrite fmap_app. cbn [fmap list_fmap].
        rewrite rewrite_by_other.
        -- unfold rewrite_by.
           rewrite bool_decide_eq_true_2 by reflexivity.
           rewrite (updated_by_resumes (VideoSession.user_id s));
             [reflexivity | reflexivity | exact Hfu | exact Hr].
        -- apply Forall_forall. intros x Hx.
           apply list_elem_of_In, in_rev in Hx.
           rewrite forallb_forall in Hfunseen.
           apply unseen_id, Hfunseen, Hx.
      * rewrite <- (Hrows u). apply rewrite_by_other.
        apply Forall_forall. intros x Hx.
        apply list_elem_of_In, filter_In in Hx as [Hx Hxu].
        apply of_user_eq in Hxu.
        rewrite Forall_forall in Hknown.
        rewrite <- (resumes_id s f Hr).
        apply (own_id_known seen); [exact Hown | | ].
        -- apply Hknown, list_elem_of_In, Hx.
        -- intros Hsame. unfold of_user in E.
           apply bool_decide_eq_false_1 in E. congruence.
    + apply Forall_fmap. eapply Forall_impl; [exact Hknown | ].
      intros x Hx. apply known_snoc, known_rewrite_by, Hx.
Qed.

(** The local branch of a save in step. *)
Lemma save_paired_locally (seen : list VideoSession.t) (s : VideoSession.t)
    (wl : world) :
  (forall u, stored_list (sessions_key u) wl
             = Some (obj_of_session <$> take 20 (kept_of u seen))) ->
  in_step (VideoSession.user_id s) (kept_of (VideoSession.user_id s) seen) s
  = true ->
  exists wl',
    saveVideoSession always_down s wl = Ok tt wl' /\
    (forall u, stored_list (sessions_key u) wl'
               = Some (obj_of_session <$> take 20 (kept_of u (seen ++ [s])))) /\
    (forall sid, stored_list (insights_key sid) wl'
                 = stored_list (insights_key sid) wl).
Proof.
  intros Hl Hstep.
  rewrite (saveVideoSession_always_down s wl _ (Hl _)).
  rewrite (merge_session_keep _ _ _ Hstep).
  eexists. split; [reflexivity | ]. split.
  - intros u. rewrite kept_of_snoc. unfold of_user.
    destruct (decide (VideoSession.user_id s = u)) as [<- | Hne].
    + rewrite bool_decide_eq_true_2 by reflexivity. apply stored_list_setItem.
    + rewrite bool_decide_eq_false_2 by exact Hne.
      rewrite stored_list_setItem_ne, stored_list_advance; [apply Hl | ].
      intros E. apply sessions_key_inj in E. contradiction.
  - intros sid. rewrite stored_list_setItem_ne, stored_list_advance;
      [reflexivity | apply sessions_key_not_insights_key].
Qed.


(** ** Insights in the order of their timestamps *)

Lemma filter_session_wire (sid : string) (ins : list PauseInsight.t) :
  List.filter (Remote.matches [("sessionId", sid)]) (wire_of_insight <$> ins)
  = wire_of_insight <$> List.filter (in_session sid) ins.
Proof.
  induction ins as [ | i ins IH]; [reflexivity | ].
  cbn [fmap list_fmap List.filter]. rewrite insights_of_session_wire.
  unfold in_session at 1.
  destruct (bool_decide (PauseInsight.session_id i = sid));
    cbn [fmap list_fmap]; rewrite IH; reflexivity.
Qed.

(** Rows that are in the order of their timestamps stay as they are. *)
Lemma sort_ascending (l : list PauseInsight.t) :
  timestamps_ascend l = true ->
  Remote.sort_by (Remote.row_leb "timestamp" Remote.Asc) (wire_of_insight <$> l)
  = wire_of_insight <$> l.
Proof.
  induction l as [ | a l IH]; [reflexivity | ].
  cbn [timestamps_ascend fmap list_fmap Remote.sort_by].
  destruct l as [ | b l]; [reflexivity | ].
  intros H. apply andb_true_iff in H as [Hab Hl].
  rewrite IH by exact Hl. cbn [fmap list_fmap Remote.insert_by].
  assert (E : Remote.row_leb "timestamp" Remote.Asc (wire_of_insight a)
                             (wire_of_insight b) = true) by exact Hab.
  rewrite E. reflexivity.
Qed.

Lemma list_insights_kept (sid : string) (ins : list PauseInsight.t) :
  timestamps_ascend (List.filter (in_session sid) ins) = true ->
  Remote.list_ (wire_of_insight <$> ins) (insights_query sid)
  = wire_of_insight <$> List.filter (in_session sid) ins.
Proof.
  intros H. unfold Remote.list_, insights_query.
  cbn [Remote.where_ Remote.orderBy Remote.limit].
  rewrite filter_session_wire. apply sort_ascending, H.
Qed.


Lemma timestamps_ascend_snoc (l : list PauseInsight.t) (i : PauseInsight.t) :
  timestamps_ascend l = true ->
  forallb (fun j => Qle_bool (PauseInsight.timestamp j)
                             (PauseInsight.timestamp i)) l = true ->
  timestamps_ascend (l ++ [i]) = true.
Proof.
  induction l as [ | a l IH]; [reflexivity | ].
  intros Hl Hall. cbn [forallb] in Hall.
  apply andb_true_iff in Hall as [Ha Hall].
  destruct l as [ | b l].
  - cbn. rewrite Ha. reflexivity.
  - cbn [timestamps_ascend] in Hl. apply andb_true_iff in Hl as [Hab Hl].
    specialize (IH Hl Hall). rewrite <- !app_comm_cons in *.
    cbn [timestamps_ascend] in *. rewrite Hab. exact IH.
Qed.

Lemma after_noted_session (noted : list PauseInsight.t) (i : PauseInsight.t) :
  after_noted noted i = true ->
  forallb (fun j => Qle_bool (PauseInsight.timestamp j)
                             (PauseInsight.timestamp i))
          (List.filter (in_session (PauseInsight.session_id i)) noted) = true.
Proof.
  unfold after_noted. rewrite !forallb_forall. intros H j Hj.
  apply filter_In in Hj as [Hj Hs]. apply H in Hj. rewrite Hs in Hj.
  exact Hj.
Qed.

Lemma in_session_eq (sid : string) (i : PauseInsight.t) :
  in_session sid i = true -> PauseInsight.session_id i = sid.
Proof. apply bool_decide_eq_true_1. Qed.


(** ** The two paths, call by call *)

Lemma paired_init : paired [] [] init init.
Proof.
  unfold paired.
  split; [reflexivity | ]. split; [reflexivity | ].
  split; [exists []; split; [reflexivity | split; [reflexivity | constructor]] | ].
  split; [reflexivity | ]. split; [intros u; exact I | reflexivity].
Qed.

Lemma paired_advance (seen : list VideoSession.t) (noted : list PauseInsight.t)
    (n m : nat) (b c : bool) (wl wr : world) :
  paired seen noted wl wr ->
  paired seen noted (advance n b wl) (advance m c wr).
Proof. exact (fun H => H). Qed.


Section PairedSteps.
Variables (seen : list VideoSession.t) (noted : list PauseInsight.t).
Variables wl wr : world.
Hypothesis Hp : paired seen noted wl wr.

Lemma list_sessions_paired (u : string) :
  exists r r' wl' wr',
    getVideoSessions always_down u wl = Ok r wl' /\
    getVideoSessions always_up u wr = Ok r' wr' /\
    same_listing persisted_fields r r' /\
    paired seen noted wl' wr'.
Proof.
  destruct Hp as (Hl & Hi & (rows & Hw & Hrows & Hknown) & Hn & Ht & Ha).
  eexists _, _, _, _.
  split; [exact (getVideoSessions_always_down u wl _ (Hl u)) | ].
  split; [apply getVideoSessions_remote; reflexivity | ].
  split; [ | apply paired_advance, Hp].
  rewrite Hw, (list_rows u rows _ (Hrows u) (Ht u)).
  apply same_listing_sessions_all.
Qed.

Lemma list_insights_paired (sid : string) :
  exists r r' wl' wr',
    getPauseInsights always_down sid wl = Ok r wl' /\
    getPauseInsights always_up sid wr = Ok r' wr' /\
    same_listing persisted_fields r r' /\
    paired seen noted wl' wr'.
Proof.
  destruct Hp as (Hl & Hi & Hrows & Hn & Ht & Ha).
  eexists _, _, _, _.
  split; [exact (getPauseInsights_always_down sid wl _ (Hi sid)) | ].
  split; [apply getPauseInsights_remote; reflexivity | ].
  split; [ | apply paired_advance, Hp].
  rewrite Hn, list_insights_kept by apply Ha.
  apply same_listing_insights_all.
Qed.

Lemma save_session_paired (s : VideoSession.t) :
  in_step (VideoSession.user_id s) (kept_of (VideoSession.user_id s) seen) s
  = true ->
  own_id seen s = true ->
  exists wl' wr',
    saveVideoSession always_down s wl = Ok tt wl' /\
    saveVideoSession always_up s wr = Ok tt wr' /\
    paired (seen ++ [s]) noted wl' wr'.
Proof.
  intros Hstep Hown.
  destruct Hp as (Hl & Hi & (rows & Hw & Hrows & Hknown) & Hn & Ht & Ha).
  destruct (save_paired_locally seen s wl Hl Hstep) as (wl' & El & Hl' & Hi').
  destruct (save_paired_remotely seen rows s wr Ht Hstep Hown Hw Hrows Hknown)
    as (wr' & rows' & Er & Hw' & Hn' & Hrows' & Hknown').
  exists wl', wr'. split; [exact El | ]. split; [exact Er | ].
  split; [exact Hl' | ].
  split; [intros sid; rewrite Hi'; apply Hi | ].
  split; [exists rows'; auto | ].
  split; [congruence | ]. split; [ | exact Ha].
  intros u. rewrite kept_of_snoc.
  destruct (of_user u s) eqn:E; [ | apply Ht].
  apply of_user_eq in E. subst u. apply tidy_keep; [apply Ht | exact Hstep].
Qed.

Lemma save_insight_paired (i : PauseInsight.t) :
  after_noted noted i = true ->
  exists wl' wr',
    savePauseInsight always_down i wl = Ok tt wl' /\
    savePauseInsight always_up i wr = Ok tt wr' /\
    paired seen (noted ++ [i]) wl' wr'.
Proof.
  intros Hafter.
  destruct Hp as (Hl & Hi & Hrows & Hn & Ht & Ha).
  eexists _, _.
  split; [exact (savePauseInsight_always_down i wl _ (Hi _)) | ].
  split; [apply savePauseInsight_remote; reflexivity | ].
  split.
  { intros u. rewrite stored_list_setItem_ne, stored_list_advance;
      [apply Hl | ].
    intros E. symmetry in E. exact (sessions_key_not_insights_key _ _ E). }
  split.
  { intros sid. rewrite List.filter_app. cbn [List.filter].
    change (in_session sid i)
      with (bool_decide (PauseInsight.session_id i = sid)).
    destruct (decide (PauseInsight.session_id i = sid)) as [<- | Hne].
    - rewrite bool_decide_eq_true_2 by reflexivity.
      rewrite stored_list_setItem, fmap_app. reflexivity.
    - rewrite bool_decide_eq_false_2 by exact Hne.
      rewrite app_nil_r, stored_list_setItem_ne, stored_list_advance;
        [apply Hi | ].
      intros E. apply insights_key_inj in E. contradiction. }
  split; [exact Hrows | ].
  split.
  { cbn [pauseInsights set_pauseInsights advance]. rewrite Hn.
    unfold Remote.create. rewrite fmap_app. reflexivity. }
  split; [exact Ht | ].
  intros sid. rewrite List.filter_app. cbn [List.filter].
  destruct (in_session sid i) eqn:E; [ | rewrite app_nil_r; apply Ha].
  apply in_session_eq in E. subst sid.
  apply timestamps_ascend_snoc; [apply Ha | apply after_noted_session, Hafter].
Qed.

End PairedSteps.

Lemma runs_paired (os : list op) :
  forall (seen : list VideoSession.t) (noted : list PauseInsight.t)
         (wl wr : world),
    paired seen noted wl wr ->
    orderly seen noted os = true ->
    exists rs wl' rs' wr',
      run always_down os wl = Ok rs wl' /\
      run always_up os wr = Ok rs' wr' /\
      Forall2 (same_listing persisted_fields) rs rs'.
Proof.
  induction os as [ | o os IH]; intros seen noted wl wr Hp Ho.
  - exists [], wl, [], wr. repeat split; constructor.
  - destruct o as [u | s | sid | i]; cbn [orderly] in Ho; cbn [run run_op].
    + destruct (list_sessions_paired seen noted wl wr Hp u)
        as (r & r' & wl1 & wr1 & El & Er & Hsame & Hp1).
      destruct (IH seen noted wl1 wr1 Hp1 Ho)
        as (rs & wl2 & rs' & wr2 & El2 & Er2 & Hall).
      exists (r :: rs), wl2, (r' :: rs'), wr2.
      rewrite El, Er. cbn [bind]. rewrite El2, Er2. cbn [bind].
      split; [reflexivity | split; [reflexivity | constructor; assumption]].
    + apply andb_true_iff in Ho as [Ho Hos].
      apply andb_true_iff in Ho as [Hstep Hown].
      destruct (save_session_paired seen noted wl wr Hp s Hstep Hown)
        as (wl1 & wr1 & El & Er & Hp1).
      destruct (IH _ noted wl1 wr1 Hp1 Hos)
        as (rs & wl2 & rs' & wr2 & El2 & Er2 & Hall).
      exists ([] :: rs), wl2, ([] :: rs'), wr2.
      rewrite El, Er. cbn [bind]. rewrite El2, Er2. cbn [bind].
      split; [reflexivity | split; [reflexivity | ]].
      constructor; [constructor | exact Hall].
    + destruct (list_insights_paired seen noted wl wr Hp sid)
        as (r & r' & wl1 & wr1 & El & Er & Hsame & Hp1).
      destruct (IH seen noted wl1 wr1 Hp1 Ho)
        as (rs & wl2 & rs' & wr2 & El2 & Er2 & Hall).
      exists (r :: rs), wl2, (r' :: rs'), wr2.
      rewrite El, Er. cbn [bind]. rewrite El2, Er2. cbn [bind].
      split; [reflexivity | split; [reflexivity | constructor; assumption]].
    + apply andb_true_iff in Ho as [Hafter Hos].
      destruct (save_insight_paired seen noted wl wr Hp i Hafter)
        as (wl1 & wr1 & El & Er & Hp1).
      destruct (IH seen _ wl1 wr1 Hp1 Hos)
        as (rs & wl2 & rs' & wr2 & El2 & Er2 & Hall).
      exists ([] :: rs), wl2, ([] :: rs'), wr2.
      rewrite El, Er. cbn [bind]. rewrite El2, Er2. cbn [bind].
      split; [reflexivity | split; [reflexivity | ]].
      constructor; [constructor | exact Hall].
Qed.


Lemma readable_init : readable init.
Proof.
  intros key. unfold init. cbn [localStorage]. rewrite lookup_empty.
  discriminate.
Qed.



